(** * allow2automate-steam: a shallow embedding of the plugin and its properties

    The development follows the JavaScript sources:
    - the plugin factory [plugin(context)] with [configureSteamPolicy],
      [updateSteamPolicy], [handleViolation], the event listeners and the
      IPC handlers (documented as [src/index.js]; in this tree it follows
      the component in [src/components/TabContent.js]),
    - [src/services/SteamMonitor.js] ([getProcessNames]),
    - [src/services/SteamVDFParser.js] ([parseFile] and its cache).

    Effects are explicit.  A handler is a function from a world (plugin
    state and the chronological trace of outbound calls) to an outcome and
    a new world.  The agent service, the clock and the file system are
    oracles that answer from the trace so far, so nothing is assumed about
    them.  A JavaScript [throw] is the [Throw] outcome; mutations made
    before a throw stay in the world, as they do in JavaScript.  Each
    handler is modelled as one uninterrupted run: interleaving of two
    handlers at an [await] is outside this model.  [console.log] lines are
    omitted; [console.error] lines are kept as trace events. *)

From Stdlib Require Import ZArith List Ascii String DecimalString Lia Bool.
From stdpp Require Import gmap strings list fin_maps.

Import ListNotations.
Local Open Scope Z_scope.

(** ** JavaScript strings

    Strings are UTF-8 byte sequences.  [toLowerCase] folds [A]-[Z]; the
    only code points outside ASCII whose lower-case form contains an ASCII
    letter give [k] or [i], neither of which occurs in the needle that the
    plugin searches for, so the byte-level fold decides the same
    [includes] tests as the Unicode one. *)
Module JSString.

Definition is_upper (c : ascii) : bool :=
  (65 <=? nat_of_ascii c)%nat && (nat_of_ascii c <=? 90)%nat.

Definition lower_char (c : ascii) : ascii :=
  if is_upper c then ascii_of_nat (nat_of_ascii c + 32) else c.

Fixpoint toLowerCase (s : string) : string :=
  match s with
  | EmptyString => EmptyString
  | String c s' => String (lower_char c) (toLowerCase s')
  end.

(** [startsWith s p]: [p] is a prefix of [s]. *)
Fixpoint startsWith (s p : string) {struct p} : bool :=
  match p, s with
  | EmptyString, _ => true
  | String _ _, EmptyString => false
  | String a p', String b s' => Ascii.eqb a b && startsWith s' p'
  end.

(** [includes s p]: [p] occurs in [s] at some position. *)
Fixpoint includes (s p : string) : bool :=
  startsWith s p ||
  match s with
  | EmptyString => false
  | String _ s' => includes s' p
  end.

(** Truthiness of a string: the empty string is falsy. *)
Definition truthy (s : string) : bool :=
  match s with EmptyString => false | _ => true end.

(** Case-insensitive equality of two strings, character by character. *)
Fixpoint eq_ci (s t : string) : bool :=
  match s, t with
  | EmptyString, EmptyString => true
  | String a s', String b t' =>
      Ascii.eqb (lower_char a) (lower_char b) && eq_ci s' t'
  | _, _ => false
  end.

(** [contains_ci s p]: some substring of [s] equals [p] up to letter case.
    This is the reading of "contains the substring, case-insensitively",
    stated without reference to [toLowerCase]. *)
Definition contains_ci (s p : string) : Prop :=
  exists pre mid post, s = pre +:+ mid +:+ post /\ eq_ci mid p = true.

End JSString.

(** ** The members of [Object.prototype]

    The plugin keeps its maps ([state.agents], [state.policies], the table
    [processNames]) in plain objects and reads them with [obj[k]].  For a
    key that the object does not have itself, [obj[k]] goes to
    [Object.prototype]: for the names below it finds a function (for
    [__proto__], the prototype object), which is truthy and can be given
    properties.  A field that the plugin writes there is kept in the
    trace, apart from the plugin state, and is read back from the member
    it was written on.  A field written through [__proto__] sits on
    [Object.prototype] itself; what other objects inherit from it from
    then on is not followed. *)
Module ObjectPrototype.

Definition members : list string :=
  ["constructor"; "__defineGetter__"; "__defineSetter__"; "hasOwnProperty";
   "__lookupGetter__"; "__lookupSetter__"; "isPrototypeOf";
   "propertyIsEnumerable"; "toString"; "valueOf"; "__proto__";
   "toLocaleString"].

Definition has (k : string) : bool := existsb (String.eqb k) members.

End ObjectPrototype.

(** ** JavaScript objects used as string-keyed maps

    [state.agents] is enumerated with [Object.values], so its key order is
    part of the behaviour.  An object is the list of its own properties in
    insertion order; [Object.values] lists array-index keys first, in
    ascending numeric order, then the other keys in insertion order.
    [get] reads an own property; [lookup] is [obj[k]], which falls back to
    the members of [Object.prototype].  [set] is [obj[k] = v] for the keys
    that become own properties, which is every key but [__proto__]. *)
Module JSObj.

(** What [obj[k]] finds: an own property, a member of [Object.prototype],
    or nothing ([undefined]). *)
Inductive Found (V : Type) : Type :=
  | Own (v : V)
  | Inherited
  | Missing.
Arguments Own {V} v.
Arguments Inherited {V}.
Arguments Missing {V}.

Section WithValue.
Context {V : Type}.

Definition t := list (string * V).

(** The own property [k] of [obj], as [Object.values] and
    [hasOwnProperty] see it. *)
Fixpoint get (k : string) (o : list (string * V)) : option V :=
  match o with
  | [] => None
  | (k', v) :: o' => if String.eqb k k' then Some v else get k o'
  end.

(** [obj[k]] *)
Definition lookup (k : string) (o : list (string * V)) : Found V :=
  match get k o with
  | Some v => Own v
  | None => if ObjectPrototype.has k then Inherited else Missing
  end.

(** [obj[k] = v]: an existing key keeps its position, a new key goes last. *)
Fixpoint set (k : string) (v : V) (o : list (string * V)) : list (string * V) :=
  match o with
  | [] => [(k, v)]
  | (k', v') :: o' =>
      if String.eqb k k' then (k, v) :: o' else (k', v') :: set k v o'
  end.

(** An array index is the canonical decimal form of an integer below
    [2^32 - 1]. *)
Definition array_index (k : string) : option N :=
  match NilEmpty.uint_of_string k with
  | Some d =>
      let n := N.of_uint d in
      if String.eqb (NilZero.string_of_uint (N.to_uint n)) k
         && (n <? 4294967295)%N
      then Some n else None
  | None => None
  end.

Fixpoint insert_index (n : N) (v : V) (l : list (N * V)) : list (N * V) :=
  match l with
  | [] => [(n, v)]
  | (m, w) :: l' =>
      if (n <? m)%N then (n, v) :: l else (m, w) :: insert_index n v l'
  end.

Fixpoint index_props (o : list (string * V)) : list (N * V) :=
  match o with
  | [] => []
  | (k, v) :: o' =>
      match array_index k with
      | Some n => insert_index n v (index_props o')
      | None => index_props o'
      end
  end.

Fixpoint named_props (o : list (string * V)) : list V :=
  match o with
  | [] => []
  | (k, v) :: o' =>
      match array_index k with
      | Some _ => named_props o'
      | None => v :: named_props o'
      end
  end.

(** [Object.values(obj)] *)
Definition values (o : list (string * V)) : list V :=
  map snd (index_props o) ++ named_props o.

End WithValue.

Arguments t : clear implicits.

End JSObj.

(** ** Outcomes and the handler monad *)

(** What a JavaScript [throw] carries: a [TypeError] raised by the
    language itself, or an error raised by an external service. *)
Inductive JsError : Type :=
  | TypeError (msg : string)
  | ServiceError (msg : string).

Inductive Outcome (A : Type) : Type :=
  | Ok (a : A)
  | Throw (e : JsError).
Arguments Ok {A} a.
Arguments Throw {A} e.

Definition M (W A : Type) : Type := W -> Outcome A * W.

Definition ret {W A} (a : A) : M W A := fun w => (Ok a, w).

Definition throw {W A} (e : JsError) : M W A := fun w => (Throw e, w).

Definition bind {W A B} (c : M W A) (k : A -> M W B) : M W B :=
  fun w =>
    match c w with
    | (Ok a, w') => k a w'
    | (Throw e, w') => (Throw e, w')
    end.

(** [try { c } catch (e) { h e }] *)
Definition try_catch {W A} (c : M W A) (h : JsError -> M W A) : M W A :=
  fun w =>
    match c w with
    | (Ok a, w') => (Ok a, w')
    | (Throw e, w') => h e w'
    end.

Notation "'let*' x ':=' c 'in' k" := (bind c (fun x => k))
  (at level 10, x name, c at level 100, k at level 200).
Notation "c ';;' k" := (bind c (fun _ => k))
  (at level 100, k at level 200, right associativity).

(** [for (const x of xs) { await body(x) }] *)
Fixpoint for_of {W A} (xs : list A) (body : A -> M W unit) : M W unit :=
  match xs with
  | [] => ret tt
  | x :: xs' => body x ;; for_of xs' body
  end.

(** ** SteamVDFParser: parse with a cache keyed by path and checked by mtime *)
Module SteamVDFParser.

(** The tree that the third-party decoder returns. *)
#[warnings="-register-all"]
Inductive Vdf : Type :=
  | VStr (s : string)
  | VObj (props : list (string * Vdf)).

(** A decoded object on the heap: [ref] is its identity, [tree] its
    content.  Two results are the identical object when their [ref]s are
    equal. *)
Record ParsedObj : Type := { ref : nat; tree : Vdf }.

Record CacheEntry : Type := { data : ParsedObj; mtime : Z }.

Inductive FsEvent : Type :=
  | EReadFile (path : string)
  | EStat (path : string)
  | EDecode (content : string)
  | EConsoleError (msg : string) (path : string).

(** The file system and the decoder ([simple-vdf], not part of this
    repository) answer from the trace of earlier calls. *)
Record Fs : Type := {
  readFileSync : list FsEvent -> string -> Outcome string;
  statSync_mtime : list FsEvent -> string -> Outcome Z;
  vdf_parse : string -> Outcome Vdf
}.

Record Parser : Type := {
  cache : gmap string CacheEntry;
  next_ref : nat;
  fs_trace : list FsEvent
}.

Section WithFs.
Variable fs : Fs.

Definition emit (e : FsEvent) : M Parser unit :=
  fun w => (Ok tt, {| cache := cache w; next_ref := next_ref w;
                      fs_trace := fs_trace w ++ [e] |}).

(** [fs.readFileSync(filePath, 'utf8')] *)
Definition read_file (filePath : string) : M Parser string :=
  fun w => (readFileSync fs (fs_trace w) filePath,
            {| cache := cache w; next_ref := next_ref w;
               fs_trace := fs_trace w ++ [EReadFile filePath] |}).

(** [fs.statSync(filePath).mtime.getTime()] *)
Definition stat_mtime (filePath : string) : M Parser Z :=
  fun w => (statSync_mtime fs (fs_trace w) filePath,
            {| cache := cache w; next_ref := next_ref w;
               fs_trace := fs_trace w ++ [EStat filePath] |}).

(** [vdf.parse(content)]: a successful decode allocates a new object. *)
Definition decode (content : string) : M Parser ParsedObj :=
  fun w =>
    let tr := fs_trace w ++ [EDecode content] in
    match vdf_parse fs content with
    | Ok v => (Ok {| ref := next_ref w; tree := v |},
               {| cache := cache w; next_ref := S (next_ref w); fs_trace := tr |})
    | Throw e => (Throw e,
               {| cache := cache w; next_ref := next_ref w; fs_trace := tr |})
    end.

(** [this.cache.get(filePath)], [undefined] when [this.cache.has] is false *)
Definition cache_get (filePath : string) : M Parser (option CacheEntry) :=
  fun w => (Ok (cache w !! filePath), w).

(** [this.cache.set(filePath, entry)] *)
Definition cache_set (filePath : string) (entry : CacheEntry) : M Parser unit :=
  fun w => (Ok tt, {| cache := <[filePath := entry]> (cache w);
                      next_ref := next_ref w; fs_trace := fs_trace w |}).

(** The cache check at the head of [parseFile]: [Some d] when the cached
    object is to be returned. *)
Definition cache_check (filePath : string) (useCache : bool)
  : M Parser (option ParsedObj) :=
  if useCache then
    let* entry := cache_get filePath in
    match entry with
    | Some cached =>
        let* m := stat_mtime filePath in
        if mtime cached =? m then ret (Some (data cached)) else ret None
    | None => ret None
    end
  else ret None.

(** The [try] block of [parseFile]: read, decode, stat, store, return; an
    error is reported on the console and thrown again. *)
Definition read_and_parse (filePath : string) : M Parser ParsedObj :=
  try_catch
    (let* content := read_file filePath in
     let* parsed := decode content in
     let* m := stat_mtime filePath in
     cache_set filePath {| data := parsed; mtime := m |} ;;
     ret parsed)
    (fun error =>
       emit (EConsoleError "[SteamVDFParser] Error parsing VDF file:" filePath) ;;
       throw error).

Definition parseFile (filePath : string) (useCache : bool) : M Parser ParsedObj :=
  let* hit := cache_check filePath useCache in
  match hit with
  | Some d => ret d
  | None => read_and_parse filePath
  end.

Definition clearCache : M Parser unit :=
  fun w => (Ok tt, {| cache := ∅; next_ref := next_ref w; fs_trace := fs_trace w |}).

Definition clearCacheForFile (filePath : string) : M Parser unit :=
  fun w => (Ok tt, {| cache := delete filePath (cache w);
                      next_ref := next_ref w; fs_trace := fs_trace w |}).

End WithFs.

(** A new parser: [this.cache = new Map()]. *)
Definition new_parser : Parser := {| cache := ∅; next_ref := 0; fs_trace := [] |}.

End SteamVDFParser.

(** ** SteamMonitor: the process-name table of the machine the plugin runs on *)
Module SteamMonitor.

(** The object literal [processNames] and the lookup [processNames[platform]].
    The lookup is over the literal's own keys; names inherited from
    [Object.prototype] are outside the model ([os.platform()] never returns
    one). *)
Definition processNames (platform : string) : option (list string) :=
  if String.eqb platform "win32" then
    Some ["Steam.exe"; "steamwebhelper.exe"; "gameoverlayui.exe"]
  else if String.eqb platform "darwin" then
    Some ["steam_osx"; "Steam.app"; "steamwebhelper"]
  else if String.eqb platform "linux" then
    Some ["steam"; "steamwebhelper"; "reaper"]
  else None.

(** [getProcessNames()], as a function of what [os.platform()] returns:
    [processNames[platform] || processNames.win32]. *)
Definition getProcessNames (platform : string) : list string :=
  match processNames platform with
  | Some names => names
  | None => ["Steam.exe"; "steamwebhelper.exe"; "gameoverlayui.exe"]
  end.

(** [getMainProcessName()]: [processNames[0]], [undefined] on an empty list. *)
Definition getMainProcessName (platform : string) : option string :=
  head (getProcessNames platform).

End SteamMonitor.

(** ** Arrays *)
Module JSArray.

(** A relative index of [slice], clamped to the array. *)
Definition rel_index (i len : Z) : Z :=
  if i <? 0 then Z.max (len + i) 0 else Z.min i len.

(** [arr.slice(start, end)] *)
Definition slice {A} (arr : list A) (start end_ : Z) : list A :=
  let len := Z.of_nat (length arr) in
  let k := rel_index start len in
  let final := rel_index end_ len in
  firstn (Z.to_nat (final - k)) (skipn (Z.to_nat k) arr).

End JSArray.

(** ** The plugin's data *)

(** An agent as the agent service reports it. *)
Module Agent.
Record t : Type := {
  id : string;
  hostname : option string;
  platform : option string;
  online : bool
}.
End Agent.

(** An entry of [state.agents].  A field that the object does not have is
    [None]; [childId] is [Some None] when it is [null]. *)
Module AgentData.
Record t : Type := {
  id : string;
  hostname : option string;
  platform : option string;
  enabled : option bool;
  childId : option (option string);
  lastSeen : option Z;
  allowed : option bool;
  lastUpdate : option Z
}.

(** [{ id: agentId }] *)
Definition fresh (agentId : string) : t :=
  {| id := agentId; hostname := None; platform := None; enabled := None;
     childId := None; lastSeen := None; allowed := None; lastUpdate := None |}.

Definition set_childId (c : option string) (a : t) : t :=
  {| id := id a; hostname := hostname a; platform := platform a;
     enabled := enabled a; childId := Some c; lastSeen := lastSeen a;
     allowed := allowed a; lastUpdate := lastUpdate a |}.

Definition set_enabled (b : bool) (a : t) : t :=
  {| id := id a; hostname := hostname a; platform := platform a;
     enabled := Some b; childId := childId a; lastSeen := lastSeen a;
     allowed := allowed a; lastUpdate := lastUpdate a |}.

Definition set_allowed (b : bool) (a : t) : t :=
  {| id := id a; hostname := hostname a; platform := platform a;
     enabled := enabled a; childId := childId a; lastSeen := lastSeen a;
     allowed := Some b; lastUpdate := lastUpdate a |}.

Definition set_lastUpdate (now : Z) (a : t) : t :=
  {| id := id a; hostname := hostname a; platform := platform a;
     enabled := enabled a; childId := childId a; lastSeen := lastSeen a;
     allowed := allowed a; lastUpdate := Some now |}.
End AgentData.

(** An assignment [entry.field = value] of the plugin. *)
Inductive FieldWrite : Type :=
  | SetChildId (childId : option string)
  | SetEnabled (enabled : bool)
  | SetAllowed (allowed : bool)
  | SetLastUpdate (now : Z).

Definition write_field (wr : FieldWrite) (a : AgentData.t) : AgentData.t :=
  match wr with
  | SetChildId c => AgentData.set_childId c a
  | SetEnabled b => AgentData.set_enabled b a
  | SetAllowed b => AgentData.set_allowed b a
  | SetLastUpdate now => AgentData.set_lastUpdate now a
  end.

Module Settings.
Record t : Type := {
  checkInterval : Z;
  killOnViolation : bool;
  notifyParent : bool
}.
End Settings.

(** The [settings] argument of [steam:updateSettings]: any subset of the
    fields. *)
Module SettingsPatch.
Record t : Type := {
  checkInterval : option Z;
  killOnViolation : option bool;
  notifyParent : option bool
}.
End SettingsPatch.

(** What [processNames[platform]] is when it is not [undefined]: one of the
    table's lists, or, for a platform tag that names a member of
    [Object.prototype], that member. *)
Inductive ProcessList : Type :=
  | Names (names : list string)
  | Member (name : string).

(** [list[0]]: a member of [Object.prototype] has no property [0]. *)
Definition first_name (l : ProcessList) : option string :=
  match l with
  | Names names => head names
  | Member _ => None
  end.

(** An entry of [state.policies]. *)
Module Policy.
Record t : Type := {
  processName : option string;
  alternativeProcesses : ProcessList;
  allowed : bool;
  checkInterval : Z;
  createdAt : Z
}.
End Policy.

(** The policy object passed to [agentService.createPolicy]. *)
Module CreatePolicy.
Record t : Type := {
  processName : option string;
  processAlternatives : ProcessList;
  allowed : bool;
  checkInterval : Z;
  actions_onDetected : string;
  actions_onViolation : string;
  metadata_plugin : string;
  metadata_category : string;
  metadata_platform : string
}.
End CreatePolicy.

(** The partial policy passed to [agentService.updatePolicy]. *)
Module PolicyUpdate.
Record t : Type := {
  processName : option string;
  allowed : option bool;
  checkInterval : option Z;
  enabled : option bool
}.
End PolicyUpdate.

(** The payload of a [violation] or [processDetected] event. *)
Module ProcessEvent.
Record t : Type := {
  agentId : string;
  processName : option string;
  timestamp : option Z;
  hostname : option string
}.
End ProcessEvent.

Module Violation.
Record t : Type := {
  agentId : string;
  processName : option string;
  timestamp : Z;
  hostname : option string
}.
End Violation.

(** The second argument of a [stateChange] event; [quota] is [None] when
    the field is missing. *)
Module Allow2State.
Record t : Type := {
  paused : bool;
  quota : option Z
}.
End Allow2State.

Module Child.
Record t : Type := { steamId : string; displayName : string }.
End Child.

(** The plugin state. *)
Record State : Type := {
  agents : JSObj.t AgentData.t;
  children : gmap string Child.t;
  policies : gmap string Policy.t;
  violations : list Violation.t;
  settings : Settings.t;
  lastSync : option Z
}.

(** The state that [onLoad] starts from when nothing was persisted. *)
Definition default_state : State :=
  {| agents := [];
     children := ∅;
     policies := ∅;
     violations := [];
     settings := {| Settings.checkInterval := 30000;
                    Settings.killOnViolation := true;
                    Settings.notifyParent := true |};
     lastSync := None |}.

Inductive RendererMessage : Type :=
  | MsgViolation (v : Violation.t)
  | MsgDetected (agentId : string) (processName : option string) (timestamp : Z).

(** Outbound calls, in the order in which they are made.  The last kind is
    not a call: it is an assignment [state.agents[k].field = value] for a
    key [k] that names a member of [Object.prototype] and is no entry of
    the map, so that the field is written on that member and not in the
    plugin state. *)
Inductive Event : Type :=
  | EListAgents
  | EGetAgent (agentId : string)
  | ECreatePolicy (agentId : string) (policy : CreatePolicy.t)
  | EUpdatePolicy (agentId : string) (policy : PolicyUpdate.t)
  | EDateNow
  | EConfigurationUpdate (s : State)
  | ESendToRenderer (channel : string) (msg : RendererMessage)
  | ELogActivity (type message : string) (timestamp : Z) (severity : string)
  | EStatusUpdate (status message : string) (timestamp : Z)
  | EConsoleError (msg : string) (subject : option string)
  | EMemberWrite (member : string) (wr : FieldWrite).

(** The host context and the agent service.  Every answer may depend on
    the calls made so far. *)
Record Host : Type := {
  listAgents : list Event -> Outcome (list Agent.t);
  getAgent : list Event -> string -> Outcome (option Agent.t);
  createPolicy : list Event -> string -> CreatePolicy.t -> Outcome unit;
  updatePolicy : list Event -> string -> PolicyUpdate.t -> Outcome unit;
  Date_now : list Event -> Z;
  (** whether [context.sendToRenderer] / [context.logActivity] exist *)
  has_sendToRenderer : bool;
  has_logActivity : bool
}.

Record World : Type := { state : State; trace : list Event }.

(** ** The plugin ([plugin(context)] in [src/index.js]) *)
Module Plugin.

(** What an IPC handler resolves to: [[null, result]] or [[error]]. *)
Inductive IpcResult (A : Type) : Type :=
  | IpcOk (result : A)
  | IpcErr (error : JsError).
Arguments IpcOk {A} result.
Arguments IpcErr {A} error.

(** [{ success: true }] *)
Record Success : Type := { success : bool }.

Definition with_agents (f : JSObj.t AgentData.t -> JSObj.t AgentData.t) (s : State) : State :=
  {| agents := f (agents s); children := children s; policies := policies s;
     violations := violations s; settings := settings s; lastSync := lastSync s |}.

Definition with_policies (f : gmap string Policy.t -> gmap string Policy.t) (s : State) : State :=
  {| agents := agents s; children := children s; policies := f (policies s);
     violations := violations s; settings := settings s; lastSync := lastSync s |}.

Definition with_violations (f : list Violation.t -> list Violation.t) (s : State) : State :=
  {| agents := agents s; children := children s; policies := policies s;
     violations := f (violations s); settings := settings s; lastSync := lastSync s |}.

Definition with_settings (f : Settings.t -> Settings.t) (s : State) : State :=
  {| agents := agents s; children := children s; policies := policies s;
     violations := violations s; settings := f (settings s); lastSync := lastSync s |}.

(** [{ ...old, ...patch }] on settings objects *)
Definition merge_settings (old : Settings.t) (patch : SettingsPatch.t) : Settings.t :=
  {| Settings.checkInterval :=
       default (Settings.checkInterval old) (SettingsPatch.checkInterval patch);
     Settings.killOnViolation :=
       default (Settings.killOnViolation old) (SettingsPatch.killOnViolation patch);
     Settings.notifyParent :=
       default (Settings.notifyParent old) (SettingsPatch.notifyParent patch) |}.

(** [s || fallback] on a possibly missing string *)
Definition str_or (s : option string) (fallback : string) : string :=
  match s with
  | Some v => if JSString.truthy v then v else fallback
  | None => fallback
  end.

(** The text that a template literal prints for a possibly missing string. *)
Definition show (s : option string) : string := default "undefined" s.

(** [x > 0] on a possibly missing number: [undefined > 0] is false. *)
Definition gt0 (x : option Z) : bool :=
  match x with Some n => 0 <? n | None => false end.

(** The truthiness of [state.policies[agentId]]: a stored record, or the
    member of [Object.prototype] that the id names. *)
Definition has_policy (s : State) (agentId : string) : bool :=
  bool_decide (is_Some (policies s !! agentId)) || ObjectPrototype.has agentId.

(** The value that the writes of a trace left in a field of the member
    [k] of [Object.prototype]; [None] ([undefined]) when the field was
    never written. *)
Definition member_field {A} (pick : FieldWrite -> option A) (k : string)
    (tr : list Event) : option A :=
  fold_left
    (fun acc e =>
       match e with
       | EMemberWrite m wr =>
           if String.eqb m k
           then match pick wr with Some v => Some v | None => acc end
           else acc
       | _ => acc
       end)
    tr None.

Definition written_childId (wr : FieldWrite) : option (option string) :=
  match wr with SetChildId c => Some c | _ => None end.

Definition written_enabled (wr : FieldWrite) : option bool :=
  match wr with SetEnabled b => Some b | _ => None end.

Section WithHost.
Variable host : Host.

(** *** Primitive effects *)

Definition get_state : M World State := fun w => (Ok (state w), w).

Definition modify (f : State -> State) : M World unit :=
  fun w => (Ok tt, {| state := f (state w); trace := trace w |}).

Definition emit (e : Event) : M World unit :=
  fun w => (Ok tt, {| state := state w; trace := trace w ++ [e] |}).

(** A call whose answer comes from the host. *)
Definition call {A} (e : Event) (answer : list Event -> Outcome A) : M World A :=
  fun w => (answer (trace w), {| state := state w; trace := trace w ++ [e] |}).

Definition agentService_listAgents : M World (list Agent.t) :=
  call EListAgents (listAgents host).

Definition agentService_getAgent (agentId : string) : M World (option Agent.t) :=
  call (EGetAgent agentId) (fun tr => getAgent host tr agentId).

Definition agentService_createPolicy (agentId : string) (p : CreatePolicy.t) : M World unit :=
  call (ECreatePolicy agentId p) (fun tr => createPolicy host tr agentId p).

Definition agentService_updatePolicy (agentId : string) (p : PolicyUpdate.t) : M World unit :=
  call (EUpdatePolicy agentId p) (fun tr => updatePolicy host tr agentId p).

Definition date_now : M World Z :=
  call EDateNow (fun tr => Ok (Date_now host tr)).

(** [context.configurationUpdate(state)]: the host is handed the state as
    it is at the call. *)
Definition configurationUpdate : M World unit :=
  fun w => (Ok tt, {| state := state w;
                      trace := trace w ++ [EConfigurationUpdate (state w)] |}).

Definition console_error (msg : string) (subject : option string) : M World unit :=
  emit (EConsoleError msg subject).

(** *** configureSteamPolicy *)

(** The object literal [processNames]. *)
Definition processNames_table : JSObj.t (list string) :=
  [("win32", ["Steam.exe"; "steamwebhelper.exe"; "gameoverlayui.exe"]);
   ("darwin", ["steam_osx"; "Steam.app"; "steamwebhelper"]);
   ("linux", ["steam"; "steamwebhelper"; "reaper"])].

(** [processNames[platform]] *)
Definition processNames (platform : string) : JSObj.Found (list string) :=
  JSObj.lookup platform processNames_table.

(** [processNames[platform]] as the value that goes into the policy;
    [None] when it is [undefined]. *)
Definition process_list (platform : string) : option ProcessList :=
  match processNames platform with
  | JSObj.Own names => Some (Names names)
  | JSObj.Inherited => Some (Member platform)
  | JSObj.Missing => None
  end.

(** The policy object that [configureSteamPolicy] passes to
    [agentService.createPolicy]. *)
Definition policy_object (platform : string) (alternativeProcesses : ProcessList)
    (s : State) : CreatePolicy.t :=
  {| CreatePolicy.processName := first_name alternativeProcesses;
     CreatePolicy.processAlternatives := alternativeProcesses;
     CreatePolicy.allowed := false;
     CreatePolicy.checkInterval := Settings.checkInterval (settings s);
     CreatePolicy.actions_onDetected := "check-quota";
     CreatePolicy.actions_onViolation :=
       if Settings.killOnViolation (settings s)
       then "kill-process" else "notify-only";
     CreatePolicy.metadata_plugin := "@allow2/allow2automate-steam";
     CreatePolicy.metadata_category := "gaming";
     CreatePolicy.metadata_platform := platform |}.

(** The record that it then stores in [state.policies]. *)
Definition policy_record (alternativeProcesses : ProcessList) (s : State)
    (now : Z) : Policy.t :=
  {| Policy.processName := first_name alternativeProcesses;
     Policy.alternativeProcesses := alternativeProcesses;
     Policy.allowed := false;
     Policy.checkInterval := Settings.checkInterval (settings s);
     Policy.createdAt := now |}.

Definition configureSteamPolicy (agent : Agent.t) : M World unit :=
  let platform := str_or (Agent.platform agent) "win32" in
  match process_list platform with
  | None =>
      (* [processNames[platform][0]] reads index 0 of [undefined]; this
         line is before the [try] block *)
      throw (TypeError "Cannot read properties of undefined (reading '0')")
  | Some alternativeProcesses =>
      try_catch
        (let* s := get_state in
         agentService_createPolicy (Agent.id agent)
           (policy_object platform alternativeProcesses s) ;;
         let* s := get_state in
         let* now := date_now in
         modify (with_policies (fun ps =>
           <[Agent.id agent := policy_record alternativeProcesses s now]> ps)))
        (fun error =>
           console_error "[Steam Plugin] Error configuring policy for"
                         (Agent.hostname agent))
  end.

(** *** updateSteamPolicy *)

Definition steamAllowed (allow2State : Allow2State.t) : bool :=
  negb (Allow2State.paused allow2State) && gt0 (Allow2State.quota allow2State).

(** The partial policy that [updateSteamPolicy] passes to
    [agentService.updatePolicy]. *)
Definition update_object (s : State) (agent : Agent.t) (steamAllowed : bool)
  : PolicyUpdate.t :=
  {| PolicyUpdate.processName :=
       Some (str_or (p ← policies s !! Agent.id agent; Policy.processName p)
                    "Steam.exe");
     PolicyUpdate.allowed := Some steamAllowed;
     PolicyUpdate.checkInterval := None;
     PolicyUpdate.enabled := None |}.

(** [state.agents[agentId].field = value].  The field is written on the
    entry of the map; for an id that is no entry but names a member of
    [Object.prototype], on that member, outside the plugin state; a
    [TypeError] when [state.agents[agentId]] is [undefined]. *)
Definition assign_agent (agentId : string) (wr : FieldWrite) : M World unit :=
  fun w =>
    match JSObj.lookup agentId (agents (state w)) with
    | JSObj.Own a =>
        (Ok tt, {| state := with_agents (JSObj.set agentId (write_field wr a)) (state w);
                   trace := trace w |})
    | JSObj.Inherited =>
        (Ok tt, {| state := state w;
                   trace := trace w ++ [EMemberWrite agentId wr] |})
    | JSObj.Missing =>
        (Throw (TypeError "Cannot set properties of undefined"), w)
    end.

Definition updateSteamPolicy (agent : Agent.t) (allow2State : Allow2State.t)
  : M World unit :=
  let steamAllowed := steamAllowed allow2State in
  try_catch
    (let* s := get_state in
     agentService_updatePolicy (Agent.id agent)
       (update_object s agent steamAllowed) ;;
     let* s := get_state in
     match JSObj.lookup (Agent.id agent) (agents s) with
     | JSObj.Missing => ret tt
     | _ =>
         assign_agent (Agent.id agent) (SetAllowed steamAllowed) ;;
         let* now := date_now in
         assign_agent (Agent.id agent) (SetLastUpdate now)
     end ;;
     configurationUpdate)
    (fun error =>
       console_error "[Steam Plugin] Error updating policy for" (Agent.hostname agent)).

(** *** handleViolation *)

(** [data.timestamp || Date.now()]: the clock is read only when the
    timestamp is missing or zero. *)
Definition timestamp_or_now (t : option Z) : M World Z :=
  match t with
  | Some v => if v =? 0 then date_now else ret v
  | None => date_now
  end.

Definition handleViolation (data : ProcessEvent.t) : M World unit :=
  let* ts := timestamp_or_now (ProcessEvent.timestamp data) in
  let violation :=
    {| Violation.agentId := ProcessEvent.agentId data;
       Violation.processName := ProcessEvent.processName data;
       Violation.timestamp := ts;
       Violation.hostname := ProcessEvent.hostname data |} in
  modify (with_violations (fun vs => violation :: vs)) ;;
  let* s := get_state in
  (if (100 <? length (violations s))%nat
   then modify (with_violations (fun vs => JSArray.slice vs 0 100))
   else ret tt) ;;
  let* s := get_state in
  (if Settings.notifyParent (settings s) && has_sendToRenderer host
   then emit (ESendToRenderer "steamViolation" (MsgViolation violation))
   else ret tt) ;;
  (if has_logActivity host
   then emit (ELogActivity "steam_blocked"
                (String.append "Steam was blocked on " (show (ProcessEvent.hostname data)))
                (Violation.timestamp violation) "warning")
   else ret tt) ;;
  configurationUpdate.

(** *** Event listeners ([setupEventListeners]) *)

(** [a.childId === childId] *)
Definition linked_to (childId : string) (a : AgentData.t) : bool :=
  match AgentData.childId a with
  | Some (Some c) => String.eqb c childId
  | _ => false
  end.

(** The body of the loop in the [stateChange] listener, for one entry of
    [childAgents]. *)
Definition refresh (newState : Allow2State.t) (agentData : AgentData.t)
  : M World unit :=
  try_catch
    (let* agent := agentService_getAgent (AgentData.id agentData) in
     match agent with
     | Some agent => updateSteamPolicy agent newState
     | None => ret tt
     end)
    (fun error => console_error "[Steam Plugin] Error getting agent:" None).

(** [context.allow2.on('stateChange', ...)] *)
Definition on_stateChange (childId : string) (newState : Allow2State.t) : M World unit :=
  let* s := get_state in
  let childAgents := List.filter (linked_to childId) (JSObj.values (agents s)) in
  for_of childAgents (refresh newState).

(** [agentService.on('agentDiscovered', ...)] *)
Definition on_agentDiscovered (agent : Agent.t) : M World unit :=
  configureSteamPolicy agent ;;
  let* now := date_now in
  modify (with_agents (JSObj.set (Agent.id agent)
    {| AgentData.id := Agent.id agent;
       AgentData.hostname := Agent.hostname agent;
       AgentData.platform := Agent.platform agent;
       AgentData.enabled := Some true;
       AgentData.childId := Some None;
       AgentData.lastSeen := Some now;
       AgentData.allowed := None;
       AgentData.lastUpdate := None |})) ;;
  configurationUpdate.

(** [data.processName?.toLowerCase() || ''] then [.includes('steam')] *)
Definition is_steam (data : ProcessEvent.t) : bool :=
  let processName :=
    str_or (JSString.toLowerCase <$> ProcessEvent.processName data) "" in
  JSString.includes processName "steam".

(** [agentService.on('violation', ...)] *)
Definition on_violation (data : ProcessEvent.t) : M World unit :=
  if is_steam data then handleViolation data else ret tt.

(** [agentService.on('processDetected', ...)] *)
Definition on_processDetected (data : ProcessEvent.t) : M World unit :=
  if is_steam data then
    if has_sendToRenderer host then
      let* ts := timestamp_or_now (ProcessEvent.timestamp data) in
      emit (ESendToRenderer "steamDetected"
              (MsgDetected (ProcessEvent.agentId data)
                           (ProcessEvent.processName data) ts))
    else ret tt
  else ret tt.

(** *** IPC handlers ([setupIPCHandlers]) *)

(** The shape shared by the handlers:
    [try { ...; return [null, r] } catch (error) { return [error] }]. *)
Definition ipc_handler {A} (body : M World A) : M World (IpcResult A) :=
  try_catch (let* r := body in ret (IpcOk r)) (fun error => ret (IpcErr error)).

(** [steam:linkAgent] *)
Definition linkAgent (agentId childId : string) : M World (IpcResult Success) :=
  ipc_handler
    (let* s := get_state in
     (match JSObj.lookup agentId (agents s) with
      | JSObj.Missing =>
          modify (with_agents (JSObj.set agentId (AgentData.fresh agentId)))
      | _ => ret tt
      end) ;;
     assign_agent agentId (SetChildId (Some childId)) ;;
     assign_agent agentId (SetEnabled true) ;;
     configurationUpdate ;;
     ret {| success := true |}).

(** [steam:unlinkAgent] *)
Definition unlinkAgent (agentId : string) : M World (IpcResult Success) :=
  ipc_handler
    (let* s := get_state in
     (match JSObj.lookup agentId (agents s) with
      | JSObj.Missing => ret tt
      | _ =>
          assign_agent agentId (SetChildId None) ;;
          assign_agent agentId (SetEnabled false)
      end) ;;
     configurationUpdate ;;
     ret {| success := true |}).

(** [steam:getViolations]; [limit] is [None] when the argument object has
    no such field, and then defaults to 50. *)
Definition getViolations (limit : option Z) : M World (IpcResult (list Violation.t)) :=
  ipc_handler
    (let* s := get_state in
     ret (JSArray.slice (violations s) 0 (default 50 limit))).

(** [steam:clearViolations] *)
Definition clearViolations : M World (IpcResult Success) :=
  ipc_handler
    (modify (with_violations (fun _ => [])) ;;
     configurationUpdate ;;
     ret {| success := true |}).

(** [steam:getSettings] *)
Definition getSettings : M World (IpcResult Settings.t) :=
  ipc_handler (let* s := get_state in ret (settings s)).

(** [if (settings.checkInterval)]: a number is truthy unless it is zero. *)
Definition truthy_num (n : option Z) : bool :=
  match n with Some v => negb (v =? 0) | None => false end.

(** The body of the loop in [steam:updateSettings], for one listed agent. *)
Definition push_interval (patch : SettingsPatch.t) (agent : Agent.t) : M World unit :=
  let* s := get_state in
  if has_policy s (Agent.id agent) then
    agentService_updatePolicy (Agent.id agent)
      {| PolicyUpdate.processName := None;
         PolicyUpdate.allowed := None;
         PolicyUpdate.checkInterval := SettingsPatch.checkInterval patch;
         PolicyUpdate.enabled := None |}
  else ret tt.

(** [steam:updateSettings] *)
Definition updateSettings (patch : SettingsPatch.t) : M World (IpcResult Success) :=
  ipc_handler
    (modify (with_settings (fun old => merge_settings old patch)) ;;
     configurationUpdate ;;
     (if truthy_num (SettingsPatch.checkInterval patch) then
        let* listed := agentService_listAgents in
        for_of listed (push_interval patch)
      else ret tt) ;;
     ret {| success := true |}).

(** *** onLoad

    The part of [steam.onLoad] that runs when the agent service is
    available.  Constructing the [SteamMonitor] only probes the local file
    system; it touches neither the state nor the agent service and is left
    out. *)
Definition onLoad (loadState : option State) : M World unit :=
  modify (fun _ => default default_state loadState) ;;
  try_catch
    (let* listed := agentService_listAgents in
     for_of listed configureSteamPolicy)
    (fun error => console_error "[Steam Plugin] Error listing agents:" None) ;;
  let* now := date_now in
  emit (EStatusUpdate "ready" "Steam monitoring active" now).

End WithHost.

(** A world with the default state and an empty trace. *)
Definition initial_world : World := {| state := default_state; trace := [] |}.

End Plugin.

(** ** Vocabulary for the statements *)
Module Obs.

(** The record that [handleViolation] builds from an event and a timestamp. *)
Definition violation_record (data : ProcessEvent.t) (ts : Z) : Violation.t :=
  {| Violation.agentId := ProcessEvent.agentId data;
     Violation.processName := ProcessEvent.processName data;
     Violation.timestamp := ts;
     Violation.hostname := ProcessEvent.hostname data |}.

(** The timestamp that [handleViolation] gives a record when it runs after
    the calls [tr]: the event's own, or the clock's when that is missing or
    zero. *)
Definition stamp (host : Host) (tr : list Event) (data : ProcessEvent.t) : Z :=
  match ProcessEvent.timestamp data with
  | Some v => if v =? 0 then Date_now host tr else v
  | None => Date_now host tr
  end.

(** A record carries the fields of an event, whatever its timestamp. *)
Definition records (data : ProcessEvent.t) (v : Violation.t) : Prop :=
  exists ts, v = violation_record data ts.

(** How many messages a trace sends to the renderer on a channel. *)
Fixpoint sent_on (channel : string) (tr : list Event) : nat :=
  match tr with
  | [] => 0
  | ESendToRenderer c _ :: tr' =>
      ((if String.eqb c channel then 1 else 0) + sent_on channel tr')%nat
  | _ :: tr' => sent_on channel tr'
  end.

(** How many activity-log entries a trace writes. *)
Fixpoint activity_entries (tr : list Event) : nat :=
  match tr with
  | [] => 0
  | ELogActivity _ _ _ _ :: tr' => S (activity_entries tr')
  | _ :: tr' => activity_entries tr'
  end.

(** The agents for which a trace issues create-policy calls, in order. *)
Fixpoint created_for (tr : list Event) : list string :=
  match tr with
  | [] => []
  | ECreatePolicy agentId _ :: tr' => agentId :: created_for tr'
  | _ :: tr' => created_for tr'
  end.

(** The create-policy calls of a trace, with their policy objects. *)
Fixpoint created_policies (tr : list Event) : list (string * CreatePolicy.t) :=
  match tr with
  | [] => []
  | ECreatePolicy agentId p :: tr' => (agentId, p) :: created_policies tr'
  | _ :: tr' => created_policies tr'
  end.

(** The agents for which a trace issues update-policy calls, in order. *)
Fixpoint updated_for (tr : list Event) : list string :=
  match tr with
  | [] => []
  | EUpdatePolicy agentId _ :: tr' => agentId :: updated_for tr'
  | _ :: tr' => updated_for tr'
  end.

(** How many error lines a trace writes to the console. *)
Fixpoint console_errors (tr : list Event) : nat :=
  match tr with
  | [] => 0
  | EConsoleError _ _ :: tr' => S (console_errors tr')
  | _ :: tr' => console_errors tr'
  end.

(** The platform tags that the process-name table knows. *)
Definition known_platform (p : string) : Prop :=
  p = "win32" \/ p = "darwin" \/ p = "linux".

End Obs.

(** ** What one run of [handleViolation] does *)
Module ViolationRun.
Import Plugin Obs.

(** Whether [handleViolation] has to read the clock for an event. *)
Definition reads_clock (data : ProcessEvent.t) : bool :=
  match ProcessEvent.timestamp data with
  | Some v => v =? 0
  | None => true
  end.

(** The state after a record went through [unshift] and the cap. *)
Definition logged (v : Violation.t) (s : State) : State :=
  with_violations (fun vs => firstn 100 (v :: vs)) s.

(** The outbound calls of one run, in order. *)
Definition calls (host : Host) (data : ProcessEvent.t) (v : Violation.t)
    (s : State) : list Event :=
  (if reads_clock data then [EDateNow] else []) ++
  (if Settings.notifyParent (settings s) && has_sendToRenderer host
   then [ESendToRenderer "steamViolation" (MsgViolation v)] else []) ++
  (if has_logActivity host
   then [ELogActivity "steam_blocked"
           (String.append "Steam was blocked on " (show (ProcessEvent.hostname data)))
           (Violation.timestamp v) "warning"]
   else []) ++
  [EConfigurationUpdate (logged v s)].

(** The event's process name contains "steam" in some letter case. *)
Definition names_steam (data : ProcessEvent.t) : Prop :=
  exists p, ProcessEvent.processName data = Some p /\ JSString.contains_ci p "steam".

End ViolationRun.

(** ** Vocabulary for policy configuration *)
Module PolicySpec.
Import Plugin.

(** [agent.platform || 'win32'] *)
Definition platform_tag (agent : Agent.t) : string :=
  str_or (Agent.platform agent) "win32".

(** The agent's platform tag is missing, empty, or one of the three that
    the process-name table lists. *)
Definition recognised (agent : Agent.t) : Prop :=
  match Agent.platform agent with
  | None => True
  | Some p => p = "" \/ Obs.known_platform p
  end.

(** What the policy state machine says of a create-policy call whatever
    the platform, under settings [se]: it is blocked and carries the
    configured check interval and the two symbolic actions.  Other
    outbound calls are not constrained. *)
Definition as_described (se : Settings.t) (e : Event) : Prop :=
  match e with
  | ECreatePolicy _ p =>
      CreatePolicy.allowed p = false /\
      CreatePolicy.checkInterval p = Settings.checkInterval se /\
      CreatePolicy.actions_onDetected p = "check-quota" /\
      CreatePolicy.actions_onViolation p =
        (if Settings.killOnViolation se then "kill-process" else "notify-only")
  | _ => True
  end.

(** The process-name list of a platform as the platform process-name
    table documents it, main name first; [None] for a platform that the
    table does not list. *)
Definition documented_names (platform : string) : option (list string) :=
  if String.eqb platform "win32" then
    Some ["Steam.exe"; "steamwebhelper.exe"; "gameoverlayui.exe"]
  else if String.eqb platform "darwin" then
    Some ["steam_osx"; "Steam.app"; "steamwebhelper"]
  else if String.eqb platform "linux" then
    Some ["steam"; "steamwebhelper"; "reaper"]
  else None.

(** A policy object carries the process-name list of the agent's
    platform, main name first: its list is the documented one of the
    agent's platform tag, its process name is the first name of that list,
    and it is labelled with that tag. *)
Definition names_of_platform (agent : Agent.t) (p : CreatePolicy.t) : Prop :=
  exists names,
    documented_names (platform_tag agent) = Some names /\
    CreatePolicy.processAlternatives p = Names names /\
    CreatePolicy.processName p = head names /\
    CreatePolicy.metadata_platform p = platform_tag agent.

(** Every create-policy call of a trace is made for one of the agents
    [among], under that agent's id, and is as described for that agent:
    blocked, with interval and actions by the settings [se], and, when the
    agent's platform tag is recognised, with the names of its platform. *)
Definition calls_described (se : Settings.t) (among : list Agent.t)
    (evs : list Event) : Prop :=
  forall agentId p,
    In (ECreatePolicy agentId p) evs ->
    as_described se (ECreatePolicy agentId p) /\
    exists agent,
      In agent among /\ agentId = Agent.id agent /\
      (recognised agent -> names_of_platform agent p).

(** The agents that [onLoad] goes through: the listed ones, none when the
    listing fails. *)
Definition listed_at_load (host : Host) (w : World) : list Agent.t :=
  match listAgents host (trace w) with
  | Ok listed => listed
  | Throw _ => []
  end.

(** Every stored policy record is blocked. *)
Definition all_blocked (s : State) : Prop :=
  forall agentId pol, policies s !! agentId = Some pol -> Policy.allowed pol = false.

End PolicySpec.

(** ** Vocabulary for authorization updates *)
Module AuthSpec.
Import Plugin.

(** An update-policy call carries the decision for the update [ns];
    other outbound calls are not constrained. *)
Definition decided (ns : Allow2State.t) (e : Event) : Prop :=
  match e with
  | EUpdatePolicy _ u => PolicyUpdate.allowed u = Some (steamAllowed ns)
  | _ => True
  end.

(** The decision in the words of the state machine: not paused and a
    remaining quota above zero. *)
Definition may_run (ns : Allow2State.t) : Prop :=
  Allow2State.paused ns = false /\
  exists q, Allow2State.quota ns = Some q /\ 0 < q.

(** The update blocks in the words of the state machine: paused, or no
    remaining quota above zero. *)
Definition must_block (ns : Allow2State.t) : Prop :=
  Allow2State.paused ns = true \/
  match Allow2State.quota ns with
  | Some q => q <= 0
  | None => True
  end.

(** The entry of agent [k] records the decision [d]. *)
Definition stores (d : bool) (k : string) (s : State) : Prop :=
  exists a, JSObj.get k (agents s) = Some a /\ AgentData.allowed a = Some d.

(** Every agent entry is stored under its own id. *)
Definition keyed_by_id (s : State) : Prop :=
  forall k a, In (k, a) (agents s) -> AgentData.id a = k.

(** The state has an entry for agent [k]. *)
Definition has_entry (k : string) (s : State) : Prop :=
  exists a, JSObj.get k (agents s) = Some a.

End AuthSpec.

(** ** Vocabulary for fan-out *)
Module FanOutSpec.
Import Plugin.

(** The listed agents that have a policy: those for which
    [state.policies[agent.id]] is truthy. *)
Definition targets (s : State) (listed : list Agent.t) : list Agent.t :=
  List.filter (fun a => has_policy s (Agent.id a)) listed.

(** The update-policy calls of a batch: one call with the partial policy
    [u] for each agent of [l], in order. *)
Definition calls (u : PolicyUpdate.t) (l : list Agent.t) : list Event :=
  map (fun a => EUpdatePolicy (Agent.id a) u) l.

(** The agent service accepts every call of the batch to [l] that starts
    after the calls [tr]: each call is answered at the trace of the calls
    made before it. *)
Definition accepted (host : Host) (u : PolicyUpdate.t) (tr : list Event)
    (l : list Agent.t) : Prop :=
  forall l1 a l2,
    l = l1 ++ a :: l2 ->
    updatePolicy host (tr ++ calls u l1) (Agent.id a) u = Ok tt.

(** The batch to [l] fails first at agent [a], after the agents [l1], with
    the error [e]. *)
Definition fails_at (host : Host) (u : PolicyUpdate.t) (tr : list Event)
    (l l1 : list Agent.t) (a : Agent.t) (e : JsError) : Prop :=
  (exists l2, l = l1 ++ a :: l2) /\
  accepted host u tr l1 /\
  updatePolicy host (tr ++ calls u l1) (Agent.id a) u = Throw e.

End FanOutSpec.

(** ** Vocabulary for the link handlers *)
Module LinkSpec.
Import Plugin.

(** The entry that [steam:linkAgent] leaves for an id that had none:
    [{id, childId, enabled: true}]. *)
Definition linked_fresh (agentId childId : string) : AgentData.t :=
  {| AgentData.id := agentId; AgentData.hostname := None;
     AgentData.platform := None; AgentData.enabled := Some true;
     AgentData.childId := Some (Some childId); AgentData.lastSeen := None;
     AgentData.allowed := None; AgentData.lastUpdate := None |}.

(** An entry after [childId = null; enabled = false]. *)
Definition unlinked_entry (a : AgentData.t) : AgentData.t :=
  AgentData.set_enabled false (AgentData.set_childId None a).

(** The writes of [steam:unlinkAgent] that leave the plugin state: those
    for an id that is no entry of the map and names a member of
    [Object.prototype]. *)
Definition unlink_writes (agentId : string) (s : State) : list Event :=
  match JSObj.lookup agentId (agents s) with
  | JSObj.Inherited =>
      [EMemberWrite agentId (SetChildId None);
       EMemberWrite agentId (SetEnabled false)]
  | _ => []
  end.

(** The state that [steam:unlinkAgent] leaves. *)
Definition unlinked (agentId : string) (s : State) : State :=
  match JSObj.get agentId (agents s) with
  | Some a => with_agents (JSObj.set agentId (unlinked_entry a)) s
  | None => s
  end.

End LinkSpec.

(** ** Vocabulary and examples for the parser cache *)
Module CacheSpec.
Import SteamVDFParser.

(** Every cached object was allocated before the next reference. *)
Definition refs_below (p : Parser) : Prop :=
  forall k e, cache p !! k = Some e -> (ref (data e) < next_ref p)%nat.

(** A file system with one file whose content and modification time
    change once three calls have been made, that is, right after a first
    parse. *)
Definition touched_fs : Fs :=
  {| readFileSync := fun tr _ =>
       Ok (if (length tr <? 3)%nat then "old" else "new");
     statSync_mtime := fun tr _ =>
       Ok (if (length tr <? 3)%nat then 5 else 9);
     vdf_parse := fun content => Ok (VObj [("text", VStr content)]) |}.

(** A file system whose one file never changes. *)
Definition still_fs : Fs :=
  {| readFileSync := fun _ _ => Ok "old";
     statSync_mtime := fun _ _ => Ok 5;
     vdf_parse := fun content => Ok (VObj [("text", VStr content)]) |}.

(** What the decoder of the two example file systems returns for the old
    content, as the first object of a new parser. *)
Definition parsed_old : ParsedObj :=
  {| ref := 0; tree := VObj [("text", VStr "old")] |}.

(** The parser after a first parse of the unchanging file. *)
Definition after_first_parse : Parser :=
  snd (parseFile still_fs "localconfig.vdf" true new_parser).

End CacheSpec.

(** ** Concrete hosts and inputs for the examples *)
Module Examples.

(** A host whose agent service knows no agents and never fails, whose
    clock reads 1000, and which offers both optional callbacks. *)
Definition quiet_host : Host :=
  {| listAgents := fun _ => Ok [];
     getAgent := fun _ _ => Ok None;
     createPolicy := fun _ _ _ => Ok tt;
     updatePolicy := fun _ _ _ => Ok tt;
     Date_now := fun _ => 1000;
     has_sendToRenderer := true;
     has_logActivity := true |}.

(** [{agentId: "A1", processName: "Steam.exe", hostname: "h1"}] *)
Definition steam_event : ProcessEvent.t :=
  {| ProcessEvent.agentId := "A1";
     ProcessEvent.processName := Some "Steam.exe";
     ProcessEvent.timestamp := None;
     ProcessEvent.hostname := Some "h1" |}.

(** An agent that reports a platform outside the table:
    [{id: "A1", hostname: "h1", platform: "freebsd"}]. *)
Definition freebsd_agent : Agent.t :=
  {| Agent.id := "A1"; Agent.hostname := Some "h1";
     Agent.platform := Some "freebsd"; Agent.online := true |}.

(** An agent whose platform tag names a member of [Object.prototype]:
    [{id: "A1", hostname: "h1", platform: "constructor"}]. *)
Definition constructor_agent : Agent.t :=
  {| Agent.id := "A1"; Agent.hostname := Some "h1";
     Agent.platform := Some "constructor"; Agent.online := true |}.

(** An agent service that knows every agent by the id it is asked for and
    accepts every call. *)
Definition responsive_host : Host :=
  {| listAgents := fun _ => Ok [];
     getAgent := fun _ k =>
       Ok (Some {| Agent.id := k; Agent.hostname := Some "h1";
                   Agent.platform := Some "win32"; Agent.online := true |});
     createPolicy := fun _ _ _ => Ok tt;
     updatePolicy := fun _ _ _ => Ok tt;
     Date_now := fun _ => 1000;
     has_sendToRenderer := true;
     has_logActivity := true |}.

(** Agent [A1], discovered and then linked to subject [S1]. *)
Definition linked_entry : AgentData.t :=
  {| AgentData.id := "A1"; AgentData.hostname := Some "h1";
     AgentData.platform := Some "win32"; AgentData.enabled := Some true;
     AgentData.childId := Some (Some "S1"); AgentData.lastSeen := Some 900;
     AgentData.allowed := None; AgentData.lastUpdate := None |}.

(** A plugin that holds that entry and a registered policy for [A1]. *)
Definition linked_world : World :=
  {| state :=
       {| agents := [("A1", linked_entry)];
          children := ∅;
          policies := {[ "A1" :=
            {| Policy.processName := Some "Steam.exe";
               Policy.alternativeProcesses :=
                 Names ["Steam.exe"; "steamwebhelper.exe"; "gameoverlayui.exe"];
               Policy.allowed := false;
               Policy.checkInterval := 30000;
               Policy.createdAt := 900 |} ]};
          violations := [];
          settings := settings default_state;
          lastSync := None |};
     trace := [] |}.

(** [{paused: false, quota: 10}] *)
Definition quota_left : Allow2State.t :=
  {| Allow2State.paused := false; Allow2State.quota := Some 10 |}.

(** [{paused: true}] *)
Definition paused_now : Allow2State.t :=
  {| Allow2State.paused := true; Allow2State.quota := None |}.

(** [{id: "M1", hostname: "mac", platform: "darwin"}] *)
Definition mac_agent : Agent.t :=
  {| Agent.id := "M1"; Agent.hostname := Some "mac";
     Agent.platform := Some "darwin"; Agent.online := true |}.

(** A plugin whose settings were changed to a 45 s interval without
    kill-on-violation. *)
Definition lenient_world : World :=
  {| state :=
       {| agents := []; children := ∅; policies := ∅; violations := [];
          settings := {| Settings.checkInterval := 45000;
                         Settings.killOnViolation := false;
                         Settings.notifyParent := true |};
          lastSync := None |};
     trace := [] |}.

Definition pc1 : Agent.t :=
  {| Agent.id := "A1"; Agent.hostname := Some "h1";
     Agent.platform := Some "win32"; Agent.online := true |}.

Definition pc2 : Agent.t :=
  {| Agent.id := "A2"; Agent.hostname := Some "h2";
     Agent.platform := Some "linux"; Agent.online := true |}.

(** Two agents are listed; [A1] accepts the creation of a policy but
    rejects every update. *)
Definition half_down_host : Host :=
  {| listAgents := fun _ => Ok [pc1; pc2];
     getAgent := fun _ _ => Ok None;
     createPolicy := fun _ _ _ => Ok tt;
     updatePolicy := fun _ k _ =>
       if String.eqb k "A1" then Throw (ServiceError "agent offline") else Ok tt;
     Date_now := fun _ => 1000;
     has_sendToRenderer := true;
     has_logActivity := true |}.

(** Two agents are listed; [A1] rejects the creation of a policy. *)
Definition flaky_create_host : Host :=
  {| listAgents := fun _ => Ok [pc1; pc2];
     getAgent := fun _ _ => Ok None;
     createPolicy := fun _ k _ =>
       if String.eqb k "A1" then Throw (ServiceError "agent offline") else Ok tt;
     updatePolicy := fun _ _ _ => Ok tt;
     Date_now := fun _ => 1000;
     has_sendToRenderer := true;
     has_logActivity := true |}.

(** The agent with the unknown platform is listed first, then [A2]; every
    call is accepted. *)
Definition mixed_host : Host :=
  {| listAgents := fun _ => Ok [freebsd_agent; pc2];
     getAgent := fun _ _ => Ok None;
     createPolicy := fun _ _ _ => Ok tt;
     updatePolicy := fun _ _ _ => Ok tt;
     Date_now := fun _ => 1000;
     has_sendToRenderer := true;
     has_logActivity := true |}.


(** The plugin after [onLoad] on the host where [A1] rejects updates: both
    agents have a registered policy. *)
Definition loaded_world : World :=
  snd (Plugin.onLoad half_down_host None Plugin.initial_world).

End Examples.

(** ** The rest of the plugin: queries, the renderer's list and the
    lifecycle entry points *)
Module PluginMore.
Import Plugin.

(** A row of the list that [steam:getAgents] returns.  [childId] and
    [enabled] are [None] when [state.agents[a.id]?.field] is [undefined]. *)
Module AgentRow.
Record t : Type := {
  id : string;
  hostname : option string;
  platform : option string;
  online : bool;
  childId : option (option string);
  enabled : option bool
}.
End AgentRow.

(** The result of [steam:getStatus]. *)
Module Status.
Record t : Type := {
  agentCount : nat;
  activeAgents : nat;
  monitoredChildren : nat;
  recentViolations : list Violation.t;
  settings : Settings.t;
  lastSync : option Z
}.
End Status.

(** [state.agents[k]?.childId] *)
Definition shown_childId (w : World) (k : string) : option (option string) :=
  match JSObj.lookup k (agents (state w)) with
  | JSObj.Own e => AgentData.childId e
  | JSObj.Inherited => member_field written_childId k (trace w)
  | JSObj.Missing => None
  end.

(** [state.agents[k]?.enabled] *)
Definition shown_enabled (w : World) (k : string) : option bool :=
  match JSObj.lookup k (agents (state w)) with
  | JSObj.Own e => AgentData.enabled e
  | JSObj.Inherited => member_field written_enabled k (trace w)
  | JSObj.Missing => None
  end.


(** The truthiness of [a.childId]: a non-empty string. *)
Definition has_child (a : AgentData.t) : bool :=
  match AgentData.childId a with
  | Some (Some c) => JSString.truthy c
  | _ => false
  end.

Section WithHost.
Variable host : Host.


(** [steam:getStatus] *)
Definition getStatus : M World (IpcResult Status.t) :=
  ipc_handler
    (let* listed := agentService_listAgents host in
     let* s := get_state in
     ret {| Status.agentCount := length listed;
            Status.activeAgents := length (List.filter Agent.online listed);
            Status.monitoredChildren :=
              length (List.filter has_child (JSObj.values (agents s)));
            Status.recentViolations := JSArray.slice (violations s) 0 10;
            Status.settings := settings s;
            Status.lastSync := lastSync s |}).

(** The body of the loop in [steam.onSetEnabled(false)]. *)
Definition disable_policy (agent : Agent.t) : M World unit :=
  let* s := get_state in
  if has_policy s (Agent.id agent) then
    agentService_updatePolicy host (Agent.id agent)
      {| PolicyUpdate.processName := None;
         PolicyUpdate.allowed := None;
         PolicyUpdate.checkInterval := None;
         PolicyUpdate.enabled := Some false |}
  else ret tt.

(** [steam.onSetEnabled] *)
Definition onSetEnabled (enabled : bool) : M World unit :=
  (if enabled then
     let* now := date_now host in
     emit (EStatusUpdate "active" "Steam monitoring active" now)
   else
     try_catch
       (let* listed := agentService_listAgents host in
        for_of listed disable_policy)
       (fun error => console_error "[Steam Plugin] Error disabling policies:" None) ;;
     let* now := date_now host in
     emit (EStatusUpdate "inactive" "Steam monitoring paused" now)) ;;
  configurationUpdate.

End WithHost.

(** [steam.newState] *)
Definition newState (s : State) : M World unit := modify (fun _ => s).

(** The renderer's [handleViolation]:
    [violations: [data, ...prevState.violations].slice(0, 50)] on the
    component's list. *)
Definition view_handleViolation (data : Violation.t) (shown : list Violation.t)
  : list Violation.t :=
  JSArray.slice (data :: shown) 0 50.

End PluginMore.

(** ** Vocabulary for the further properties of the plugin *)
Module MoreSpec.
Import Plugin.

(** The keys of the agents object are distinct, as the own keys of a
    JavaScript object are. *)
Definition unique_keys (s : State) : Prop := List.NoDup (map fst (agents s)).

(** No entry is linked to the subject. *)
Definition nobody_linked (childId : string) (s : State) : Prop :=
  forall k a, In (k, a) (agents s) -> AgentData.childId a <> Some (Some childId).

(** The agent service answers a lookup, when it answers with a record,
    with the record of the agent asked for. *)
Definition answers_for_id (host : Host) : Prop :=
  forall tr k ag, getAgent host tr k = Ok (Some ag) -> Agent.id ag = k.

(** An entry as [steam:linkAgent] leaves it. *)
Definition linked_entry (childId : string) (a : AgentData.t) : AgentData.t :=
  AgentData.set_enabled true (AgentData.set_childId (Some childId) a).


(** An outbound call is not a lookup or an update of agent [k]. *)
Definition not_about (k : string) (e : Event) : Prop :=
  match e with
  | EGetAgent k' => k' <> k
  | EUpdatePolicy k' _ => k' <> k
  | _ => True
  end.

(** An outbound call, if it updates a policy, carries nothing but the
    field [u], and it does not create a policy. *)
Definition updates_only (u : PolicyUpdate.t) (e : Event) : Prop :=
  match e with
  | EUpdatePolicy _ u' => u' = u
  | ECreatePolicy _ _ => False
  | _ => True
  end.

(** [{checkInterval: settings.checkInterval}] *)
Definition interval_update (patch : SettingsPatch.t) : PolicyUpdate.t :=
  {| PolicyUpdate.processName := None;
     PolicyUpdate.allowed := None;
     PolicyUpdate.checkInterval := SettingsPatch.checkInterval patch;
     PolicyUpdate.enabled := None |}.

(** [{enabled: false}] *)
Definition disable_update : PolicyUpdate.t :=
  {| PolicyUpdate.processName := None;
     PolicyUpdate.allowed := None;
     PolicyUpdate.checkInterval := None;
     PolicyUpdate.enabled := Some false |}.

(** [{killOnViolation: false}] *)
Definition no_kill : SettingsPatch.t :=
  {| SettingsPatch.checkInterval := None;
     SettingsPatch.killOnViolation := Some false;
     SettingsPatch.notifyParent := None |}.

(** An outbound call goes to the agent service. *)
Definition to_agent_service (e : Event) : bool :=
  match e with
  | EListAgents | EGetAgent _ | ECreatePolicy _ _ | EUpdatePolicy _ _ => true
  | _ => false
  end.

(** A plugin that holds [A1] linked to [S1] and [A2] linked to [S2]. *)
Definition two_children_world : World :=
  {| state :=
       with_agents
         (fun _ => [("A1", Examples.linked_entry);
                    ("A2", linked_entry "S2" (AgentData.fresh "A2"))])
         default_state;
     trace := [] |}.

(** An entry of [A1] that is linked to [S1] and was allowed by an earlier
    update. *)
Definition allowed_entry : AgentData.t :=
  AgentData.set_allowed true Examples.linked_entry.

(** A plugin that holds that entry only. *)
Definition allowed_world : World :=
  {| state := with_agents (fun _ => [("A1", allowed_entry)]) default_state;
     trace := [] |}.

End MoreSpec.

(** ** Vocabulary for the status and agent views *)
Module StatusSpec.
Import Plugin PluginMore.

(** An entry of the agents object that is linked to a subject and is not
    the entry of agent [k]. *)
Definition linked_elsewhere (k : string) (p : string * AgentData.t) : bool :=
  has_child (snd p) && negb (String.eqb (fst p) k).

(** An entry of the agents object that is linked to a subject. *)
Definition linked_pair (p : string * AgentData.t) : bool := has_child (snd p).

(** Two agents linked to the same subject [S1]. *)
Definition shared_child_world : World :=
  {| state :=
       with_agents
         (fun _ => [("A1", Examples.linked_entry);
                    ("A2", MoreSpec.linked_entry "S1" (AgentData.fresh "A2"))])
         default_state;
     trace := [] |}.

End StatusSpec.

(** ** SteamVDFParser: the accessors, the manifest scan and the watcher *)
Module VdfReader.
Import SteamVDFParser.

(** [s.endsWith(p)] *)
Fixpoint endsWith (s p : string) : bool :=
  String.eqb s p ||
  match s with
  | EmptyString => false
  | String _ s' => endsWith s' p
  end.

(** [v.k] on a value of the decoded tree, for the property names read in
    this class, none of which a string has: [None] is [undefined]. *)
Definition prop (k : string) (v : option Vdf) : option Vdf :=
  match v with
  | Some (VObj props) => JSObj.get k props
  | _ => None
  end.

(** Truthiness: [undefined] and the empty string are falsy, an object is
    truthy. *)
Definition truthy (v : option Vdf) : bool :=
  match v with
  | Some (VStr s) => JSString.truthy s
  | Some (VObj _) => true
  | None => false
  end.

(** [v || null]; [None] is [null] in a result. *)
Definition or_null (v : option Vdf) : option Vdf := if truthy v then v else None.

(** An element of the array that [getInstalledGames] returns. *)
Record Game : Type := {
  appId : option Vdf;
  name : option Vdf;
  installDir : option Vdf;
  lastUpdated : option Vdf;
  sizeOnDisk : option Vdf
}.

(** What happens outside the parser's own calls: a directory listing, a
    console line of an accessor, a call of the watcher's callback. *)
Inductive Note : Type :=
  | NReaddir (path : string)
  | NConsoleError (msg : string) (file : option string)
  | NCallback (data : ParsedObj).

(** The directory listing, [path.join] and the callback given to
    [watchFile] are not part of this class; the listing answers from the
    parser's calls so far, the callback may throw. *)
Record Env : Type := {
  readdirSync : list FsEvent -> string -> Outcome (list string);
  path_join : string -> string -> string;
  callback : ParsedObj -> Outcome unit
}.

Record Reader : Type := { parser : Parser; notes : list Note }.

Section WithFs.
Variable fs : Fs.
Variable env : Env.

(** A method of the parser, run on [this]. *)
Definition lift {A} (c : M Parser A) : M Reader A :=
  fun r => let (o, p') := c (parser r) in (o, {| parser := p'; notes := notes r |}).

Definition note (n : Note) : M Reader unit :=
  fun r => (Ok tt, {| parser := parser r; notes := notes r ++ [n] |}).

(** [getParentalSettings] *)
Definition getParentalSettings (filePath : string) : M Reader (option Vdf) :=
  try_catch
    (let* config := lift (parseFile fs filePath true) in
     let userConfig := prop "UserLocalConfigStore" (Some (tree config)) in
     if negb (truthy userConfig) then ret None
     else ret (or_null (prop "parental" userConfig)))
    (fun error =>
       note (NConsoleError "[SteamVDFParser] Error getting parental settings:" None) ;;
       ret None).

(** [getPersonaName] *)
Definition getPersonaName (filePath : string) : M Reader (option Vdf) :=
  try_catch
    (let* config := lift (parseFile fs filePath true) in
     let userConfig := prop "UserLocalConfigStore" (Some (tree config)) in
     if negb (truthy userConfig) || negb (truthy (prop "friends" userConfig))
     then ret None
     else ret (or_null (prop "PersonaName" (prop "friends" userConfig))))
    (fun error =>
       note (NConsoleError "[SteamVDFParser] Error getting persona name:" None) ;;
       ret None).

(** [f => f.startsWith('appmanifest_') && f.endsWith('.acf')] *)
Definition is_manifest (f : string) : bool :=
  JSString.startsWith f "appmanifest_" && endsWith f ".acf".

(** The object pushed for a manifest with an [AppState]. *)
Definition game_of (manifest : ParsedObj) : Game :=
  let app := prop "AppState" (Some (tree manifest)) in
  {| appId := prop "appid" app;
     name := prop "name" app;
     installDir := prop "installdir" app;
     lastUpdated := prop "LastUpdated" app;
     sizeOnDisk := prop "SizeOnDisk" app |}.

(** One round of the loop over the manifest files; [games] is the array
    so far. *)
Definition scan_manifest (steamappsPath file : string) (games : list Game)
  : M Reader (list Game) :=
  try_catch
    (let filePath := path_join env steamappsPath file in
     let* manifest := lift (parseFile fs filePath false) in
     if truthy (prop "AppState" (Some (tree manifest)))
     then ret (games ++ [game_of manifest])
     else ret games)
    (fun error =>
       note (NConsoleError "[SteamVDFParser] Error parsing manifest:" (Some file)) ;;
       ret games).

Fixpoint scan_manifests (steamappsPath : string) (files : list string)
    (games : list Game) : M Reader (list Game) :=
  match files with
  | [] => ret games
  | file :: rest =>
      let* games' := scan_manifest steamappsPath file games in
      scan_manifests steamappsPath rest games'
  end.

(** [fs.readdirSync(steamappsPath)] *)
Definition readdir (path : string) : M Reader (list string) :=
  fun r => (readdirSync env (fs_trace (parser r)) path,
            {| parser := parser r; notes := notes r ++ [NReaddir path] |}).

(** [getInstalledGames] *)
Definition getInstalledGames (steamappsPath : string) : M Reader (list Game) :=
  try_catch
    (let* files := readdir steamappsPath in
     let manifestFiles := List.filter is_manifest files in
     scan_manifests steamappsPath manifestFiles [])
    (fun error =>
       note (NConsoleError "[SteamVDFParser] Error getting installed games:" None) ;;
       ret []).

(** [callback(data)] *)
Definition call_back (d : ParsedObj) : M Reader unit :=
  fun r => (callback env d,
            {| parser := parser r; notes := notes r ++ [NCallback d] |}).

(** The listener that [watchFile] registers with [fs.watch]. *)
Definition on_watch_event (filePath eventType : string) : M Reader unit :=
  if String.eqb eventType "change" then
    try_catch
      (lift (clearCacheForFile filePath) ;;
       let* d := lift (parseFile fs filePath true) in
       call_back d)
      (fun error =>
         note (NConsoleError "[SteamVDFParser] Error in watch callback:" None))
  else ret tt.

End WithFs.

(** A reader around a new parser. *)
Definition new_reader : Reader := {| parser := new_parser; notes := [] |}.

End VdfReader.

(** ** Vocabulary for the properties of the reader *)
Module ReaderSpec.
Import SteamVDFParser VdfReader.

(** The console lines that the accessors wrote. *)
Definition error_notes (ns : list Note) : list Note :=
  List.filter (fun n => match n with NConsoleError _ _ => true | _ => false end) ns.

(** The objects handed to the watcher's callback. *)
Definition delivered (ns : list Note) : list ParsedObj :=
  flat_map (fun n => match n with NCallback d => [d] | _ => [] end) ns.

(** The paths that were read. *)
Definition reads (tr : list FsEvent) : list string :=
  flat_map (fun e => match e with EReadFile p => [p] | _ => [] end) tr.

(** The console lines that [parseFile] wrote. *)
Definition parse_errors (tr : list FsEvent) : list string :=
  flat_map (fun e => match e with EConsoleError _ p => [p] | _ => [] end) tr.

(** What one manifest contributes to the scan of [getInstalledGames]: a
    game, nothing when it has no [AppState], or a failed parse. *)
Inductive Scanned : Type :=
  | Pushed (g : Game)
  | Skipped
  | Failed.

(** The contribution of a manifest by what [parseFile] answered for it. *)
Definition outcome_of (parsed : Outcome ParsedObj) : Scanned :=
  match parsed with
  | Ok manifest =>
      if truthy (prop "AppState" (Some (tree manifest)))
      then Pushed (game_of manifest)
      else Skipped
  | Throw _ => Failed
  end.

(** The contributions of the files of a directory, each parsed without
    the cache by the parser that the parses before it left. *)
Fixpoint outcomes (fs : Fs) (env : Env) (dir : string) (files : list string)
    (p : Parser) : list Scanned :=
  match files with
  | [] => []
  | file :: rest =>
      let run := parseFile fs (path_join env dir file) false p in
      outcome_of (fst run) :: outcomes fs env dir rest (snd run)
  end.

(** The games among the contributions, in order. *)
Definition pushed (os : list Scanned) : list Game :=
  flat_map (fun o => match o with Pushed g => [g] | _ => [] end) os.

(** The files whose parse failed, in order. *)
Fixpoint failed_files (files : list string) (os : list Scanned) : list string :=
  match files, os with
  | file :: files', o :: os' =>
      match o with Failed => [file] | _ => [] end ++ failed_files files' os'
  | _, _ => []
  end.

(** The console line of the scan for a manifest that failed to parse. *)
Definition manifest_line (file : string) : Note :=
  NConsoleError "[SteamVDFParser] Error parsing manifest:" (Some file).

(** A file system on which every read fails. *)
Definition broken_fs : Fs :=
  {| readFileSync := fun _ _ => Throw (ServiceError "ENOENT");
     statSync_mtime := fun _ _ => Throw (ServiceError "ENOENT");
     vdf_parse := fun content => Ok (VObj []) |}.

(** A file system whose files can be listed and read until the first
    parse is done and are gone afterwards. *)
Definition vanishing_fs : Fs :=
  {| readFileSync := fun tr _ =>
       if (length tr <? 3)%nat then Ok "old" else Throw (ServiceError "ENOENT");
     statSync_mtime := fun tr _ =>
       if (length tr <? 3)%nat then Ok 5 else Throw (ServiceError "ENOENT");
     vdf_parse := fun content => Ok (VObj [("text", VStr content)]) |}.

(** A steamapps directory with two manifests, of which the second cannot
    be decoded, and another file. *)
Definition library_fs : Fs :=
  {| readFileSync := fun _ p => Ok p;
     statSync_mtime := fun _ _ => Ok 5;
     vdf_parse := fun content =>
       if String.eqb content "apps/appmanifest_10.acf"
       then Ok (VObj [("AppState",
                       VObj [("appid", VStr "10"); ("name", VStr "Counter-Strike")])])
       else Throw (ServiceError "bad vdf") |}.

(** The parser after a first parse on that file system, and after a
    second parse, which finds the file gone. *)
Definition parsed_once : Parser :=
  snd (parseFile vanishing_fs "localconfig.vdf" true new_parser).

Definition parsed_then_gone : Parser :=
  {| cache := cache parsed_once;
     next_ref := 1;
     fs_trace := [EReadFile "localconfig.vdf"; EDecode "old";
                  EStat "localconfig.vdf"; EStat "localconfig.vdf"] |}.

Definition library_env : Env :=
  {| readdirSync := fun _ _ =>
       Ok ["appmanifest_10.acf"; "libraryfolders.vdf"; "appmanifest_20.acf"];
     path_join := fun d f => d +:+ "/" +:+ f;
     callback := fun _ => Ok tt |}.

End ReaderSpec.

(** ** SteamMonitor: where Steam keeps its files *)
Module SteamPaths.

(** [this.steamPaths]; [None] is [null]. *)
Record Paths : Type := {
  config : option string;
  userdata : option string;
  steamapps : option string
}.

(** A [fs.Dirent]. *)
Record Dirent : Type := { name : string; isDirectory : bool }.

(** An element of the array that [getSteamUserDirectories] returns. *)
Record UserDir : Type := { steamId3 : string; path : string }.

(** The machine as one call finds it: [os.platform()], the environment
    variable [ProgramFiles(x86)], [os.homedir()], [fs.existsSync],
    [fs.readdirSync(_, {withFileTypes: true})] and [path.join]. *)
Record Os : Type := {
  platform : string;
  ProgramFiles_x86 : option string;
  homedir : Outcome string;
  existsSync : string -> bool;
  readdirSync : string -> Outcome (list Dirent);
  path_join : list string -> string
}.

Inductive ConsoleLine : Type :=
  | Log (msg : string) (arg : string)
  | Warn (msg : string)
  | Error (msg : string).

Definition no_paths : Paths := {| config := None; userdata := None; steamapps := None |}.

(** The three assignments that every platform branch makes. *)
Definition under (os : Os) (steamBase : string) : Paths :=
  {| config := Some (path_join os [steamBase; "config"]);
     userdata := Some (path_join os [steamBase; "userdata"]);
     steamapps := Some (path_join os [steamBase; "steamapps"]) |}.

(** The platform branches of [detectSteamPaths]. *)
Definition expected_paths (os : Os) : Outcome Paths :=
  if String.eqb (platform os) "win32" then
    let programFiles :=
      Plugin.str_or (ProgramFiles_x86 os) "C:\Program Files (x86)" in
    Ok (under os (path_join os [programFiles; "Steam"]))
  else if String.eqb (platform os) "darwin" then
    match homedir os with
    | Ok homeDir =>
        Ok (under os (path_join os [homeDir; "Library"; "Application Support"; "Steam"]))
    | Throw e => Throw e
    end
  else if String.eqb (platform os) "linux" then
    match homedir os with
    | Ok homeDir => Ok (under os (path_join os [homeDir; ".steam"; "steam"]))
    | Throw e => Throw e
    end
  else Ok no_paths.

(** [detectSteamPaths()]: the paths and what is written to the console. *)
Definition detectSteamPaths (os : Os) : Paths * list ConsoleLine :=
  match expected_paths os with
  | Ok paths =>
      match config paths with
      | Some c =>
          if JSString.truthy c && existsSync os c
          then (paths, [Log "[SteamMonitor] Steam installation detected:" c])
          else ({| config := None; userdata := userdata paths;
                   steamapps := steamapps paths |},
                [Warn "[SteamMonitor] Steam installation not found at expected location"])
      | None =>
          ({| config := None; userdata := userdata paths;
              steamapps := steamapps paths |},
           [Warn "[SteamMonitor] Steam installation not found at expected location"])
      end
  | Throw _ => (no_paths, [Error "[SteamMonitor] Error detecting Steam paths:"])
  end.

Definition is_digit (c : ascii) : bool :=
  (48 <=? nat_of_ascii c)%nat && (nat_of_ascii c <=? 57)%nat.

Fixpoint all_digits (s : string) : bool :=
  match s with
  | EmptyString => true
  | String c s' => is_digit c && all_digits s'
  end.

(** [/^\d+$/.test(s)] *)
Definition numeric (s : string) : bool := JSString.truthy s && all_digits s.

(** [getSteamUserDirectories()] *)
Definition getSteamUserDirectories (steamPaths : Paths) (os : Os)
  : list UserDir * list ConsoleLine :=
  match userdata steamPaths with
  | Some u =>
      if JSString.truthy u && existsSync os u then
        match readdirSync os u with
        | Ok entries =>
            (map (fun entry => {| steamId3 := name entry;
                                  path := path_join os [u; name entry] |})
               (List.filter (fun entry => numeric (name entry))
                  (List.filter isDirectory entries)),
             [])
        | Throw _ => ([], [Error "[SteamMonitor] Error reading userdata directory:"])
        end
      else ([], [])
  | None => ([], [])
  end.

(** [getVDFConfigPath(steamId3)] *)
Definition getVDFConfigPath (steamPaths : Paths) (os : Os) (steamId3 : string)
  : option string :=
  match userdata steamPaths with
  | Some u =>
      if JSString.truthy u
      then Some (path_join os [u; steamId3; "config"; "localconfig.vdf"])
      else None
  | None => None
  end.

(** Joining with [/]; as [path.join] does, it answers [.] rather than
    the empty string. *)
Definition slash_join (parts : list string) : string :=
  let s := String.concat "/" parts in
  if JSString.truthy s then s else ".".

(** A Linux machine without Steam: nothing exists under the home
    directory. *)
Definition bare_linux : Os :=
  {| platform := "linux";
     ProgramFiles_x86 := None;
     homedir := Ok "/home/kim";
     existsSync := fun _ => false;
     readdirSync := fun _ => Throw (ServiceError "ENOENT");
     path_join := slash_join |}.

(** The same machine after Steam was installed and two accounts were
    used; the userdata directory also holds a file and a directory that is
    not an account. *)
Definition steam_linux : Os :=
  {| platform := "linux";
     ProgramFiles_x86 := None;
     homedir := Ok "/home/kim";
     existsSync := fun _ => true;
     readdirSync := fun _ =>
       Ok [{| name := "12345"; isDirectory := true |};
           {| name := "ac"; isDirectory := true |};
           {| name := "777"; isDirectory := false |};
           {| name := "99"; isDirectory := true |}];
     path_join := slash_join |}.

End SteamPaths.

(** ** SteamStatus: the status line of the dashboard *)
Module SteamStatus.
Import Plugin PluginMore.

Inductive Icon : Type := WarningIcon | BlockIcon | CheckCircleIcon | ComputerIcon.

(** What a template literal prints for a count. *)
Definition show_nat (n : nat) : string := NilZero.string_of_uint (Nat.to_uint n).

(** What a template literal prints for an integer, in the range where
    JavaScript prints all digits. *)
Definition show_Z (z : Z) : string := NilZero.string_of_int (Z.to_int z).

(** [getStatusIcon()], for [this.state.status]; [None] is [null]. *)
Definition getStatusIcon (status : option Status.t) : Icon :=
  match status with
  | None => WarningIcon
  | Some status =>
      if (0 <? length (Status.recentViolations status))%nat then BlockIcon
      else if (0 <? Status.activeAgents status)%nat then CheckCircleIcon
      else ComputerIcon
  end.

(** [getStatusText()] *)
Definition getStatusText (status : option Status.t) : string :=
  match status with
  | None => "Loading..."
  | Some status =>
      if (0 <? length (Status.recentViolations status))%nat then
        show_nat (length (Status.recentViolations status)) +:+ " recent violations"
      else if (Status.activeAgents status =? 0)%nat then "No agents online"
      else if (Status.monitoredChildren status =? 0)%nat then "No children linked"
      else "Monitoring " +:+ show_nat (Status.monitoredChildren status) +:+ " " +:+
           (if (Status.monitoredChildren status =? 1)%nat then "child" else "children")
  end.

(** [formatTimestamp(timestamp)], given what [Date.now()] returns and how
    the locale prints a date. *)
Definition formatTimestamp (now : Z) (toLocaleDateString : Z -> string)
    (timestamp : Z) : string :=
  let diff := now - timestamp in
  if diff <? 60000 then "Just now"
  else if diff <? 3600000 then show_Z (diff / 60000) +:+ "m ago"
  else if diff <? 86400000 then show_Z (diff / 3600000) +:+ "h ago"
  else toLocaleDateString timestamp.

(** The violations that the full card lists:
    [status.recentViolations.slice(0, 3)]. *)
Definition listed_violations (status : Status.t) : list Violation.t :=
  JSArray.slice (Status.recentViolations status) 0 3.

End SteamStatus.

(** * Properties *)

(** ** Objects and arrays *)
Module JSObjFacts.
Import JSObj.

Section WithValue.
Context {V : Type}.
Implicit Types (o : list (string * V)) (k : string) (v : V).

Lemma get_set_eq o k v : get k (set k v o) = Some v.
Proof.
  induction o as [|[k' v'] o IH]; simpl.
  - now rewrite String.eqb_refl.
  - destruct (String.eqb k k') eqn:E; simpl; rewrite ?String.eqb_refl, ?E; auto.
Qed.

Lemma get_set_ne o k k' v : k <> k' -> get k' (set k v o) = get k' o.
Proof.
  intros Hne. induction o as [|[k0 v0] o IH]; simpl.
  - destruct (String.eqb k' k) eqn:E; auto.
    apply String.eqb_eq in E. congruence.
  - destruct (String.eqb k k0) eqn:E; simpl.
    + apply String.eqb_eq in E. subst k0.
      destruct (String.eqb k' k) eqn:E'; auto.
      apply String.eqb_eq in E'. congruence.
    + now rewrite IH.
Qed.

Lemma set_set_eq o k v1 v2 : set k v2 (set k v1 o) = set k v2 o.
Proof.
  induction o as [|[k' v'] o IH]; simpl.
  - now rewrite String.eqb_refl.
  - destruct (String.eqb k k') eqn:E; simpl; rewrite ?String.eqb_refl, ?E; auto.
    now rewrite IH.
Qed.

Lemma lookup_Own o k v : lookup k o = Own v <-> get k o = Some v.
Proof.
  unfold lookup. destruct (get k o) as [x|].
  - split; intros [= ->]; reflexivity.
  - destruct (ObjectPrototype.has k); split; discriminate.
Qed.

Lemma lookup_get_Some o k v : get k o = Some v -> lookup k o = Own v.
Proof. apply lookup_Own. Qed.

Lemma lookup_not_Own o k : get k o = None -> forall v, lookup k o <> Own v.
Proof. intros H v Hl. apply lookup_Own in Hl. congruence. Qed.

Lemma lookup_Inherited o k :
  lookup k o = Inherited <-> get k o = None /\ ObjectPrototype.has k = true.
Proof.
  unfold lookup. destruct (get k o) as [x|].
  - split; [discriminate | intros [? _]; discriminate].
  - destruct (ObjectPrototype.has k); split; auto; try discriminate.
    intros [_ ?]; discriminate.
Qed.

Lemma lookup_Missing o k :
  lookup k o = Missing <-> get k o = None /\ ObjectPrototype.has k = false.
Proof.
  unfold lookup. destruct (get k o) as [x|].
  - split; [discriminate | intros [? _]; discriminate].
  - destruct (ObjectPrototype.has k); split; auto; try discriminate.
    intros [_ ?]; discriminate.
Qed.

Lemma lookup_set_eq o k v : lookup k (set k v o) = Own v.
Proof. apply lookup_Own, get_set_eq. Qed.


Lemma get_Some_In o k v : get k o = Some v -> In (k, v) o.
Proof.
  induction o as [|[k' v'] o IH]; simpl; [discriminate|].
  destruct (String.eqb k k') eqn:E.
  - apply String.eqb_eq in E. intros [= ->]. left. now subst.
  - auto.
Qed.

Lemma In_insert_index n v (l : list (N * V)) x :
  In x (insert_index n v l) <-> x = (n, v) \/ In x l.
Proof.
  induction l as [|[m w] l IH]; simpl.
  - intuition.
  - destruct (n <? m)%N; simpl; rewrite ?IH; intuition.
Qed.

Lemma In_index_props o v :
  In v (map snd (index_props o)) <->
  exists k n, In (k, v) o /\ array_index k = Some n.
Proof.
  induction o as [|[k' v'] o IH]; simpl.
  - split; [tauto | intros (k & n & [] & _)].
  - destruct (array_index k') as [n|] eqn:E.
    + rewrite in_map_iff. split.
      * intros ([m x] & Hx & Hin). simpl in Hx. subst x.
        apply In_insert_index in Hin as [Heq|Hin].
        -- injection Heq as -> ->. exists k', n. auto.
        -- assert (Hm : In v (map snd (index_props o)))
             by (apply in_map_iff; exists (m, v); auto).
           apply IH in Hm as (k & n' & Hk & Hn). exists k, n'. auto.
      * intros (k & n' & [Heq|Hin] & Hn).
        -- injection Heq as -> ->. exists (n, v). split; auto.
           apply In_insert_index. auto.
        -- assert (Hm : In v (map snd (index_props o))) by (apply IH; eauto).
           apply in_map_iff in Hm as ([m x] & Hx & Hi). simpl in Hx. subst x.
           exists (m, v). split; auto. apply In_insert_index. auto.
    + rewrite IH. split.
      * intros (k & n & Hk & Hn). exists k, n. auto.
      * intros (k & n & [Heq|Hin] & Hn); [|eauto].
        injection Heq as -> ->. congruence.
Qed.

Lemma In_named_props o v :
  In v (named_props o) <-> exists k, In (k, v) o /\ array_index k = None.
Proof.
  induction o as [|[k' v'] o IH]; simpl.
  - split; [tauto | intros (k & [] & _)].
  - destruct (array_index k') as [n|] eqn:E; simpl; rewrite IH.
    + split.
      * intros (k & Hk & Hn). eauto.
      * intros (k & [Heq|Hin] & Hn); [|eauto].
        injection Heq as -> ->. congruence.
    + split.
      * intros [->|(k & Hk & Hn)]; eauto.
      * intros (k & [Heq|Hin] & Hn); [|eauto].
        injection Heq as -> ->. auto.
Qed.

Lemma In_set o k v k' v' :
  In (k', v') (set k v o) -> (k', v') = (k, v) \/ In (k', v') o.
Proof.
  induction o as [|[k0 v0] o IH]; simpl.
  - intros [H|[]]. now left.
  - destruct (String.eqb k k0); simpl.
    + intros [H|H]; auto.
    + intros [H|H]; auto. destruct (IH H); auto.
Qed.

(** Index keys come first in numeric order, whatever the insertion order. *)
Example values_order :
  values [("b", 1); ("10", 2); ("2", 3); ("a", 4); ("02", 5)] = [3; 2; 1; 4; 5].
Proof. reflexivity. Qed.

(** [Object.values] lists exactly the values of the own properties. *)
Lemma In_values o v : In v (values o) <-> exists k, In (k, v) o.
Proof.
  unfold values. rewrite in_app_iff, In_index_props, In_named_props. split.
  - intros [(k & n & Hk & _)|(k & Hk & _)]; eauto.
  - intros (k & Hk). destruct (array_index k) as [n|] eqn:E; [left|right]; eauto.
Qed.

End WithValue.
End JSObjFacts.

Module JSArrayFacts.
Import JSArray.

Lemma slice_prefix {A} (arr : list A) (n : Z) :
  0 <= n -> slice arr 0 n = firstn (Z.to_nat n) arr.
Proof.
  intros Hn. unfold slice, rel_index.
  assert (Hlen : 0 <= Z.of_nat (length arr)) by apply Nat2Z.is_nonneg.
  replace (0 <? 0) with false by reflexivity.
  replace (n <? 0) with false by (symmetry; apply Z.ltb_ge; exact Hn).
  rewrite (Z.min_l 0) by exact Hlen. simpl skipn. rewrite Z.sub_0_r.
  destruct (Z.le_ge_cases n (Z.of_nat (length arr))) as [Hle|Hge].
  - now rewrite Z.min_l.
  - rewrite Z.min_r by exact Hge. rewrite Nat2Z.id.
    rewrite !firstn_all2; auto.
    apply Nat2Z.inj_le. rewrite Z2Nat.id; assumption.
Qed.

End JSArrayFacts.

(** ** The violation log *)
Module ViolationLog.
Import Plugin Obs.

Lemma cap_is_firstn {A} (l : list A) :
  (if (100 <? length l)%nat then JSArray.slice l 0 100 else l) = firstn 100 l.
Proof.
  destruct (100 <? length l)%nat eqn:E.
  - now rewrite JSArrayFacts.slice_prefix.
  - apply Nat.ltb_ge in E. now rewrite firstn_all2.
Qed.

Section WithHost.
Variable host : Host.

Lemma handleViolation_log (data : ProcessEvent.t) (w : World) :
  exists w',
    handleViolation host data w = (Ok tt, w') /\
    violations (state w') =
      firstn 100 (violation_record data (stamp host (trace w) data)
                  :: violations (state w)) /\
    agents (state w') = agents (state w) /\
    policies (state w') = policies (state w) /\
    settings (state w') = settings (state w).
Proof.
  destruct w as [[ag ch po vi se ls] tr].
  unfold handleViolation, stamp, timestamp_or_now, bind, date_now, call, ret,
    modify, get_state, emit, configurationUpdate, violation_record;
    cbn -[Nat.ltb firstn JSArray.slice length].
  destruct (ProcessEvent.timestamp data) as [v|]; [destruct (v =? 0)|];
    cbn -[Nat.ltb firstn JSArray.slice length];
    match goal with
    | |- context [(100 <? length ?l)%nat] =>
        pose proof (cap_is_firstn l) as Hc; destruct (100 <? length l)%nat
    end;
    cbn -[Nat.ltb firstn JSArray.slice length];
    destruct (Settings.notifyParent se && has_sendToRenderer host);
    destruct (has_logActivity host);
    cbn -[Nat.ltb firstn JSArray.slice length];
    eexists; (split; [reflexivity|]); cbn -[firstn JSArray.slice]; auto.
Qed.

Lemma firstn_app_firstn {A} (n : nat) (l m : list A) :
  firstn n (l ++ firstn n m) = firstn n (l ++ m).
Proof.
  rewrite !firstn_app, firstn_firstn. do 2 f_equal. lia.
Qed.

(** Appending a sequence of events to a log within the cap keeps the
    newest hundred of old and new records, newest first. *)
Lemma appends_keep_newest (ds : list ProcessEvent.t) (w : World) :
  (length (violations (state w)) <= 100)%nat ->
  exists w' recs,
    for_of ds (handleViolation host) w = (Ok tt, w') /\
    Forall2 records ds recs /\
    violations (state w') = firstn 100 (rev recs ++ violations (state w)).
Proof.
  revert w. induction ds as [|d ds IH]; intros w Hlen.
  - exists w, []. repeat split; [constructor|].
    simpl. now rewrite firstn_all2.
  - destruct (handleViolation_log d w) as (w1 & Hrun & Hlog & _).
    destruct (IH w1) as (w' & recs & Hrest & Hrecs & Hfinal).
    { rewrite Hlog. apply firstn_le_length. }
    exists w', (violation_record d (stamp host (trace w) d) :: recs).
    split; [|split].
    + simpl. unfold bind. now rewrite Hrun.
    + constructor; [now eexists | assumption].
    + rewrite Hfinal, Hlog, firstn_app_firstn. simpl rev.
      now rewrite <- app_assoc.
Qed.

End WithHost.

(** C3.  Starting from an empty violation log, after the [N] appends of any
    sequence of violation events the log holds [min N 100] records; it is
    the newest hundred of the appended records, newest first, so that only
    the oldest records beyond the cap are evicted; and its first element
    is the record of the event appended last. *)
Theorem violation_log_after_appends
    (host : Host) (ds : list ProcessEvent.t) (w : World) :
  violations (state w) = [] ->
  exists w' recs,
    for_of ds (handleViolation host) w = (Ok tt, w') /\
    Forall2 records ds recs /\
    violations (state w') = firstn 100 (rev recs) /\
    length (violations (state w')) = Nat.min (length ds) 100 /\
    (forall ds0 d, ds = ds0 ++ [d] ->
       exists v, head (violations (state w')) = Some v /\ records d v).
Proof.
  intros Hempty.
  destruct (appends_keep_newest host ds w) as (w' & recs & Hrun & Hrecs & Hlog).
  { rewrite Hempty. simpl. lia. }
  rewrite Hempty, app_nil_r in Hlog.
  exists w', recs. repeat split; auto.
  - rewrite Hlog, length_firstn, length_rev.
    rewrite (Forall2_length _ _ _ Hrecs). lia.
  - intros ds0 d ->.
    apply Forall2_app_inv_l in Hrecs as (recs0 & rs & _ & Hd & ->).
    inversion Hd as [|? r ? ? Hr Hnil]; subst. inversion Hnil; subst.
    exists r. split; auto.
    rewrite Hlog, rev_app_distr. reflexivity.
Qed.

(** C3, at a concrete run: 101 appends to the empty log of a new plugin. *)
Lemma violation_log_after_appends_witness :
  violations (state initial_world) = [] /\
  exists w' recs,
    for_of (repeat Examples.steam_event 101)
           (handleViolation Examples.quiet_host) initial_world = (Ok tt, w') /\
    Forall2 records (repeat Examples.steam_event 101) recs /\
    violations (state w') = firstn 100 (rev recs) /\
    length (violations (state w')) =
      Nat.min (length (repeat Examples.steam_event 101)) 100 /\
    (forall ds0 d, repeat Examples.steam_event 101 = ds0 ++ [d] ->
       exists v, head (violations (state w')) = Some v /\ records d v).
Proof.
  split; [reflexivity|].
  apply (violation_log_after_appends Examples.quiet_host
           (repeat Examples.steam_event 101) initial_world).
  reflexivity.
Defined.

End ViolationLog.

(** ** Strings: the lower-case search against its case-insensitive reading *)
Module JSStringFacts.
Import JSString.

Lemma startsWith_iff (s p : string) :
  startsWith s p = true <-> exists post, s = p +:+ post.
Proof.
  revert s. induction p as [|a p IH]; intros s; simpl.
  - split; [intros _; exists s; reflexivity | reflexivity].
  - destruct s as [|b s].
    + split; [discriminate | intros [post H]; discriminate].
    + rewrite andb_true_iff, Ascii.eqb_eq, IH. split.
      * intros [-> [post ->]]. eauto.
      * intros [post [= -> ->]]. eauto.
Qed.

Lemma includes_iff (s p : string) :
  includes s p = true <-> exists pre post, s = pre +:+ p +:+ post.
Proof.
  induction s as [|c s IH]; simpl; rewrite orb_true_iff, startsWith_iff.
  - split.
    + intros [[post H]|H]; [|discriminate]. exists EmptyString, post. exact H.
    + intros [pre [post H]]. left.
      destruct pre; simpl in H; [eauto | discriminate].
  - rewrite IH. split.
    + intros [[post H]|[pre [post H]]].
      * exists EmptyString, post. exact H.
      * exists (String c pre), post. simpl. now rewrite H.
    + intros [pre [post H]]. destruct pre as [|c' pre]; simpl in H.
      * left. eauto.
      * right. injection H as -> ->. eauto.
Qed.

Lemma toLowerCase_app (s t : string) :
  toLowerCase (s +:+ t) = toLowerCase s +:+ toLowerCase t.
Proof. induction s as [|c s IH]; simpl; [|rewrite IH]; reflexivity. Qed.

(** A split of the lower-cased string comes from a split of the string. *)
Lemma toLowerCase_split (s a b : string) :
  toLowerCase s = a +:+ b ->
  exists s1 s2, s = s1 +:+ s2 /\ toLowerCase s1 = a /\ toLowerCase s2 = b.
Proof.
  revert s. induction a as [|c a IH]; intros s H; simpl in H.
  - exists EmptyString, s. auto.
  - destruct s as [|c' s]; simpl in H; [discriminate|].
    injection H as Hc Hs. destruct (IH _ Hs) as (s1 & s2 & -> & <- & <-).
    exists (String c' s1), s2. simpl. rewrite Hc. auto.
Qed.

Lemma eq_ci_iff (s t : string) :
  eq_ci s t = true <-> toLowerCase s = toLowerCase t.
Proof.
  revert t. induction s as [|a s IH]; intros [|b t]; simpl;
    try (split; [reflexivity | reflexivity]);
    try (split; discriminate).
  rewrite andb_true_iff, Ascii.eqb_eq, IH. split.
  - intros [-> ->]. reflexivity.
  - intros [= -> ->]. auto.
Qed.

(** Searching the lower-cased string for a lower-case needle is searching
    the string for the needle in any letter case. *)
Lemma includes_toLowerCase (s p : string) :
  toLowerCase p = p ->
  includes (toLowerCase s) p = true <-> contains_ci s p.
Proof.
  intros Hp. rewrite includes_iff. unfold contains_ci. split.
  - intros (pre' & post' & H).
    apply toLowerCase_split in H as (pre & rest & -> & _ & H).
    apply toLowerCase_split in H as (mid & post & -> & Hmid & _).
    exists pre, mid, post. split; auto. apply eq_ci_iff. congruence.
  - intros (pre & mid & post & -> & Hmid).
    apply eq_ci_iff in Hmid. rewrite Hp in Hmid.
    exists (toLowerCase pre), (toLowerCase post).
    now rewrite !toLowerCase_app, Hmid.
Qed.

End JSStringFacts.

(** ** Violation events *)
Module ViolationEvents.
Import Plugin Obs ViolationRun.

Lemma sent_on_app (c : string) (l1 l2 : list Event) :
  sent_on c (l1 ++ l2) = (sent_on c l1 + sent_on c l2)%nat.
Proof.
  induction l1 as [|e l1 IH]; simpl; auto.
  destruct e; auto. rewrite IH. lia.
Qed.

Lemma activity_entries_app (l1 l2 : list Event) :
  activity_entries (l1 ++ l2) = (activity_entries l1 + activity_entries l2)%nat.
Proof.
  induction l1 as [|e l1 IH]; simpl; auto.
  destruct e; auto. now rewrite IH.
Qed.

Section WithHost.
Variable host : Host.

Lemma handleViolation_run (data : ProcessEvent.t) (w : World) :
  handleViolation host data w =
    (Ok tt,
     {| state := logged (violation_record data (stamp host (trace w) data)) (state w);
        trace := trace w ++
                 calls host data (violation_record data (stamp host (trace w) data))
                       (state w) |}).
Proof.
  destruct w as [[ag ch po vi se ls] tr].
  unfold handleViolation, calls, logged, reads_clock, stamp, timestamp_or_now,
    bind, date_now, call, ret, modify, get_state, emit, configurationUpdate,
    violation_record, with_violations;
    cbn -[Nat.ltb firstn JSArray.slice length].
  destruct (ProcessEvent.timestamp data) as [v|]; [destruct (v =? 0)|];
    cbn -[Nat.ltb firstn JSArray.slice length];
    match goal with
    | |- context [(100 <? length ?l)%nat] =>
        pose proof (ViolationLog.cap_is_firstn l) as Hc;
        destruct (100 <? length l)%nat
    end;
    cbn -[Nat.ltb firstn JSArray.slice length];
    destruct (Settings.notifyParent se && has_sendToRenderer host);
    destruct (has_logActivity host);
    cbn -[Nat.ltb firstn JSArray.slice length];
    rewrite <- ?Hc, <- ?app_assoc; reflexivity.
Qed.

Lemma is_steam_iff (data : ProcessEvent.t) :
  is_steam data = true <-> names_steam data.
Proof.
  unfold is_steam, names_steam.
  destruct (ProcessEvent.processName data) as [p|]; cbn [fmap option_fmap option_map].
  - assert (Hs : str_or (Some (JSString.toLowerCase p)) "" = JSString.toLowerCase p).
    { unfold str_or. now destruct (JSString.toLowerCase p). }
    rewrite Hs, JSStringFacts.includes_toLowerCase by reflexivity.
    split; [eauto | intros (q & [= <-] & H); exact H].
  - split; [discriminate | intros (q & H & _); discriminate].
Qed.

End WithHost.

Lemma getViolations_run (limit : option Z) (w : World) :
  0 <= default 50 limit ->
  getViolations limit w =
    (Ok (IpcOk (firstn (Z.to_nat (default 50 limit)) (violations (state w)))), w).
Proof.
  intros Hl. unfold getViolations, ipc_handler, try_catch, bind, get_state, ret.
  now rewrite JSArrayFacts.slice_prefix.
Qed.

(** C4.  On a host that offers [sendToRenderer] and [logActivity], a
    violation event is processed exactly when its process name contains
    "steam" in some letter case: then its record goes to the head of the
    capped log and one activity-log entry is written, and otherwise the
    plugin does nothing.  When it is processed and notify-parent is on,
    exactly one [steamViolation] message goes to the renderer, and
    [getViolations], for the default or any positive limit, returns the new
    record at index 0 followed only by records that were there before. *)
Theorem violation_event_processing
    (host : Host) (data : ProcessEvent.t) (w : World) :
  has_sendToRenderer host = true ->
  has_logActivity host = true ->
  exists w',
    on_violation host data w = (Ok tt, w') /\
    (~ names_steam data -> w' = w) /\
    (names_steam data ->
       violations (state w') =
         firstn 100 (violation_record data (stamp host (trace w) data)
                     :: violations (state w)) /\
       activity_entries (trace w') = S (activity_entries (trace w)) /\
       (Settings.notifyParent (settings (state w)) = true ->
          sent_on "steamViolation" (trace w') =
            S (sent_on "steamViolation" (trace w)) /\
          forall limit, 0 < default 50 limit ->
            getViolations limit w' =
              (Ok (IpcOk
                 (violation_record data (stamp host (trace w) data)
                  :: firstn (Nat.min (Z.to_nat (default 50 limit)) 100 - 1)
                            (violations (state w)))),
               w'))).
Proof.
  intros Hsend Hlog. unfold on_violation.
  destruct (is_steam data) eqn:E.
  - rewrite handleViolation_run. eexists. split; [reflexivity|].
    split; [intros Hn; apply is_steam_iff in E; contradiction|].
    intros _. simpl. split; [destruct (state w); reflexivity|]. split.
    + rewrite activity_entries_app. unfold calls. rewrite Hlog.
      rewrite !activity_entries_app.
      destruct (reads_clock data);
        destruct (Settings.notifyParent (settings (state w)) && has_sendToRenderer host);
        simpl; lia.
    + intros Hnotify. split.
      * rewrite sent_on_app. unfold calls. rewrite Hnotify, Hsend, Hlog.
        rewrite !sent_on_app. destruct (reads_clock data); simpl; lia.
      * intros limit Hpos. rewrite getViolations_run by lia.
        do 2 f_equal. f_equal.
        destruct (state w) as [ag ch po vi se ls]. cbn -[firstn].
        rewrite firstn_firstn.
        assert (Hm : exists m, Nat.min (Z.to_nat (default 50 limit)) 100 = S m).
        { destruct (Nat.min (Z.to_nat (default 50 limit)) 100) eqn:Em; [lia|eauto]. }
        destruct Hm as [m Hm]. rewrite Hm. simpl. f_equal. f_equal. lia.
  - exists w. split; [reflexivity|]. split; [reflexivity|].
    intros Hs. apply is_steam_iff in Hs. congruence.
Qed.

(** C4, at the event [{agentId: "A1", processName: "Steam.exe",
    hostname: "h1"}] received by a new plugin. *)
Lemma violation_event_processing_witness :
  has_sendToRenderer Examples.quiet_host = true /\
  has_logActivity Examples.quiet_host = true /\
  exists w',
    on_violation Examples.quiet_host Examples.steam_event initial_world = (Ok tt, w') /\
    (~ names_steam Examples.steam_event -> w' = initial_world) /\
    (names_steam Examples.steam_event ->
       violations (state w') =
         firstn 100
           (violation_record Examples.steam_event
              (stamp Examples.quiet_host (trace initial_world) Examples.steam_event)
            :: violations (state initial_world)) /\
       activity_entries (trace w') = S (activity_entries (trace initial_world)) /\
       (Settings.notifyParent (settings (state initial_world)) = true ->
          sent_on "steamViolation" (trace w') =
            S (sent_on "steamViolation" (trace initial_world)) /\
          forall limit, 0 < default 50 limit ->
            getViolations limit w' =
              (Ok (IpcOk
                 (violation_record Examples.steam_event
                    (stamp Examples.quiet_host (trace initial_world) Examples.steam_event)
                  :: firstn (Nat.min (Z.to_nat (default 50 limit)) 100 - 1)
                            (violations (state initial_world)))),
               w'))).
Proof.
  split; [reflexivity|]. split; [reflexivity|].
  apply (violation_event_processing Examples.quiet_host Examples.steam_event
           initial_world); reflexivity.
Defined.

(** The event of the example does name Steam, so the example is not
    vacuous. *)
Example steam_event_names_steam : names_steam Examples.steam_event.
Proof.
  exists "Steam.exe". split; [reflexivity|].
  exists "", "Steam", ".exe". split; reflexivity.
Qed.

End ViolationEvents.

(** ** Policy configuration *)
Module PolicyConfiguration.
Import Plugin Obs PolicySpec.

(** The table of [configureSteamPolicy] has the lists of the table of
    [SteamMonitor] under the same three keys. *)
Lemma processNames_same (p : string) :
  SteamMonitor.processNames p =
    match Plugin.processNames p with JSObj.Own names => Some names | _ => None end.
Proof.
  unfold Plugin.processNames, JSObj.lookup, processNames_table,
    SteamMonitor.processNames. simpl.
  destruct (String.eqb p "win32"); [reflexivity|].
  destruct (String.eqb p "darwin"); [reflexivity|].
  destruct (String.eqb p "linux"); [reflexivity|].
  destruct (ObjectPrototype.has p); reflexivity.
Qed.

Lemma processNames_known (p : string) :
  known_platform p <-> exists names, Plugin.processNames p = JSObj.Own names.
Proof.
  unfold known_platform, Plugin.processNames, JSObj.lookup, processNames_table.
  simpl. split.
  - intros [-> | [-> | ->]]; simpl; eauto.
  - intros [names H].
    destruct (String.eqb p "win32") eqn:E1; [apply String.eqb_eq in E1; auto|].
    destruct (String.eqb p "darwin") eqn:E2; [apply String.eqb_eq in E2; auto|].
    destruct (String.eqb p "linux") eqn:E3; [apply String.eqb_eq in E3; auto|].
    destruct (ObjectPrototype.has p); discriminate.
Qed.

Lemma recognised_names (agent : Agent.t) :
  recognised agent <->
  exists names, Plugin.processNames (platform_tag agent) = JSObj.Own names.
Proof.
  unfold recognised, platform_tag, str_or.
  destruct (Agent.platform agent) as [p|].
  - destruct p as [|c p]; simpl JSString.truthy; cbv iota.
    + split; [intros _; simpl; eauto | auto].
    + rewrite <- processNames_known. split; [intros [H|H]; [discriminate|auto] | auto].
  - split; [intros _; simpl; eauto | auto].
Qed.

Lemma process_list_own (p : string) (names : list string) :
  Plugin.processNames p = JSObj.Own names -> process_list p = Some (Names names).
Proof. unfold process_list. now intros ->. Qed.

(** The table of [configureSteamPolicy] has the documented lists, under
    the same three keys. *)
Lemma documented_same (p : string) :
  documented_names p =
    match Plugin.processNames p with JSObj.Own names => Some names | _ => None end.
Proof.
  unfold Plugin.processNames, JSObj.lookup, processNames_table, documented_names.
  simpl.
  destruct (String.eqb p "win32"); [reflexivity|].
  destruct (String.eqb p "darwin"); [reflexivity|].
  destruct (String.eqb p "linux"); [reflexivity|].
  destruct (ObjectPrototype.has p); reflexivity.
Qed.

(** The documented names of a recognised agent's platform are the ones
    that go into its policy object. *)
Lemma recognised_policy (agent : Agent.t) (names : list string) (s : State) :
  Plugin.processNames (platform_tag agent) = JSObj.Own names ->
  names_of_platform agent (policy_object (platform_tag agent) (Names names) s).
Proof.
  intros Hn. exists names.
  split; [now rewrite documented_same, Hn|]. repeat split.
Qed.

Section WithHost.
Variable host : Host.

(** A tag for which [processNames[platform]] is [undefined]: the lookup of
    index 0 throws before any call is made. *)
Lemma configure_missing (agent : Agent.t) (w : World) :
  process_list (platform_tag agent) = None ->
  configureSteamPolicy host agent w =
    (Throw (TypeError "Cannot read properties of undefined (reading '0')"), w).
Proof.
  intros Hn. unfold configureSteamPolicy. fold (platform_tag agent).
  now rewrite Hn.
Qed.

(** A tag for which [processNames[platform]] is a value [found]: one
    create-policy call; on success the clock is read and the record
    stored, on failure one error line is written and the state stays as
    it was. *)
Lemma configure_issued (agent : Agent.t) (found : ProcessList) (w : World) :
  process_list (platform_tag agent) = Some found ->
  configureSteamPolicy host agent w =
    let obj := policy_object (platform_tag agent) found (state w) in
    let issued := trace w ++ [ECreatePolicy (Agent.id agent) obj] in
    match createPolicy host (trace w) (Agent.id agent) obj with
    | Ok _ =>
        (Ok tt,
         {| state := with_policies
                       (fun ps => <[Agent.id agent :=
                          policy_record found (state w) (Date_now host issued)]> ps)
                       (state w);
            trace := issued ++ [EDateNow] |})
    | Throw _ =>
        (Ok tt,
         {| state := state w;
            trace := issued ++
              [EConsoleError "[Steam Plugin] Error configuring policy for"
                             (Agent.hostname agent)] |})
    end.
Proof.
  intros Hnames. unfold configureSteamPolicy. fold (platform_tag agent).
  rewrite Hnames. destruct w as [s tr].
  unfold try_catch, bind, get_state, agentService_createPolicy, call, date_now,
    modify, console_error, emit. simpl.
  destruct (createPolicy host tr (Agent.id agent)
              (policy_object (platform_tag agent) found s)); reflexivity.
Qed.

(** An agent with a recognised tag: the call carries the table's list. *)
Lemma configure_recognised (agent : Agent.t) (names : list string) (w : World) :
  Plugin.processNames (platform_tag agent) = JSObj.Own names ->
  configureSteamPolicy host agent w =
    let obj := policy_object (platform_tag agent) (Names names) (state w) in
    let issued := trace w ++ [ECreatePolicy (Agent.id agent) obj] in
    match createPolicy host (trace w) (Agent.id agent) obj with
    | Ok _ =>
        (Ok tt,
         {| state := with_policies
                       (fun ps => <[Agent.id agent :=
                          policy_record (Names names) (state w)
                            (Date_now host issued)]> ps)
                       (state w);
            trace := issued ++ [EDateNow] |})
    | Throw _ =>
        (Ok tt,
         {| state := state w;
            trace := issued ++
              [EConsoleError "[Steam Plugin] Error configuring policy for"
                             (Agent.hostname agent)] |})
    end.
Proof. intros Hn. apply configure_issued, process_list_own, Hn. Qed.

End WithHost.

(** One configuration, whatever the agent service answers: the calls it
    makes are as described, settings and agent entries are not touched,
    and stored policies stay blocked if they were. *)
Lemma configure_step (host : Host) (agent : Agent.t) (w : World) :
  exists r w' evs,
    configureSteamPolicy host agent w = (r, w') /\
    trace w' = trace w ++ evs /\
    settings (state w') = settings (state w) /\
    agents (state w') = agents (state w) /\
    Forall (as_described (settings (state w))) evs /\
    (all_blocked (state w) -> all_blocked (state w')).
Proof.
  destruct (process_list (platform_tag agent)) as [found|] eqn:E.
  - rewrite (configure_issued host agent found w E). cbv zeta.
    assert (Hd : as_described (settings (state w))
                   (ECreatePolicy (Agent.id agent)
                      (policy_object (platform_tag agent) found (state w)))).
    { simpl. auto. }
    destruct (createPolicy host (trace w) (Agent.id agent) _).
    + do 3 eexists. split; [reflexivity|]. simpl. rewrite <- app_assoc.
      split; [reflexivity|]. split; [reflexivity|]. split; [reflexivity|]. split.
      * constructor; [exact Hd | constructor; [exact I | constructor]].
      * intros Hb k pol. unfold with_policies. simpl.
        destruct (decide (Agent.id agent = k)) as [<-|Hne].
        -- rewrite lookup_insert_eq. intros [= <-]. reflexivity.
        -- rewrite lookup_insert_ne by exact Hne. apply Hb.
    + do 3 eexists. split; [reflexivity|]. simpl. rewrite <- app_assoc.
      split; [reflexivity|]. split; [reflexivity|]. split; [reflexivity|]. split; auto.
      constructor; [exact Hd | constructor; [exact I | constructor]].
  - exists (Throw (TypeError "Cannot read properties of undefined (reading '0')")), w, [].
    split; [now apply configure_missing|].
    rewrite app_nil_r. split; [reflexivity|]. split; [reflexivity|].
    split; [reflexivity|]. split; [constructor | auto].
Qed.

(** One configuration makes at most one create-policy call, for its
    agent and with the policy object of that agent's platform tag; it
    leaves the violation log alone. *)
Lemma configure_calls (host : Host) (agent : Agent.t) (w : World) :
  exists evs,
    trace (snd (configureSteamPolicy host agent w)) = trace w ++ evs /\
    violations (state (snd (configureSteamPolicy host agent w)))
      = violations (state w) /\
    (forall agentId p,
       In (ECreatePolicy agentId p) evs ->
       agentId = Agent.id agent /\
       process_list (platform_tag agent)
         = Some (CreatePolicy.processAlternatives p) /\
       p = policy_object (platform_tag agent)
             (CreatePolicy.processAlternatives p) (state w)).
Proof.
  destruct (process_list (platform_tag agent)) as [found|] eqn:E.
  - rewrite (configure_issued host agent found w E). cbv zeta.
    destruct (createPolicy host (trace w) (Agent.id agent) _);
      eexists; simpl; rewrite <- app_assoc;
      (split; [reflexivity|]); (split; [reflexivity|]);
      intros agentId p [[= <- <-]|[H|[]]]; [auto | discriminate | auto | discriminate].
  - rewrite (configure_missing host agent w E). exists []. simpl.
    rewrite app_nil_r. split; [reflexivity|]. split; [reflexivity|]. intros ? ? [].
Qed.

(** The calls of one configuration are described for its agent. *)
Lemma configure_described (host : Host) (agent : Agent.t) (w : World) :
  exists evs,
    trace (snd (configureSteamPolicy host agent w)) = trace w ++ evs /\
    calls_described (settings (state w)) [agent] evs.
Proof.
  destruct (configure_calls host agent w) as (evs & Htr & _ & Hcalls).
  exists evs. split; [exact Htr|]. intros agentId p Hin.
  destruct (Hcalls agentId p Hin) as (-> & Hl & Hp).
  split; [rewrite Hp; simpl; auto|].
  exists agent. split; [now left|]. split; [reflexivity|].
  intros Hrec. apply recognised_names in Hrec as [names Hn].
  rewrite (process_list_own _ _ Hn) in Hl. injection Hl as Hl.
  rewrite Hp, <- Hl. now apply recognised_policy.
Qed.

(** A loop keeps what each of its rounds keeps, also when a round throws. *)
Lemma for_of_invariant {W A} (P : W -> Prop) (body : A -> M W unit) :
  (forall x w, P w -> P (snd (body x w))) ->
  forall xs w, P w -> P (snd (for_of xs body w)).
Proof.
  intros Hbody xs. induction xs as [|x xs IH]; intros w Hw; simpl; auto.
  unfold bind. specialize (Hbody x w Hw).
  destruct (body x w) as [[[]|e] w1]; simpl in *; auto.
Qed.

(** The same, when a round keeps it for the elements of the list only. *)
Lemma for_of_invariant_in {W A} (P : W -> Prop) (body : A -> M W unit)
    (xs : list A) :
  (forall x w, In x xs -> P w -> P (snd (body x w))) ->
  forall w, P w -> P (snd (for_of xs body w)).
Proof.
  induction xs as [|x xs IH]; intros Hbody w Hw; simpl; auto.
  unfold bind. pose proof (Hbody x w (or_introl eq_refl) Hw) as Hx.
  destruct (body x w) as [[[]|e] w1]; simpl in *; auto.
Qed.

Lemma created_for_app (l1 l2 : list Event) :
  created_for (l1 ++ l2) = created_for l1 ++ created_for l2.
Proof.
  induction l1 as [|e l1 IH]; simpl; auto.
  destruct e; auto. simpl. now rewrite IH.
Qed.

Lemma calls_described_app (se : Settings.t) (among : list Agent.t)
    (l1 l2 : list Event) :
  calls_described se among l1 -> calls_described se among l2 ->
  calls_described se among (l1 ++ l2).
Proof.
  intros H1 H2 agentId p Hin. apply in_app_or in Hin as [Hin|Hin]; auto.
Qed.

Lemma calls_described_among (se : Settings.t) (agent : Agent.t)
    (among : list Agent.t) (evs : list Event) :
  In agent among -> calls_described se [agent] evs -> calls_described se among evs.
Proof.
  intros Ha H agentId p Hin. destruct (H agentId p Hin) as (Hd & a & [<-|[]] & Hid & Hn).
  split; [exact Hd|]. exists agent. auto.
Qed.

Lemma calls_described_none (se : Settings.t) (among : list Agent.t)
    (evs : list Event) :
  created_for evs = [] -> calls_described se among evs.
Proof.
  intros Hnone agentId p Hin. exfalso.
  induction evs as [|e evs IH]; [destruct Hin|].
  destruct Hin as [->|Hin]; [discriminate|].
  destruct e; simpl in Hnone; try discriminate; auto.
Qed.

(** The invariant of policy configuration, relative to a starting trace
    [tr0], settings [se] and a condition [G] under which the stored
    policies are all blocked. *)
Lemma configure_keeps (host : Host) (tr0 : list Event) (se : Settings.t)
    (G : Prop) (among : list Agent.t) (agent : Agent.t) (w : World) :
  In agent among ->
  (exists evs, trace w = tr0 ++ evs /\ Forall (as_described se) evs /\
               calls_described se among evs /\
               settings (state w) = se /\ (G -> all_blocked (state w))) ->
  exists evs, trace (snd (configureSteamPolicy host agent w)) = tr0 ++ evs /\
              Forall (as_described se) evs /\
              calls_described se among evs /\
              settings (state (snd (configureSteamPolicy host agent w))) = se /\
              (G -> all_blocked (state (snd (configureSteamPolicy host agent w)))).
Proof.
  intros Hin (evs & Htr & Hev & Hcd & Hse & Hb).
  destruct (configure_step host agent w)
    as (r & w' & evs' & Hrun & Htr' & Hse' & _ & Hev' & Hb').
  destruct (configure_described host agent w) as (evs2 & Htr2 & Hcd2).
  rewrite Hrun in *. simpl in *.
  assert (evs2 = evs') as -> by (rewrite Htr' in Htr2; now apply app_inv_head in Htr2).
  exists (evs ++ evs'). split; [|split; [|split; [|split]]].
  - rewrite Htr', Htr. now rewrite app_assoc.
  - apply Forall_app. split; auto. now rewrite <- Hse.
  - apply calls_described_app; [exact Hcd|].
    apply (calls_described_among _ agent); [exact Hin|]. now rewrite <- Hse.
  - congruence.
  - auto.
Qed.

(** The loop over recognised agents makes one create-policy call for each
    of them, in order, whatever the agent service answers. *)
Lemma configure_all_recognised (host : Host) (listed : list Agent.t) (w : World) :
  Forall recognised listed ->
  exists w',
    for_of listed (configureSteamPolicy host) w = (Ok tt, w') /\
    created_for (trace w') = created_for (trace w) ++ map Agent.id listed.
Proof.
  intros Hrec. revert w. induction Hrec as [|agent listed Ha _ IH]; intros w.
  - exists w. simpl. now rewrite app_nil_r.
  - apply recognised_names in Ha as [names Hn].
    simpl. unfold bind. rewrite (configure_recognised host agent names w Hn). cbv zeta.
    destruct (createPolicy host (trace w) (Agent.id agent) _);
      match goal with
      | |- context [for_of listed _ ?w1] =>
          destruct (IH w1) as (w' & Hrun & Hcr); exists w'; split; [exact Hrun|];
          rewrite Hcr; simpl; rewrite !created_for_app; simpl;
          now rewrite app_nil_r, <- app_assoc
      end.
Qed.

(** [onLoad] is the listing, the configuration loop when the listing
    succeeded, and a tail of calls none of which creates a policy. *)
Lemma onLoad_shape (host : Host) (loadState : option State) (w : World) :
  exists w2 tail,
    onLoad host loadState w =
      (Ok tt, {| state := state w2; trace := trace w2 ++ tail |}) /\
    created_for tail = [] /\
    (forall se, Forall (as_described se) tail) /\
    match listAgents host (trace w) with
    | Ok listed =>
        w2 = snd (for_of listed (configureSteamPolicy host)
                    {| state := default default_state loadState;
                       trace := trace w ++ [EListAgents] |})
    | Throw _ =>
        w2 = {| state := default default_state loadState;
                trace := trace w ++ [EListAgents] |}
    end.
Proof.
  unfold onLoad, bind, try_catch, modify, agentService_listAgents, call,
    console_error, emit, date_now. simpl.
  destruct (listAgents host (trace w)) as [listed|e]; simpl.
  - destruct (for_of listed (configureSteamPolicy host) _) as [[[]|e] w2]; simpl.
    + exists w2. eexists. split; [rewrite <- app_assoc; reflexivity|].
      split; [reflexivity|]. split; [|reflexivity].
      intros se. repeat constructor.
    + exists w2. eexists. split; [rewrite <- !app_assoc; reflexivity|].
      split; [reflexivity|]. split; [|reflexivity].
      intros se. repeat constructor.
  - exists {| state := default default_state loadState;
              trace := trace w ++ [EListAgents] |}.
    eexists. split; [simpl; rewrite <- !app_assoc; reflexivity|].
    split; [reflexivity|]. split; [|reflexivity].
    intros se. repeat constructor.
Qed.

(** Handling a discovery: the configuration, then the clock, the new
    agent record and the persisted state; nothing after a throw. *)
Lemma on_agentDiscovered_shape (host : Host) (agent : Agent.t) (w : World) :
  exists r w' tail,
    on_agentDiscovered host agent w = (r, w') /\
    trace w' = trace (snd (configureSteamPolicy host agent w)) ++ tail /\
    policies (state w') = policies (state (snd (configureSteamPolicy host agent w))) /\
    created_for tail = [] /\
    (forall se, Forall (as_described se) tail).
Proof.
  unfold on_agentDiscovered, bind, date_now, call, modify, configurationUpdate.
  destruct (configureSteamPolicy host agent w) as [[[]|e] w1]; simpl.
  - do 3 eexists. split; [reflexivity|]. simpl. rewrite <- app_assoc.
    split; [reflexivity|]. split; [reflexivity|]. split; [reflexivity|].
    intros se. repeat constructor.
  - exists (Throw e), w1, []. rewrite app_nil_r. repeat split; constructor.
Qed.

(** C6, evaluated.  The stand-alone lookup [getProcessNames] falls back to
    the Windows list for every platform outside the table and returns the
    documented three names, main name first, for each platform in it.  The
    lookup inside [configureSteamPolicy] does not fall back: for the agent
    [{id: "A1", hostname: "h1", platform: "freebsd"}] it throws a
    [TypeError] before any call is made and leaves the world as it was. *)
Theorem process_name_lookup :
  (forall p, ~ known_platform p ->
     SteamMonitor.getProcessNames p = SteamMonitor.getProcessNames "win32") /\
  SteamMonitor.getProcessNames "win32" =
    ["Steam.exe"; "steamwebhelper.exe"; "gameoverlayui.exe"] /\
  SteamMonitor.getProcessNames "darwin" =
    ["steam_osx"; "Steam.app"; "steamwebhelper"] /\
  SteamMonitor.getProcessNames "linux" =
    ["steam"; "steamwebhelper"; "reaper"] /\
  SteamMonitor.getMainProcessName "win32" = Some "Steam.exe" /\
  SteamMonitor.getMainProcessName "darwin" = Some "steam_osx" /\
  SteamMonitor.getMainProcessName "linux" = Some "steam" /\
  (forall host w,
     configureSteamPolicy host Examples.freebsd_agent w =
       (Throw (TypeError "Cannot read properties of undefined (reading '0')"), w)).
Proof.
  repeat split; try reflexivity.
  intros p Hp. unfold SteamMonitor.getProcessNames.
  destruct (SteamMonitor.processNames p) as [names|] eqn:E; [|reflexivity].
  exfalso. apply Hp, processNames_known. rewrite processNames_same in E.
  destruct (Plugin.processNames p) as [found| |]; [eauto | discriminate | discriminate].
Qed.

(** At load, the agent with the unknown platform ends the batch: no
    create-policy call is made for it or for the Linux agent listed after
    it, no policy is stored, and the one error line is that of the
    listing. *)
Example load_stops_at_unknown_platform :
  let w' := snd (onLoad Examples.mixed_host None initial_world) in
  created_for (trace w') = [] /\
  console_errors (trace w') = 1%nat /\
  policies (state w') !! "A2" = None.
Proof. vm_compute. auto. Qed.

(** At discovery, the listener rejects and the agent is not recorded. *)
Example discovery_of_unknown_platform :
  on_agentDiscovered Examples.quiet_host Examples.freebsd_agent initial_world =
    (Throw (TypeError "Cannot read properties of undefined (reading '0')"),
     initial_world).
Proof. reflexivity. Qed.

End PolicyConfiguration.

(** ** Authorization updates *)
Module Authorization.
Import Plugin Obs PolicySpec AuthSpec.

Section WithHost.
Variable host : Host.

(** One run of [updateSteamPolicy]: the call, and on success the agent
    entry (when there is one) and the persisted state; on failure one error
    line and no change of state. *)
Lemma updateSteamPolicy_run (agent : Agent.t) (ns : Allow2State.t) (w : World) :
  updateSteamPolicy host agent ns w =
    let u := update_object (state w) agent (steamAllowed ns) in
    let issued := trace w ++ [EUpdatePolicy (Agent.id agent) u] in
    match updatePolicy host (trace w) (Agent.id agent) u with
    | Throw _ =>
        (Ok tt,
         {| state := state w;
            trace := issued ++
              [EConsoleError "[Steam Plugin] Error updating policy for"
                             (Agent.hostname agent)] |})
    | Ok _ =>
        match JSObj.lookup (Agent.id agent) (agents (state w)) with
        | JSObj.Own a =>
            let s' := with_agents
                        (JSObj.set (Agent.id agent)
                           (AgentData.set_lastUpdate (Date_now host issued)
                              (AgentData.set_allowed (steamAllowed ns) a)))
                        (state w) in
            (Ok tt, {| state := s'; trace := issued ++ [EDateNow; EConfigurationUpdate s'] |})
        | JSObj.Inherited =>
            let noted := issued ++ [EMemberWrite (Agent.id agent)
                                      (SetAllowed (steamAllowed ns))] in
            (Ok tt,
             {| state := state w;
                trace := noted ++
                  [EDateNow;
                   EMemberWrite (Agent.id agent) (SetLastUpdate (Date_now host noted));
                   EConfigurationUpdate (state w)] |})
        | JSObj.Missing =>
            (Ok tt, {| state := state w;
                       trace := issued ++ [EConfigurationUpdate (state w)] |})
        end
    end.
Proof.
  destruct w as [[ag ch po vi se ls] tr].
  unfold updateSteamPolicy, try_catch, bind, get_state, agentService_updatePolicy,
    call, assign_agent, date_now, configurationUpdate, console_error, emit, ret,
    with_agents.
  cbn -[JSObj.lookup JSObj.set update_object].
  destruct (updatePolicy host tr (Agent.id agent) _); [|reflexivity].
  cbn -[JSObj.lookup JSObj.set update_object].
  destruct (JSObj.lookup (Agent.id agent) ag) as [entry| |] eqn:E;
    cbn -[JSObj.lookup JSObj.set update_object].
  - rewrite E. cbn -[JSObj.lookup JSObj.set update_object].
    rewrite JSObjFacts.lookup_set_eq. cbn -[JSObj.lookup JSObj.set update_object].
    rewrite JSObjFacts.set_set_eq, <- app_assoc. reflexivity.
  - rewrite E. cbn -[JSObj.lookup JSObj.set update_object].
    rewrite E. cbn -[JSObj.lookup JSObj.set update_object].
    rewrite <- !app_assoc. reflexivity.
  - reflexivity.
Qed.

(** Whatever the agent service answers, a run of [updateSteamPolicy]
    returns normally, issues no update but one that carries the decision,
    and leaves policies, settings and the violation log alone. *)
Lemma updateSteamPolicy_step (agent : Agent.t) (ns : Allow2State.t) (w : World) :
  exists w' evs,
    updateSteamPolicy host agent ns w = (Ok tt, w') /\
    trace w' = trace w ++ evs /\
    Forall (decided ns) evs /\
    policies (state w') = policies (state w).
Proof.
  rewrite updateSteamPolicy_run. cbv zeta.
  destruct (updatePolicy host (trace w) (Agent.id agent) _).
  - destruct (JSObj.lookup (Agent.id agent) (agents (state w)));
      do 2 eexists; (split; [reflexivity|]); simpl; rewrite <- ?app_assoc;
      (split; [reflexivity|]); (split; [|reflexivity]);
      (constructor; [reflexivity|]); repeat constructor.
  - do 2 eexists. split; [reflexivity|]. simpl. rewrite <- app_assoc.
    split; [reflexivity|]. split; [|reflexivity].
    constructor; [reflexivity|]. repeat constructor.
Qed.

(** A round of the loop, whatever the agent service answers. *)
Lemma refresh_step (ns : Allow2State.t) (a : AgentData.t) (w : World) :
  exists w' evs,
    refresh host ns a w = (Ok tt, w') /\
    trace w' = trace w ++ evs /\
    Forall (decided ns) evs /\
    policies (state w') = policies (state w).
Proof.
  unfold refresh, try_catch, bind, agentService_getAgent, call, console_error, emit, ret.
  simpl. destruct (getAgent host (trace w) (AgentData.id a)) as [[ag|]|e].
  - destruct (updateSteamPolicy_step ag ns
                {| state := state w; trace := trace w ++ [EGetAgent (AgentData.id a)] |})
      as (w' & evs & Hrun & Htr & Hev & Hpol).
    rewrite Hrun. exists w', (EGetAgent (AgentData.id a) :: evs).
    split; [reflexivity|]. simpl in Htr. rewrite Htr, <- app_assoc.
    split; [reflexivity|]. split; [constructor; [exact I | exact Hev] | exact Hpol].
  - do 2 eexists. split; [reflexivity|]. split; [reflexivity|].
    split; [repeat constructor | reflexivity].
  - do 2 eexists. split; [reflexivity|]. simpl. rewrite <- app_assoc.
    split; [reflexivity|]. split; [repeat constructor | reflexivity].
Qed.

(** The whole listener, whatever the agent service answers: it returns
    normally, every update it issues carries the decision, and the stored
    policies are the ones from before. *)
Lemma on_stateChange_step (childId : string) (ns : Allow2State.t) (w : World) :
  exists w' evs,
    on_stateChange host childId ns w = (Ok tt, w') /\
    trace w' = trace w ++ evs /\
    Forall (decided ns) evs /\
    policies (state w') = policies (state w).
Proof.
  unfold on_stateChange, bind, get_state.
  generalize (List.filter (linked_to childId) (JSObj.values (agents (state w)))).
  intros l. revert w. induction l as [|a l IH]; intros w.
  - exists w, []. rewrite app_nil_r. repeat split; constructor.
  - destruct (refresh_step ns a w) as (w1 & evs1 & Hrun1 & Htr1 & Hev1 & Hpol1).
    destruct (IH w1) as (w' & evs & Hrun & Htr & Hev & Hpol).
    exists w', (evs1 ++ evs). simpl. unfold bind. rewrite Hrun1.
    split; [exact Hrun|]. rewrite Htr, Htr1, app_assoc.
    split; [reflexivity|]. split; [apply Forall_app; auto | congruence].
Qed.

Section Responsive.
(** The agent service accepts every update. *)
Hypothesis accepts : forall tr k u, updatePolicy host tr k u = Ok tt.

Variable ns : Allow2State.t.

(** A round for an entry whose live record the agent service returns. *)
Lemma refresh_effect (a : AgentData.t) (ag : Agent.t) (w : World) :
  getAgent host (trace w) (AgentData.id a) = Ok (Some ag) ->
  Agent.id ag = AgentData.id a ->
  exists w' evs,
    refresh host ns a w = (Ok tt, w') /\
    trace w' = trace w ++ evs /\
    In (EUpdatePolicy (AgentData.id a)
          (update_object (state w) ag (steamAllowed ns))) evs /\
    (forall k, has_entry k (state w) -> has_entry k (state w')) /\
    (forall k, stores (steamAllowed ns) k (state w) ->
               stores (steamAllowed ns) k (state w')) /\
    (has_entry (AgentData.id a) (state w) ->
     stores (steamAllowed ns) (AgentData.id a) (state w')).
Proof.
  intros Hget Hid.
  unfold refresh, try_catch, bind, agentService_getAgent, call. simpl.
  rewrite Hget, updateSteamPolicy_run. cbv zeta. simpl. rewrite accepts, Hid.
  destruct (JSObj.lookup (AgentData.id a) (agents (state w))) as [entry| |] eqn:E.
  - do 2 eexists. split; [reflexivity|]. simpl. rewrite <- !app_assoc.
    split; [reflexivity|]. split; [simpl; auto|].
    unfold has_entry, stores. simpl. split; [|split].
    + intros k [x Hx]. destruct (String.eqb_spec (AgentData.id a) k) as [<-|Hne].
      * rewrite JSObjFacts.get_set_eq. eauto.
      * rewrite JSObjFacts.get_set_ne by exact Hne. eauto.
    + intros k (x & Hx & Hall).
      destruct (String.eqb_spec (AgentData.id a) k) as [<-|Hne].
      * rewrite JSObjFacts.get_set_eq. eauto.
      * rewrite JSObjFacts.get_set_ne by exact Hne. eauto.
    + intros _. rewrite JSObjFacts.get_set_eq. eauto.
  - apply JSObjFacts.lookup_Inherited in E as [E _].
    do 2 eexists. split; [reflexivity|]. simpl. rewrite <- !app_assoc.
    split; [reflexivity|]. split; [simpl; auto|].
    split; [auto|]. split; [auto|].
    intros [x Hx]. congruence.
  - apply JSObjFacts.lookup_Missing in E as [E _].
    do 2 eexists. split; [reflexivity|]. simpl. rewrite <- !app_assoc.
    split; [reflexivity|]. split; [simpl; auto|].
    split; [auto|]. split; [auto|].
    intros [x Hx]. congruence.
Qed.

(** The loop over entries all of which the agent service resolves. *)
Lemma refresh_all (l : list AgentData.t) (w : World) :
  (forall tr a, In a l ->
     exists ag, getAgent host tr (AgentData.id a) = Ok (Some ag) /\
                Agent.id ag = AgentData.id a) ->
  exists w' evs,
    for_of l (refresh host ns) w = (Ok tt, w') /\
    trace w' = trace w ++ evs /\
    (forall a, In a l ->
       exists u, In (EUpdatePolicy (AgentData.id a) u) evs /\
                 PolicyUpdate.allowed u = Some (steamAllowed ns)) /\
    (forall k, has_entry k (state w) -> has_entry k (state w')) /\
    (forall k, stores (steamAllowed ns) k (state w) ->
               stores (steamAllowed ns) k (state w')) /\
    (forall a, In a l -> has_entry (AgentData.id a) (state w) ->
       stores (steamAllowed ns) (AgentData.id a) (state w')).
Proof.
  revert w. induction l as [|a l IH]; intros w Hres.
  - exists w, []. rewrite app_nil_r. repeat split; auto; intros ? [].
  - destruct (Hres (trace w) a (or_introl eq_refl)) as (ag & Hget & Hid).
    destruct (refresh_effect a ag w Hget Hid)
      as (w1 & evs1 & Hrun1 & Htr1 & Hin1 & Hent1 & Hsto1 & Hnew1).
    destruct (IH w1) as (w' & evs & Hrun & Htr & Hin & Hent & Hsto & Hnew).
    { intros tr x Hx. apply Hres. now right. }
    exists w', (evs1 ++ evs). simpl. unfold bind. rewrite Hrun1.
    split; [exact Hrun|]. rewrite Htr, Htr1, app_assoc.
    split; [reflexivity|]. split; [|split; [|split]].
    + intros x [<-|Hx].
      * eexists. split; [apply in_or_app; left; exact Hin1 | reflexivity].
      * destruct (Hin x Hx) as (u & Hu & Hd). exists u.
        split; [apply in_or_app; now right | exact Hd].
    + auto.
    + auto.
    + intros x [<-|Hx] Hhas; [apply Hsto, Hnew1, Hhas | apply Hnew; auto].
Qed.

End Responsive.

End WithHost.
Lemma steamAllowed_true (ns : Allow2State.t) :
  steamAllowed ns = true <-> may_run ns.
Proof.
  unfold steamAllowed, may_run, gt0. rewrite andb_true_iff, negb_true_iff.
  destruct (Allow2State.quota ns) as [q|].
  - rewrite Z.ltb_lt. split; [intros [? ?]; eauto | intros [? (q' & [= <-] & ?)]; auto].
  - split; [intros [_ ?]; discriminate | intros [_ (q & ? & _)]; discriminate].
Qed.

Lemma steamAllowed_false (ns : Allow2State.t) :
  steamAllowed ns = false <-> must_block ns.
Proof.
  unfold steamAllowed, must_block, gt0. rewrite andb_false_iff, negb_false_iff.
  destruct (Allow2State.quota ns) as [q|].
  - now rewrite Z.ltb_ge.
  - split; [intros [?|_]; auto | intros [?|_]; auto].
Qed.

(** C1.  Take an authorization update for a subject, a state whose agent
    entries are stored under their own ids, and an agent service that
    returns the live record of every agent linked to the subject and
    accepts update-policy calls.  The decision is [true] exactly when the
    update is not paused and its quota is above zero, and [false] exactly
    when it is paused or has no quota above zero.  The listener returns
    normally; every update-policy call it issues carries the decision; and
    for every agent linked to the subject such a call is issued for that
    agent and the agent's stored entry records the same value. *)
Theorem authorization_update_sets_allowed
    (host : Host) (childId : string) (ns : Allow2State.t) (w : World) :
  keyed_by_id (state w) ->
  (forall tr k a, In (k, a) (agents (state w)) ->
     AgentData.childId a = Some (Some childId) ->
     exists ag, getAgent host tr k = Ok (Some ag) /\ Agent.id ag = k) ->
  (forall tr k u, updatePolicy host tr k u = Ok tt) ->
  (steamAllowed ns = true <-> may_run ns) /\
  (steamAllowed ns = false <-> must_block ns) /\
  exists w' evs,
    on_stateChange host childId ns w = (Ok tt, w') /\
    trace w' = trace w ++ evs /\
    Forall (decided ns) evs /\
    forall k a, JSObj.get k (agents (state w)) = Some a ->
      AgentData.childId a = Some (Some childId) ->
      (exists u, In (EUpdatePolicy k u) evs /\
                 PolicyUpdate.allowed u = Some (steamAllowed ns)) /\
      stores (steamAllowed ns) k (state w').
Proof.
  intros Hids Hres Hacc.
  split; [apply steamAllowed_true|]. split; [apply steamAllowed_false|].
  destruct (on_stateChange_step host childId ns w) as (w' & evs & Hrun & Htr & Hev & _).
  exists w', evs. split; [exact Hrun|]. split; [exact Htr|]. split; [exact Hev|].
  intros k a Hk Hlinked.
  assert (Hin : In (k, a) (agents (state w))) by now apply JSObjFacts.get_Some_In.
  assert (Hid : AgentData.id a = k) by now apply Hids.
  destruct (refresh_all host Hacc ns
              (List.filter (linked_to childId) (JSObj.values (agents (state w)))) w)
    as (w2 & evs2 & Hrun2 & Htr2 & Hcalls & _ & _ & Hstored).
  { intros tr x Hx. apply filter_In in Hx as [Hx Hl].
    apply JSObjFacts.In_values in Hx as [kx Hkx].
    rewrite (Hids kx x Hkx). apply (Hres tr kx x Hkx).
    unfold linked_to in Hl.
    destruct (AgentData.childId x) as [[c|]|]; try discriminate.
    apply String.eqb_eq in Hl. now subst. }
  unfold on_stateChange, bind, get_state in Hrun. rewrite Hrun2 in Hrun.
  injection Hrun as <-. rewrite Htr2 in Htr. apply app_inv_head in Htr as <-.
  assert (Hmem : In a (List.filter (linked_to childId) (JSObj.values (agents (state w))))).
  { apply filter_In. split; [apply JSObjFacts.In_values; eauto|].
    unfold linked_to. rewrite Hlinked. apply String.eqb_refl. }
  rewrite <- Hid. split; [apply Hcalls, Hmem|].
  apply Hstored; [exact Hmem|]. rewrite Hid. exists a. exact Hk.
Qed.

(** C1, at the update [{paused: false, quota: 10}] for subject [S1], to
    which agent [A1] is linked. *)
Lemma authorization_update_sets_allowed_witness :
  keyed_by_id (state Examples.linked_world) /\
  (forall tr k a, In (k, a) (agents (state Examples.linked_world)) ->
     AgentData.childId a = Some (Some "S1") ->
     exists ag, getAgent Examples.responsive_host tr k = Ok (Some ag) /\
                Agent.id ag = k) /\
  (forall tr k u, updatePolicy Examples.responsive_host tr k u = Ok tt) /\
  (steamAllowed Examples.quota_left = true <-> may_run Examples.quota_left) /\
  (steamAllowed Examples.quota_left = false <-> must_block Examples.quota_left) /\
  exists w' evs,
    on_stateChange Examples.responsive_host "S1" Examples.quota_left
      Examples.linked_world = (Ok tt, w') /\
    trace w' = trace Examples.linked_world ++ evs /\
    Forall (decided Examples.quota_left) evs /\
    forall k a, JSObj.get k (agents (state Examples.linked_world)) = Some a ->
      AgentData.childId a = Some (Some "S1") ->
      (exists u, In (EUpdatePolicy k u) evs /\
                 PolicyUpdate.allowed u = Some (steamAllowed Examples.quota_left)) /\
      stores (steamAllowed Examples.quota_left) k (state w').
Proof.
  assert (H1 : keyed_by_id (state Examples.linked_world)).
  { intros k a [Heq|[]]. injection Heq as <- <-. reflexivity. }
  assert (H2 : forall tr k a, In (k, a) (agents (state Examples.linked_world)) ->
     AgentData.childId a = Some (Some "S1") ->
     exists ag, getAgent Examples.responsive_host tr k = Ok (Some ag) /\
                Agent.id ag = k).
  { intros tr k a _ _. eexists. split; reflexivity. }
  assert (H3 : forall tr k u, updatePolicy Examples.responsive_host tr k u = Ok tt).
  { reflexivity. }
  split; [exact H1|]. split; [exact H2|]. split; [exact H3|].
  exact (authorization_update_sets_allowed Examples.responsive_host "S1"
           Examples.quota_left Examples.linked_world H1 H2 H3).
Defined.

(** The scenario of the state machine, run: with quota left the call for
    [A1] carries [allowed = true] and the entry records it; a later paused
    update carries and records [false]. *)
Example scenario_allowed_then_blocked :
  let w1 := snd (on_stateChange Examples.responsive_host "S1"
                   Examples.quota_left Examples.linked_world) in
  let w2 := snd (on_stateChange Examples.responsive_host "S1"
                   Examples.paused_now w1) in
  updated_for (trace w1) = ["A1"] /\
  (AgentData.allowed <$> JSObj.get "A1" (agents (state w1))) = Some (Some true) /\
  updated_for (trace w2) = ["A1"; "A1"] /\
  (AgentData.allowed <$> JSObj.get "A1" (agents (state w2))) = Some (Some false).
Proof. vm_compute. auto. Qed.

End Authorization.

(** ** Policies as created *)
Module PolicyCreation.
Import Plugin Obs PolicySpec PolicyConfiguration.

Lemma all_blocked_policies (s s' : State) :
  policies s' = policies s -> all_blocked s -> all_blocked s'.
Proof. unfold all_blocked. intros ->. auto. Qed.

(** C5, evaluated.  Whatever the agent service answers:
    - at discovery, every create-policy call is made for the discovered
      agent and is blocked, with the configured check interval,
      on-detected "check-quota" and on-violation "kill-process" or
      "notify-only" by the kill-on-violation setting; stored policies stay
      blocked; and for an agent with a recognised platform tag exactly one
      call is issued, which carries the process-name list of the agent's
      platform with the main name first;
    - at the listing in [onLoad] every call is made for a listed agent and
      is as described for that agent, and when all listed agents have
      recognised tags one call is issued per agent, in listing order;
    - a successful call for a recognised agent stores a blocked policy
      record with the names of its platform;
    - an authorization update leaves the stored policy records as they
      are, so a record stays blocked until such an update and after it;
    - for the agent [{id: "A1", hostname: "h1", platform: "constructor"}]
      a create-policy call is issued that carries no process name and, in
      place of a process-name list, the member [constructor] of
      [Object.prototype]: not the names of any platform. *)
Theorem create_policy_as_described (host : Host) :
  (forall agent w, exists r w' evs,
      on_agentDiscovered host agent w = (r, w') /\
      trace w' = trace w ++ evs /\
      calls_described (settings (state w)) [agent] evs /\
      (all_blocked (state w) -> all_blocked (state w')) /\
      (recognised agent ->
       exists p rest,
         evs = ECreatePolicy (Agent.id agent) p :: rest /\
         names_of_platform agent p /\
         created_for rest = [])) /\
  (forall loadState w, exists r w' evs,
      onLoad host loadState w = (r, w') /\
      trace w' = trace w ++ evs /\
      calls_described (settings (default default_state loadState))
        (listed_at_load host w) evs /\
      (all_blocked (default default_state loadState) -> all_blocked (state w')) /\
      (forall listed,
         listAgents host (trace w) = Ok listed ->
         Forall recognised listed ->
         created_for evs = map Agent.id listed)) /\
  (forall agent names w,
      documented_names (platform_tag agent) = Some names ->
      createPolicy host (trace w) (Agent.id agent)
        (policy_object (platform_tag agent) (Names names) (state w)) = Ok tt ->
      exists pol,
        policies (state (snd (configureSteamPolicy host agent w))) !! Agent.id agent
          = Some pol /\
        Policy.allowed pol = false /\
        Policy.processName pol = head names /\
        Policy.alternativeProcesses pol = Names names /\
        Policy.checkInterval pol = Settings.checkInterval (settings (state w))) /\
  (forall childId ns w,
      policies (state (snd (on_stateChange host childId ns w))) = policies (state w)) /\
  (forall w, exists p rest,
      trace (snd (on_agentDiscovered host Examples.constructor_agent w))
        = trace w ++ ECreatePolicy "A1" p :: rest /\
      CreatePolicy.processName p = None /\
      CreatePolicy.processAlternatives p = Member "constructor" /\
      CreatePolicy.allowed p = false /\
      ~ names_of_platform Examples.constructor_agent p).
Proof.
  split; [|split; [|split; [|split]]].
  - intros agent w.
    destruct (on_agentDiscovered_shape host agent w)
      as (r & w' & tail & Hrun & Htr & Hpol & Hnone & Htail).
    destruct (configure_step host agent w)
      as (r1 & w1 & evs1 & Hrun1 & Htr1 & _ & _ & Hev1 & Hb1).
    destruct (configure_described host agent w) as (evs2 & Htr2 & Hcd).
    rewrite Hrun1 in Htr, Hpol, Htr2. simpl in Htr, Hpol, Htr2.
    assert (evs2 = evs1) as -> by (rewrite Htr1 in Htr2; now apply app_inv_head in Htr2).
    exists r, w', (evs1 ++ tail). split; [exact Hrun|].
    split; [now rewrite Htr, Htr1, app_assoc|].
    split; [apply calls_described_app; [exact Hcd | now apply calls_described_none]|].
    split; [intros Hb; apply (all_blocked_policies _ _ Hpol); auto|].
    intros Hrec. apply recognised_names in Hrec as [names Hn].
    rewrite (configure_recognised host agent names w Hn) in Hrun1. cbv zeta in Hrun1.
    exists (policy_object (platform_tag agent) (Names names) (state w)).
    destruct (createPolicy host (trace w) (Agent.id agent) _);
      injection Hrun1 as _ <-; simpl in Htr1; rewrite <- app_assoc in Htr1;
      apply app_inv_head in Htr1 as <-; eexists;
      (split; [reflexivity|]); (split; [now apply recognised_policy|]);
      simpl; exact Hnone.
  - intros loadState w.
    destruct (onLoad_shape host loadState w) as (w2 & tail & Hrun & Hnone & Htail & Hw2).
    set (se := settings (default default_state loadState)).
    set (w0 := {| state := default default_state loadState;
                  trace := trace w ++ [EListAgents] |}).
    assert (Hinv : forall listed,
      exists evs,
        trace (snd (for_of listed (configureSteamPolicy host) w0))
          = (trace w ++ [EListAgents]) ++ evs /\
        Forall (as_described se) evs /\
        calls_described se listed evs /\
        settings (state (snd (for_of listed (configureSteamPolicy host) w0))) = se /\
        (all_blocked (default default_state loadState) ->
         all_blocked (state (snd (for_of listed (configureSteamPolicy host) w0))))).
    { intros listed.
      apply (for_of_invariant_in
               (fun x => exists evs,
                  trace x = (trace w ++ [EListAgents]) ++ evs /\
                  Forall (as_described se) evs /\
                  calls_described se listed evs /\
                  settings (state x) = se /\
                  (all_blocked (default default_state loadState) -> all_blocked (state x)))).
      - intros agent x Hin Hx. now apply configure_keeps.
      - exists []. rewrite app_nil_r. simpl.
        split; [reflexivity|]. split; [constructor|].
        split; [intros ? ? []|]. split; [reflexivity | auto]. }
    unfold listed_at_load.
    destruct (listAgents host (trace w)) as [listed|e] eqn:El.
    + destruct (Hinv listed) as (evs & Htr & Hev & Hcd & _ & Hb).
      fold w0 in Hw2. rewrite <- Hw2 in Htr, Hb.
      eexists. eexists. exists ([EListAgents] ++ evs ++ tail).
      split; [exact Hrun|]. simpl trace. simpl state.
      split; [rewrite Htr, <- !app_assoc; reflexivity|].
      split.
      { apply calls_described_app; [now apply calls_described_none|].
        apply calls_described_app; [exact Hcd | now apply calls_described_none]. }
      split; [exact Hb|].
      intros l [= <-] Hrec.
      destruct (configure_all_recognised host listed w0 Hrec) as (w3 & Hrun3 & Hcr).
      rewrite Hrun3 in Hw2. simpl in Hw2. subst w3.
      rewrite Htr in Hcr. simpl in Hcr.
      rewrite !created_for_app in Hcr. simpl in Hcr.
      rewrite !app_nil_r in Hcr. apply app_inv_head in Hcr.
      simpl. rewrite created_for_app, Hnone, app_nil_r. exact Hcr.
    + subst w2. eexists. eexists. exists ([EListAgents] ++ tail).
      split; [exact Hrun|]. simpl.
      split; [rewrite <- app_assoc; reflexivity|].
      split; [apply (calls_described_none _ _ (EListAgents :: tail)); exact Hnone|].
      split; [auto|]. intros l Hl. discriminate.
  - intros agent names w Hn Hok.
    assert (Hown : Plugin.processNames (platform_tag agent) = JSObj.Own names).
    { rewrite documented_same in Hn.
      destruct (Plugin.processNames (platform_tag agent)); congruence. }
    rewrite (configure_recognised host agent names w Hown). cbv zeta. rewrite Hok.
    simpl. rewrite lookup_insert_eq. eexists. split; [reflexivity|].
    repeat split.
  - intros childId ns w.
    destruct (Authorization.on_stateChange_step host childId ns w)
      as (w' & evs & Hrun & _ & _ & Hpol).
    now rewrite Hrun.
  - intros w. unfold on_agentDiscovered, bind.
    rewrite (configure_issued host Examples.constructor_agent (Member "constructor") w)
      by reflexivity.
    cbv zeta.
    exists (policy_object "constructor" (Member "constructor") (state w)).
    destruct (createPolicy host (trace w) _ _);
      unfold date_now, call, modify, configurationUpdate; cbn [fst snd trace state];
      eexists; rewrite <- ?app_assoc; (split; [reflexivity|]);
      (split; [reflexivity|]); (split; [reflexivity|]); (split; [reflexivity|]);
      intros (names & Hn & _); discriminate.
Qed.

(** With kill-on-violation off, the call for a macOS agent carries
    "notify-only" and the macOS names. *)
Example create_policy_notify_only :
  created_policies
    (trace (snd (on_agentDiscovered Examples.quiet_host Examples.mac_agent
                   Examples.lenient_world))) =
  [("M1",
    {| CreatePolicy.processName := Some "steam_osx";
       CreatePolicy.processAlternatives :=
         Names ["steam_osx"; "Steam.app"; "steamwebhelper"];
       CreatePolicy.allowed := false;
       CreatePolicy.checkInterval := 45000;
       CreatePolicy.actions_onDetected := "check-quota";
       CreatePolicy.actions_onViolation := "notify-only";
       CreatePolicy.metadata_plugin := "@allow2/allow2automate-steam";
       CreatePolicy.metadata_category := "gaming";
       CreatePolicy.metadata_platform := "darwin" |})].
Proof. reflexivity. Qed.

(** The agent whose platform tag names a member of [Object.prototype] is
    discovered: the call goes out without a process name, and the policy
    is stored that way. *)
Example create_policy_without_names :
  let w' := snd (on_agentDiscovered Examples.quiet_host Examples.constructor_agent
                   initial_world) in
  created_policies (trace w') =
    [("A1",
      {| CreatePolicy.processName := None;
         CreatePolicy.processAlternatives := Member "constructor";
         CreatePolicy.allowed := false;
         CreatePolicy.checkInterval := 30000;
         CreatePolicy.actions_onDetected := "check-quota";
         CreatePolicy.actions_onViolation := "kill-process";
         CreatePolicy.metadata_plugin := "@allow2/allow2automate-steam";
         CreatePolicy.metadata_category := "gaming";
         CreatePolicy.metadata_platform := "constructor" |})] /\
  (Policy.processName <$> policies (state w') !! "A1") = Some None.
Proof. vm_compute. auto. Qed.

End PolicyCreation.

(** ** Fan-out over agents *)
Module FanOut.
Import Plugin Obs PolicySpec PolicyConfiguration FanOutSpec AuthSpec.

Lemma updated_for_app (l1 l2 : list Event) :
  updated_for (l1 ++ l2) = updated_for l1 ++ updated_for l2.
Proof.
  induction l1 as [|e l1 IH]; simpl; auto.
  destruct e; auto. simpl. now rewrite IH.
Qed.

Lemma console_errors_app (l1 l2 : list Event) :
  console_errors (l1 ++ l2) = (console_errors l1 + console_errors l2)%nat.
Proof.
  induction l1 as [|e l1 IH]; simpl; auto.
  destruct e; auto. now rewrite IH.
Qed.

Lemma calls_app (u : PolicyUpdate.t) (l1 l2 : list Agent.t) :
  calls u (l1 ++ l2) = calls u l1 ++ calls u l2.
Proof. apply map_app. Qed.

Lemma updated_for_calls (u : PolicyUpdate.t) (l : list Agent.t) :
  updated_for (calls u l) = map Agent.id l.
Proof. induction l as [|a l IH]; simpl; [reflexivity | now rewrite IH]. Qed.

Lemma console_errors_calls (u : PolicyUpdate.t) (l : list Agent.t) :
  console_errors (calls u l) = 0%nat.
Proof. induction l as [|a l IH]; simpl; auto. Qed.

(** A batch that is accepted from its second call on, after an accepted
    first call. *)
Lemma accepted_cons (host : Host) (u : PolicyUpdate.t) (tr : list Event)
    (a : Agent.t) (l : list Agent.t) :
  accepted host u tr (a :: l) <->
  updatePolicy host tr (Agent.id a) u = Ok tt /\
  accepted host u (tr ++ [EUpdatePolicy (Agent.id a) u]) l.
Proof.
  unfold accepted. split.
  - intros H. split.
    + specialize (H [] a l eq_refl). simpl in H. now rewrite app_nil_r in H.
    + intros l1 b l2 ->. specialize (H (a :: l1) b l2 eq_refl).
      simpl in H. now rewrite <- app_assoc.
  - intros [H0 H] l1 b l2 Heq. destruct l1 as [|x l1]; simpl in Heq.
    + injection Heq as <- <-. simpl. now rewrite app_nil_r.
    + injection Heq as <- ->. specialize (H l1 b l2 eq_refl).
      simpl. now rewrite <- app_assoc in H.
Qed.

(** Every batch is accepted or fails first at one of its agents. *)
Lemma accepted_or_fails (host : Host) (u : PolicyUpdate.t) (l : list Agent.t) :
  forall tr,
    accepted host u tr l \/ exists l1 a e, fails_at host u tr l l1 a e.
Proof.
  induction l as [|a l IH]; intros tr.
  - left. intros l1 b l2 Heq. destruct l1; discriminate.
  - destruct (updatePolicy host tr (Agent.id a) u) as [[]|e] eqn:E.
    + destruct (IH (tr ++ [EUpdatePolicy (Agent.id a) u]))
        as [Hacc|(l1 & b & e & (l2 & ->) & Hacc & Hfail)].
      * left. apply accepted_cons. auto.
      * right. exists (a :: l1), b, e. split; [now exists l2|].
        split; [apply accepted_cons; auto|].
        simpl. now rewrite <- app_assoc in Hfail.
    + right. exists [], a, e. split; [now exists l|]. split.
      * intros l1 b l2 Heq. destruct l1; discriminate.
      * simpl. now rewrite app_nil_r.
Qed.

Section Batch.
Variable host : Host.
Variable u : PolicyUpdate.t.
Variable body : Agent.t -> M World unit.

(** The body of a loop that sends [u] to the agents that have a policy. *)
Hypothesis body_sends :
  forall agent w,
    body agent w =
      if has_policy (state w) (Agent.id agent)
      then (updatePolicy host (trace w) (Agent.id agent) u,
            {| state := state w;
               trace := trace w ++ [EUpdatePolicy (Agent.id agent) u] |})
      else (Ok tt, w).

(** An accepted batch: every target gets its call, in order, and nothing
    else happens. *)
Lemma batch_accepted (listed : list Agent.t) :
  forall w,
    accepted host u (trace w) (targets (state w) listed) ->
    for_of listed body w =
      (Ok tt, {| state := state w;
                 trace := trace w ++ calls u (targets (state w) listed) |}).
Proof.
  induction listed as [|agent listed IH]; intros w Hacc.
  - simpl. rewrite app_nil_r. now destruct w.
  - simpl. unfold bind. rewrite body_sends. unfold targets in *. simpl in *.
    destruct (has_policy (state w) (Agent.id agent)).
    + apply accepted_cons in Hacc as [H0 Hacc]. rewrite H0.
      rewrite (IH {| state := state w;
                     trace := trace w ++ [EUpdatePolicy (Agent.id agent) u] |} Hacc).
      simpl. now rewrite <- app_assoc.
    + now apply IH.
Qed.

(** A batch that fails: the calls go to the targets up to and including
    the one whose call fails, the loop throws that call's error, and
    nothing else happens. *)
Lemma batch_fails (listed : list Agent.t) :
  forall w l1 a e,
    fails_at host u (trace w) (targets (state w) listed) l1 a e ->
    for_of listed body w =
      (Throw e, {| state := state w;
                   trace := trace w ++ calls u (l1 ++ [a]) |}).
Proof.
  induction listed as [|agent listed IH]; intros w l1 a e ((l2 & Heq) & Hacc & Hfail).
  - destruct l1; discriminate.
  - simpl. unfold bind. rewrite body_sends. unfold targets in *. simpl in *.
    destruct (has_policy (state w) (Agent.id agent)).
    + destruct l1 as [|x l1]; simpl in Heq; injection Heq as <- Heq.
      * simpl in Hfail. rewrite app_nil_r in Hfail. now rewrite Hfail.
      * apply accepted_cons in Hacc as [H0 Hacc]. rewrite H0.
        rewrite (IH {| state := state w;
                       trace := trace w ++ [EUpdatePolicy (Agent.id agent) u] |}
                    l1 a e).
        -- simpl. now rewrite <- app_assoc.
        -- split; [now exists l2|]. split; [exact Hacc|].
           simpl. simpl in Hfail. now rewrite <- app_assoc.
    + apply IH. split; [now exists l2|]. auto.
Qed.

(** What every run of the loop keeps. *)
Lemma batch_run (listed : list Agent.t) (w : World) :
  exists r w',
    for_of listed body w = (r, w') /\
    state w' = state w /\
    console_errors (trace w') = console_errors (trace w) /\
    match r with
    | Ok _ =>
        updated_for (trace w') =
          updated_for (trace w) ++ map Agent.id (targets (state w) listed)
    | Throw _ =>
        exists l1 a l2,
          targets (state w) listed = l1 ++ a :: l2 /\
          updated_for (trace w') =
            updated_for (trace w) ++ map Agent.id (l1 ++ [a])
    end.
Proof.
  destruct (accepted_or_fails host u (targets (state w) listed) (trace w))
    as [Hacc|(l1 & a & e & Hf)].
  - rewrite (batch_accepted listed w Hacc). do 2 eexists. split; [reflexivity|].
    simpl. rewrite console_errors_app, console_errors_calls, updated_for_app,
      updated_for_calls. split; [reflexivity|]. split; [lia | reflexivity].
  - rewrite (batch_fails listed w l1 a e Hf). do 2 eexists. split; [reflexivity|].
    simpl. rewrite console_errors_app, console_errors_calls, updated_for_app,
      updated_for_calls. split; [reflexivity|]. split; [lia|].
    destruct Hf as ((l2 & Heq) & _). exists l1, a, l2. auto.
Qed.

End Batch.

Lemma push_interval_sends (host : Host) (patch : SettingsPatch.t)
    (agent : Agent.t) (w : World) :
  push_interval host patch agent w =
    if has_policy (state w) (Agent.id agent)
    then (updatePolicy host (trace w) (Agent.id agent) (MoreSpec.interval_update patch),
          {| state := state w;
             trace := trace w ++
               [EUpdatePolicy (Agent.id agent) (MoreSpec.interval_update patch)] |})
    else (Ok tt, w).
Proof.
  unfold push_interval, bind, get_state.
  destruct (has_policy (state w) (Agent.id agent)); reflexivity.
Qed.

Section WithHost.
Variable host : Host.
Variable patch : SettingsPatch.t.

(** The propagation loop: update-policy calls go, in listing order, to the
    listed agents that have a policy, up to and including the first call
    that fails; the state is not touched and nothing is written to the
    console. *)
Lemma push_interval_loop (listed : list Agent.t) (w : World) :
  exists r w',
    for_of listed (push_interval host patch) w = (r, w') /\
    state w' = state w /\
    console_errors (trace w') = console_errors (trace w) /\
    match r with
    | Ok _ =>
        updated_for (trace w') =
          updated_for (trace w) ++ map Agent.id (targets (state w) listed)
    | Throw _ =>
        exists l1 a l2,
          targets (state w) listed = l1 ++ a :: l2 /\
          updated_for (trace w') =
            updated_for (trace w) ++ map Agent.id (l1 ++ [a])
    end.
Proof.
  apply (batch_run host (MoreSpec.interval_update patch)).
  apply push_interval_sends.
Qed.

End WithHost.

(** [steam:updateSettings]: the merged settings are stored and persisted
    first; the calls follow only for a truthy check interval. *)
Lemma updateSettings_run (host : Host) (patch : SettingsPatch.t) (w : World) :
  updateSettings host patch w =
    let s1 := with_settings (fun old => merge_settings old patch) (state w) in
    let w1 := {| state := s1; trace := trace w ++ [EConfigurationUpdate s1] |} in
    if truthy_num (SettingsPatch.checkInterval patch) then
      match listAgents host (trace w1) with
      | Ok listed =>
          match for_of listed (push_interval host patch)
                  {| state := s1; trace := trace w1 ++ [EListAgents] |} with
          | (Ok _, w') => (Ok (IpcOk {| success := true |}), w')
          | (Throw e, w') => (Ok (IpcErr e), w')
          end
      | Throw e =>
          (Ok (IpcErr e), {| state := s1; trace := trace w1 ++ [EListAgents] |})
      end
    else (Ok (IpcOk {| success := true |}), w1).
Proof.
  unfold updateSettings, ipc_handler, try_catch, bind, modify, configurationUpdate,
    agentService_listAgents, call, ret. simpl.
  destruct (truthy_num (SettingsPatch.checkInterval patch)); [|reflexivity].
  destruct (listAgents host _) as [listed|e]; [|reflexivity].
  destruct (for_of listed (push_interval host patch) _) as [[[]|e] w']; reflexivity.
Qed.



(** At load the failure of [A1]'s call does not stop the batch: both calls
    are attempted, one error line is written, and [A2] gets its policy. *)
Example load_continues_after_failure :
  let w' := snd (onLoad Examples.flaky_create_host None initial_world) in
  created_for (trace w') = ["A1"; "A2"] /\
  console_errors (trace w') = 1%nat /\
  policies (state w') !! "A1" = None /\
  (Policy.processName <$> policies (state w') !! "A2") = Some (Some "steam").
Proof. vm_compute. auto. Qed.

End FanOut.

(** ** Request handlers *)
Module Handlers.
Import Plugin Obs LinkSpec.

Lemma set_absent {V} (k : string) (v : V) (o : list (string * V)) :
  JSObj.get k o = None -> JSObj.set k v o = o ++ [(k, v)].
Proof.
  induction o as [|[k' v'] o IH]; simpl; auto.
  destruct (String.eqb k k'); [discriminate|].
  intros H. now rewrite IH.
Qed.

(** [steam:linkAgent] for an id that is an entry of the map or for which
    [state.agents[agentId]] is [undefined]. *)
Lemma linkAgent_run (agentId childId : string) (w : World) :
  JSObj.lookup agentId (agents (state w)) <> JSObj.Inherited ->
  linkAgent agentId childId w =
    let entry := default (AgentData.fresh agentId) (JSObj.get agentId (agents (state w))) in
    let s' := with_agents
                (JSObj.set agentId
                   (AgentData.set_enabled true
                      (AgentData.set_childId (Some childId) entry)))
                (state w) in
    (Ok (IpcOk {| success := true |}),
     {| state := s'; trace := trace w ++ [EConfigurationUpdate s'] |}).
Proof.
  destruct w as [[ag ch po vi se ls] tr]. intros Hni.
  unfold linkAgent, ipc_handler, try_catch, bind, get_state, modify, assign_agent,
    configurationUpdate, ret, with_agents.
  cbn -[JSObj.lookup JSObj.get JSObj.set] in *.
  destruct (JSObj.lookup agentId ag) as [entry| |] eqn:E;
    cbn -[JSObj.lookup JSObj.get JSObj.set]; [|congruence|].
  - rewrite E. cbn -[JSObj.lookup JSObj.get JSObj.set].
    rewrite JSObjFacts.lookup_set_eq. cbn -[JSObj.lookup JSObj.get JSObj.set].
    apply JSObjFacts.lookup_Own in E. rewrite E.
    cbn -[JSObj.lookup JSObj.get JSObj.set].
    now rewrite JSObjFacts.set_set_eq.
  - rewrite JSObjFacts.lookup_set_eq. cbn -[JSObj.lookup JSObj.get JSObj.set].
    rewrite JSObjFacts.lookup_set_eq. cbn -[JSObj.lookup JSObj.get JSObj.set].
    apply JSObjFacts.lookup_Missing in E as [E _]. rewrite E.
    cbn -[JSObj.lookup JSObj.get JSObj.set].
    now rewrite !JSObjFacts.set_set_eq.
Qed.

(** [steam:linkAgent] for an id that is no entry of the map and names a
    member of [Object.prototype]: no entry is created, the two fields are
    written on that member. *)
Lemma linkAgent_member (agentId childId : string) (w : World) :
  JSObj.lookup agentId (agents (state w)) = JSObj.Inherited ->
  linkAgent agentId childId w =
    (Ok (IpcOk {| success := true |}),
     {| state := state w;
        trace := trace w ++
          [EMemberWrite agentId (SetChildId (Some childId));
           EMemberWrite agentId (SetEnabled true);
           EConfigurationUpdate (state w)] |}).
Proof.
  destruct w as [s tr]. intros E.
  unfold linkAgent, ipc_handler, try_catch, bind, get_state, modify, assign_agent,
    configurationUpdate, ret.
  cbn -[JSObj.lookup] in *. rewrite E. cbn -[JSObj.lookup]. rewrite E.
  cbn -[JSObj.lookup]. rewrite E. cbn -[JSObj.lookup].
  now rewrite <- !app_assoc.
Qed.

Lemma unlinkAgent_run (agentId : string) (w : World) :
  unlinkAgent agentId w =
    (Ok (IpcOk {| success := true |}),
     {| state := unlinked agentId (state w);
        trace := trace w ++ unlink_writes agentId (state w) ++
                 [EConfigurationUpdate (unlinked agentId (state w))] |}).
Proof.
  destruct w as [[ag ch po vi se ls] tr].
  unfold unlinkAgent, unlinked, unlink_writes, unlinked_entry, ipc_handler, try_catch,
    bind, get_state, modify, assign_agent, configurationUpdate, ret, with_agents.
  cbn -[JSObj.lookup JSObj.get JSObj.set].
  destruct (JSObj.lookup agentId ag) as [entry| |] eqn:E;
    cbn -[JSObj.lookup JSObj.get JSObj.set].
  - rewrite E. cbn -[JSObj.lookup JSObj.get JSObj.set].
    rewrite JSObjFacts.lookup_set_eq. cbn -[JSObj.lookup JSObj.get JSObj.set].
    apply JSObjFacts.lookup_Own in E. rewrite E.
    cbn -[JSObj.lookup JSObj.get JSObj.set].
    now rewrite JSObjFacts.set_set_eq.
  - rewrite E. cbn -[JSObj.lookup JSObj.get JSObj.set]. rewrite E.
    cbn -[JSObj.lookup JSObj.get JSObj.set].
    apply JSObjFacts.lookup_Inherited in E as [E _]. rewrite E.
    now rewrite <- !app_assoc.
  - apply JSObjFacts.lookup_Missing in E as [E _]. now rewrite E.
Qed.

Lemma unlinked_entry_twice (a : AgentData.t) :
  unlinked_entry (unlinked_entry a) = unlinked_entry a.
Proof. reflexivity. Qed.

Lemma unlinked_twice (agentId : string) (s : State) :
  unlinked agentId (unlinked agentId s) = unlinked agentId s.
Proof.
  unfold unlinked. destruct s as [ag ch po vi se ls]. cbn -[JSObj.get JSObj.set].
  destruct (JSObj.get agentId ag) as [a|] eqn:E; cbn -[JSObj.get JSObj.set].
  - rewrite JSObjFacts.get_set_eq. unfold with_agents. cbn -[JSObj.get JSObj.set].
    now rewrite unlinked_entry_twice, JSObjFacts.set_set_eq.
  - now rewrite E.
Qed.

(** C10, evaluated.  For an agent id for which [state.agents[agentId]] is
    [undefined], [steam:linkAgent] does not fail: it answers with success,
    adds at the end of the map an entry that holds the id, the given child
    id and [enabled = true] and nothing else, leaves every other entry and
    the rest of the state as they were, and persists the new state.  The
    id [constructor] is not present in the agents map of a new plugin
    either, and for it the handler answers with success without creating
    a record: the map stays empty, the state is persisted as it was, and
    the child id and the flag are written on the member [constructor] of
    [Object.prototype]. *)
Theorem link_unknown_agent :
  (forall agentId childId w,
     JSObj.lookup agentId (agents (state w)) = JSObj.Missing ->
     exists s',
       linkAgent agentId childId w =
         (Ok (IpcOk {| success := true |}),
          {| state := s'; trace := trace w ++ [EConfigurationUpdate s'] |}) /\
       agents s' = agents (state w) ++ [(agentId, linked_fresh agentId childId)] /\
       JSObj.get agentId (agents s') = Some (linked_fresh agentId childId) /\
       (forall k, k <> agentId ->
          JSObj.get k (agents s') = JSObj.get k (agents (state w))) /\
       children s' = children (state w) /\
       policies s' = policies (state w) /\
       violations s' = violations (state w) /\
       settings s' = settings (state w) /\
       lastSync s' = lastSync (state w)) /\
  JSObj.get "constructor" (agents (state initial_world)) = None /\
  linkAgent "constructor" "S1" initial_world =
    (Ok (IpcOk {| success := true |}),
     {| state := default_state;
        trace := [EMemberWrite "constructor" (SetChildId (Some "S1"));
                  EMemberWrite "constructor" (SetEnabled true);
                  EConfigurationUpdate default_state] |}) /\
  agents (state (snd (linkAgent "constructor" "S1" initial_world))) = [].
Proof.
  split; [|repeat split].
  intros agentId childId w Hmiss.
  rewrite linkAgent_run by congruence.
  apply JSObjFacts.lookup_Missing in Hmiss as [Hnone _].
  rewrite Hnone. cbv zeta. simpl default.
  eexists. split; [reflexivity|]. simpl.
  split; [now apply set_absent|].
  split; [apply JSObjFacts.get_set_eq|].
  split; [intros k Hk; apply JSObjFacts.get_set_ne; congruence|].
  repeat split.
Qed.

(** At a new plugin, linking the unknown agent [A1] to [S1] adds the
    entry. *)
Example link_of_unknown_A1 :
  agents (state (snd (linkAgent "A1" "S1" initial_world)))
    = [("A1", linked_fresh "A1" "S1")].
Proof. reflexivity. Qed.

(** C8, as amended.  For every agent id, [steam:unlinkAgent] answers with
    success both times and the second call leaves the state that the
    first one left.  When the agents map has an entry for the id, that
    entry then has [childId = null] and [enabled = false] and is otherwise
    as before; when it has none, the state is not changed and no entry is
    created. *)
Theorem unlink_twice (agentId : string) (w : World) :
  exists w1 w2,
    unlinkAgent agentId w = (Ok (IpcOk {| success := true |}), w1) /\
    unlinkAgent agentId w1 = (Ok (IpcOk {| success := true |}), w2) /\
    state w2 = state w1 /\
    (forall a, JSObj.get agentId (agents (state w)) = Some a ->
       JSObj.get agentId (agents (state w1)) = Some (unlinked_entry a) /\
       AgentData.childId (unlinked_entry a) = Some None /\
       AgentData.enabled (unlinked_entry a) = Some false) /\
    (JSObj.get agentId (agents (state w)) = None -> state w1 = state w).
Proof.
  do 2 eexists. split; [apply unlinkAgent_run|].
  split; [apply unlinkAgent_run|]. simpl.
  split; [apply unlinked_twice|]. split.
  - intros a Ha. unfold unlinked. rewrite Ha. simpl.
    rewrite JSObjFacts.get_set_eq. repeat split.
  - intros Hnone. unfold unlinked. now rewrite Hnone.
Qed.

(** C8, as stated, fails for an id without an entry: after two calls for
    [A1] on a new plugin, both answered with success, there is still no
    entry for [A1], hence none whose [childId] is [null] and whose
    [enabled] is [false]. *)
Lemma unlink_unknown_leaves_no_entry :
  exists w1 w2,
    unlinkAgent "A1" initial_world = (Ok (IpcOk {| success := true |}), w1) /\
    unlinkAgent "A1" w1 = (Ok (IpcOk {| success := true |}), w2) /\
    JSObj.get "A1" (agents (state w2)) = None /\
    ~ (exists a, JSObj.get "A1" (agents (state w2)) = Some a /\
                 AgentData.childId a = Some None /\
                 AgentData.enabled a = Some false).
Proof.
  do 2 eexists. split; [reflexivity|]. split; [reflexivity|].
  split; [reflexivity|]. intros (a & Ha & _). discriminate.
Qed.

(** C9.  Whatever the prior state and whatever the agent service answers,
    after [steam:updateSettings] with [{checkInterval: 60000}] the handler
    [steam:getSettings] returns settings whose check interval is 60000 and
    whose kill-on-violation and notify-parent flags are the prior ones. *)
Theorem settings_round_trip (host : Host) (w : World) :
  exists r w1 s,
    updateSettings host
      {| SettingsPatch.checkInterval := Some 60000;
         SettingsPatch.killOnViolation := None;
         SettingsPatch.notifyParent := None |} w = (Ok r, w1) /\
    getSettings w1 = (Ok (IpcOk s), w1) /\
    Settings.checkInterval s = 60000 /\
    Settings.killOnViolation s = Settings.killOnViolation (settings (state w)) /\
    Settings.notifyParent s = Settings.notifyParent (settings (state w)).
Proof.
  rewrite FanOut.updateSettings_run. cbv zeta. simpl truthy_num. cbv iota.
  destruct (listAgents host _) as [listed|e].
  - match goal with
    | |- context [for_of listed ?body ?w0] =>
        destruct (FanOut.push_interval_loop host
                    {| SettingsPatch.checkInterval := Some 60000;
                       SettingsPatch.killOnViolation := None;
                       SettingsPatch.notifyParent := None |} listed w0)
          as (r & w' & Hrun & Hst & _)
    end.
    rewrite Hrun.
    destruct r as [[]|e]; do 3 eexists;
      (split; [reflexivity|]);
      unfold getSettings, ipc_handler, try_catch, bind, get_state, ret;
      (split; [reflexivity|]); rewrite Hst; simpl; auto.
  - do 3 eexists. split; [reflexivity|].
    unfold getSettings, ipc_handler, try_catch, bind, get_state, ret.
    split; [reflexivity|]. simpl. auto.
Qed.

End Handlers.

(** ** Agent entries and their ids *)
Module EntryIds.
Import Plugin Obs AuthSpec LinkSpec.

(** The plugin keeps every agent entry under its own id: the default
    state has no entries, and the handlers that write entries write them
    under the id they carry.  This is the first hypothesis of the theorem
    on authorization updates. *)
Lemma keyed_by_id_set (k : string) (v : AgentData.t) (s : State) :
  AgentData.id v = k -> keyed_by_id s ->
  keyed_by_id (with_agents (JSObj.set k v) s).
Proof.
  intros Hv Hs k' a' Hin. simpl in Hin.
  apply JSObjFacts.In_set in Hin as [[= -> ->]|Hin]; auto.
Qed.

Lemma keyed_by_id_default : keyed_by_id default_state.
Proof. intros k a []. Qed.

Lemma keyed_by_id_linkAgent (agentId childId : string) (w : World) :
  keyed_by_id (state w) -> keyed_by_id (state (snd (linkAgent agentId childId w))).
Proof.
  intros Hs.
  destruct (JSObj.lookup agentId (agents (state w))) as [entry0| |] eqn:El.
  2: { now rewrite (Handlers.linkAgent_member _ _ _ El). }
  all: rewrite Handlers.linkAgent_run by congruence; cbv zeta;
    cbn -[JSObj.set with_agents]; (apply keyed_by_id_set; [|exact Hs]);
    destruct (JSObj.get agentId (agents (state w))) as [entry|] eqn:E; simpl;
    [apply Hs; now apply JSObjFacts.get_Some_In | reflexivity].
Qed.

Lemma keyed_by_id_unlinkAgent (agentId : string) (w : World) :
  keyed_by_id (state w) -> keyed_by_id (state (snd (unlinkAgent agentId w))).
Proof.
  intros Hs. rewrite Handlers.unlinkAgent_run. simpl. unfold unlinked.
  destruct (JSObj.get agentId (agents (state w))) as [entry|] eqn:E; [|exact Hs].
  apply keyed_by_id_set; [|exact Hs].
  simpl. apply Hs. now apply JSObjFacts.get_Some_In.
Qed.

Lemma keyed_by_id_discovered (host : Host) (agent : Agent.t) (w : World) :
  keyed_by_id (state w) ->
  keyed_by_id (state (snd (on_agentDiscovered host agent w))).
Proof.
  intros Hs.
  destruct (PolicyConfiguration.configure_step host agent w)
    as (r & w1 & evs & Hrun & _ & _ & Hag & _).
  unfold on_agentDiscovered, bind, date_now, call, modify, configurationUpdate.
  rewrite Hrun. destruct r as [[]|e]; cbn -[JSObj.set with_agents].
  - apply keyed_by_id_set; [reflexivity|].
    intros k a Hin. apply Hs. now rewrite <- Hag.
  - intros k a Hin. apply Hs. now rewrite <- Hag.
Qed.

Lemma keyed_by_id_update (host : Host) (agent : Agent.t) (ns : Allow2State.t)
    (w : World) :
  keyed_by_id (state w) ->
  keyed_by_id (state (snd (updateSteamPolicy host agent ns w))).
Proof.
  intros Hs. rewrite Authorization.updateSteamPolicy_run. cbv zeta.
  destruct (updatePolicy host (trace w) (Agent.id agent) _); [|exact Hs].
  destruct (JSObj.lookup (Agent.id agent) (agents (state w))) as [entry| |] eqn:E;
    [|exact Hs|exact Hs].
  apply JSObjFacts.lookup_Own in E.
  cbn -[JSObj.set with_agents]. apply keyed_by_id_set; [|exact Hs].
  simpl. apply Hs. now apply JSObjFacts.get_Some_In.
Qed.

Lemma keyed_by_id_stateChange (host : Host) (childId : string)
    (ns : Allow2State.t) (w : World) :
  keyed_by_id (state w) ->
  keyed_by_id (state (snd (on_stateChange host childId ns w))).
Proof.
  unfold on_stateChange, bind, get_state.
  apply (PolicyConfiguration.for_of_invariant (fun x => keyed_by_id (state x))).
  intros a x Hx.
  unfold refresh, try_catch, bind, agentService_getAgent, call, console_error, emit, ret.
  simpl. destruct (getAgent host (trace x) (AgentData.id a)) as [[ag|]|e]; simpl; auto.
  pose proof (keyed_by_id_update host ag ns
                {| state := state x; trace := trace x ++ [EGetAgent (AgentData.id a)] |} Hx)
    as Hk.
  destruct (updateSteamPolicy host ag ns _) as [[[]|e] x1]; exact Hk.
Qed.

End EntryIds.

(** ** The parser cache *)
Module ParserCache.
Import SteamVDFParser CacheSpec.

Section WithFs.
Variable fs : Fs.

(** A hit: one stat, the cached object, nothing else. *)
Lemma parseFile_hit (filePath : string) (entry : CacheEntry) (p : Parser) :
  cache p !! filePath = Some entry ->
  statSync_mtime fs (fs_trace p) filePath = Ok (mtime entry) ->
  parseFile fs filePath true p =
    (Ok (data entry),
     {| cache := cache p; next_ref := next_ref p;
        fs_trace := fs_trace p ++ [EStat filePath] |}).
Proof.
  intros Hc Hs.
  unfold parseFile, cache_check, bind, cache_get, stat_mtime, ret. simpl.
  rewrite Hc. simpl. rewrite Hs, Z.eqb_refl. reflexivity.
Qed.

(** A stale entry: after the stat, the file is read and decoded again. *)
Lemma parseFile_stale (filePath : string) (entry : CacheEntry) (p : Parser)
    (m2 : Z) (content : string) (v : Vdf) (m3 : Z) :
  cache p !! filePath = Some entry ->
  statSync_mtime fs (fs_trace p) filePath = Ok m2 ->
  m2 <> mtime entry ->
  readFileSync fs (fs_trace p ++ [EStat filePath]) filePath = Ok content ->
  vdf_parse fs content = Ok v ->
  statSync_mtime fs
    (fs_trace p ++ [EStat filePath; EReadFile filePath; EDecode content])
    filePath = Ok m3 ->
  parseFile fs filePath true p =
    (Ok {| ref := next_ref p; tree := v |},
     {| cache := <[filePath := {| data := {| ref := next_ref p; tree := v |};
                                  mtime := m3 |}]> (cache p);
        next_ref := S (next_ref p);
        fs_trace := fs_trace p ++
          [EStat filePath; EReadFile filePath; EDecode content; EStat filePath] |}).
Proof.
  intros Hc Hs Hne Hr Hv Hs3.
  unfold parseFile, read_and_parse, cache_check, try_catch, bind, cache_get,
    stat_mtime, read_file, decode, cache_set, ret. simpl.
  rewrite Hc. simpl. rewrite Hs.
  destruct (mtime entry =? m2) eqn:E; [apply Z.eqb_eq in E; congruence|].
  simpl. rewrite Hr. simpl. rewrite Hv. simpl.
  rewrite <- !app_assoc. simpl. rewrite Hs3. reflexivity.
Qed.

Lemma read_and_parse_caches (filePath : string) (p p1 : Parser) (obj : ParsedObj) :
  read_and_parse fs filePath p = (Ok obj, p1) ->
  exists m, cache p1 !! filePath = Some {| data := obj; mtime := m |}.
Proof.
  unfold read_and_parse, try_catch, bind, read_file, decode, stat_mtime, cache_set,
    emit, throw, ret. simpl.
  destruct (readFileSync fs (fs_trace p) filePath) as [content|e]; simpl; [|discriminate].
  destruct (vdf_parse fs content) as [v|e]; simpl; [|discriminate].
  destruct (statSync_mtime fs _ filePath) as [m|e]; simpl; [|discriminate].
  intros [= <- <-]. simpl. rewrite lookup_insert_eq. eauto.
Qed.

(** A parse that returns an object leaves that object in the cache. *)
Lemma parseFile_caches (filePath : string) (useCache : bool) (p p1 : Parser)
    (obj : ParsedObj) :
  parseFile fs filePath useCache p = (Ok obj, p1) ->
  exists m, cache p1 !! filePath = Some {| data := obj; mtime := m |}.
Proof.
  unfold parseFile, cache_check, bind, cache_get, stat_mtime, ret.
  destruct useCache; simpl; [|apply read_and_parse_caches].
  destruct (cache p !! filePath) as [[d m]|] eqn:Ec; simpl;
    [|apply read_and_parse_caches].
  destruct (statSync_mtime fs (fs_trace p) filePath) as [m2|e]; simpl; [|discriminate].
  destruct (m =? m2) eqn:Em; simpl; [|apply read_and_parse_caches].
  intros [= <- <-]. simpl. eauto.
Qed.

(** References only grow, and cached objects stay below the next one. *)
Lemma parseFile_refs_below (filePath : string) (useCache : bool) (p : Parser) :
  refs_below p -> refs_below (snd (parseFile fs filePath useCache p)).
Proof.
  intros Hb.
  assert (Hmiss : forall tr,
    refs_below (snd (read_and_parse fs filePath
                       {| cache := cache p; next_ref := next_ref p; fs_trace := tr |}))).
  { intros tr.
    unfold read_and_parse, try_catch, bind, read_file, decode, stat_mtime, cache_set,
      emit, throw, ret. simpl.
    destruct (readFileSync fs tr filePath) as [content|e]; simpl; [|exact Hb].
    destruct (vdf_parse fs content) as [v|e]; simpl; [|exact Hb].
    destruct (statSync_mtime fs _ filePath) as [m|err]; simpl.
    - intros k entry. simpl. destruct (decide (filePath = k)) as [<-|Hne].
      + rewrite lookup_insert_eq. intros [= <-]. simpl. lia.
      + rewrite lookup_insert_ne by exact Hne. intros He.
        specialize (Hb k entry He). lia.
    - intros k entry He. simpl in *. specialize (Hb k entry He). lia. }
  unfold parseFile, cache_check, bind, cache_get, stat_mtime, ret.
  destruct p as [c n tr]. simpl in *.
  destruct useCache; simpl; [|apply Hmiss].
  destruct (c !! filePath) as [[d m]|] eqn:Ec; simpl; [|apply Hmiss].
  destruct (statSync_mtime fs tr filePath) as [m2|e]; simpl; [|exact Hb].
  destruct (m =? m2) eqn:Em; simpl; [exact Hb | apply Hmiss].
Qed.

End WithFs.

(** C7.  Take a parse of a file that returned an object, in a parser whose
    cached objects were allocated by it.  The object is then cached under
    the path with a modification time [m1], and for the next call with
    [useCache = true]:
    - if the file's modification time is still [m1], the call returns the
      identical object (same reference, same content), leaves the cache as
      it is, and touches the file system with one stat only: the file is
      neither read nor decoded;
    - if the modification time is another one and the file can be read,
      decoded and stat-ed, the call reads and decodes the file again,
      returns the newly allocated object, which is not the cached one, and
      replaces the cache entry by that object and the new time. *)
Theorem parse_uses_cache_by_mtime
    (fs : Fs) (filePath : string) (useCache : bool) (p0 p1 : Parser)
    (obj : ParsedObj) :
  refs_below p0 ->
  parseFile fs filePath useCache p0 = (Ok obj, p1) ->
  exists m1,
    cache p1 !! filePath = Some {| data := obj; mtime := m1 |} /\
    (statSync_mtime fs (fs_trace p1) filePath = Ok m1 ->
     parseFile fs filePath true p1 =
       (Ok obj,
        {| cache := cache p1; next_ref := next_ref p1;
           fs_trace := fs_trace p1 ++ [EStat filePath] |})) /\
    (forall m2 content v m3,
       statSync_mtime fs (fs_trace p1) filePath = Ok m2 ->
       m2 <> m1 ->
       readFileSync fs (fs_trace p1 ++ [EStat filePath]) filePath = Ok content ->
       vdf_parse fs content = Ok v ->
       statSync_mtime fs
         (fs_trace p1 ++ [EStat filePath; EReadFile filePath; EDecode content])
         filePath = Ok m3 ->
       parseFile fs filePath true p1 =
         (Ok {| ref := next_ref p1; tree := v |},
          {| cache := <[filePath := {| data := {| ref := next_ref p1; tree := v |};
                                       mtime := m3 |}]> (cache p1);
             next_ref := S (next_ref p1);
             fs_trace := fs_trace p1 ++
               [EStat filePath; EReadFile filePath; EDecode content; EStat filePath] |}) /\
       ref {| ref := next_ref p1; tree := v |} <> ref obj).
Proof.
  intros Hb Hrun.
  destruct (parseFile_caches fs filePath useCache p0 p1 obj Hrun) as [m1 Hc].
  exists m1. split; [exact Hc|]. split.
  - intros Hs. apply (parseFile_hit fs filePath _ p1 Hc Hs).
  - intros m2 content v m3 Hs Hne Hr Hv Hs3. split.
    + apply (parseFile_stale fs filePath _ p1 m2 content v m3 Hc Hs Hne Hr Hv Hs3).
    + pose proof (parseFile_refs_below fs filePath useCache p0 Hb) as Hb1.
      rewrite Hrun in Hb1. simpl in Hb1. specialize (Hb1 _ _ Hc). simpl in *. lia.
Qed.

(** C7, at the first parse of a file by a new parser. *)
Lemma parse_uses_cache_by_mtime_witness :
  refs_below new_parser /\
  parseFile still_fs "localconfig.vdf" true new_parser
    = (Ok parsed_old, after_first_parse) /\
  exists m1,
    cache after_first_parse !! "localconfig.vdf"
      = Some {| data := parsed_old; mtime := m1 |} /\
    (statSync_mtime still_fs (fs_trace after_first_parse) "localconfig.vdf" = Ok m1 ->
     parseFile still_fs "localconfig.vdf" true after_first_parse =
       (Ok parsed_old,
        {| cache := cache after_first_parse; next_ref := next_ref after_first_parse;
           fs_trace := fs_trace after_first_parse ++ [EStat "localconfig.vdf"] |})) /\
    (forall m2 content v m3,
       statSync_mtime still_fs (fs_trace after_first_parse) "localconfig.vdf" = Ok m2 ->
       m2 <> m1 ->
       readFileSync still_fs (fs_trace after_first_parse ++ [EStat "localconfig.vdf"])
         "localconfig.vdf" = Ok content ->
       vdf_parse still_fs content = Ok v ->
       statSync_mtime still_fs
         (fs_trace after_first_parse ++
          [EStat "localconfig.vdf"; EReadFile "localconfig.vdf"; EDecode content])
         "localconfig.vdf" = Ok m3 ->
       parseFile still_fs "localconfig.vdf" true after_first_parse =
         (Ok {| ref := next_ref after_first_parse; tree := v |},
          {| cache := <["localconfig.vdf" :=
                          {| data := {| ref := next_ref after_first_parse; tree := v |};
                             mtime := m3 |}]> (cache after_first_parse);
             next_ref := S (next_ref after_first_parse);
             fs_trace := fs_trace after_first_parse ++
               [EStat "localconfig.vdf"; EReadFile "localconfig.vdf";
                EDecode content; EStat "localconfig.vdf"] |}) /\
       ref {| ref := next_ref after_first_parse; tree := v |} <> ref parsed_old).
Proof.
  assert (H0 : refs_below new_parser).
  { intros k e He. simpl in He. rewrite lookup_empty in He. discriminate. }
  assert (H1 : parseFile still_fs "localconfig.vdf" true new_parser
               = (Ok parsed_old, after_first_parse)).
  { vm_compute. reflexivity. }
  split; [exact H0|]. split; [exact H1|].
  exact (parse_uses_cache_by_mtime still_fs "localconfig.vdf" true new_parser
           after_first_parse parsed_old H0 H1).
Defined.

(** Both cases, run.  On the unchanging file the second parse returns
    object 0 again after one more stat.  On the file that is touched after
    the first parse, the second parse reads and decodes again and returns
    object 1 with the new content. *)
Example second_parse_still_and_touched :
  let still := parseFile still_fs "localconfig.vdf" true after_first_parse in
  let p1 := snd (parseFile touched_fs "localconfig.vdf" true new_parser) in
  let touched := parseFile touched_fs "localconfig.vdf" true p1 in
  fst still = Ok parsed_old /\
  fs_trace (snd still) =
    [EReadFile "localconfig.vdf"; EDecode "old"; EStat "localconfig.vdf";
     EStat "localconfig.vdf"] /\
  fst touched = Ok {| ref := 1; tree := VObj [("text", VStr "new")] |} /\
  fs_trace (snd touched) =
    [EReadFile "localconfig.vdf"; EDecode "old"; EStat "localconfig.vdf";
     EStat "localconfig.vdf"; EReadFile "localconfig.vdf"; EDecode "new";
     EStat "localconfig.vdf"] /\
  (mtime <$> cache (snd touched) !! "localconfig.vdf") = Some 9.
Proof. vm_compute. auto 10. Qed.

End ParserCache.

(** * More of the plugin *)

(** ** The violation log: reading, clearing, the cap and the renderer's copy *)
Module LogFacts.
Import Plugin Obs PluginMore.

Lemma slice_from_start {A} (arr : list A) (e : Z) :
  JSArray.slice arr 0 e =
    firstn (Z.to_nat (JSArray.rel_index e (Z.of_nat (length arr)))) arr.
Proof.
  unfold JSArray.slice.
  assert (H0 : JSArray.rel_index 0 (Z.of_nat (length arr)) = 0).
  { unfold JSArray.rel_index. simpl. apply Z.min_l. apply Nat2Z.is_nonneg. }
  rewrite H0, Z.sub_0_r. reflexivity.
Qed.

Lemma getViolations_total (limit : option Z) (w : World) :
  getViolations limit w =
    (Ok (IpcOk (JSArray.slice (violations (state w)) 0 (default 50 limit))), w).
Proof. reflexivity. Qed.

(** X2.  [steam:getViolations] never fails and never changes the world.
    Its answer is a prefix of the log, newest first: the first [limit]
    records for a limit of zero or more (so nothing for zero, everything
    for a limit beyond the length), and for a negative limit the log
    without its last [-limit] records. *)
Theorem getViolations_prefix (limit : option Z) (w : World) :
  exists n,
    getViolations limit w = (Ok (IpcOk (firstn n (violations (state w)))), w) /\
    (0 <= default 50 limit ->
     n = Nat.min (Z.to_nat (default 50 limit)) (length (violations (state w)))) /\
    (default 50 limit < 0 ->
     n = Nat.sub (length (violations (state w))) (Z.to_nat (- default 50 limit))).
Proof.
  rewrite getViolations_total, slice_from_start.
  eexists. split; [reflexivity|].
  unfold JSArray.rel_index. split; intros H.
  - destruct (default 50 limit <? 0) eqn:E; [apply Z.ltb_lt in E; lia|]. lia.
  - destruct (default 50 limit <? 0) eqn:E; [|apply Z.ltb_ge in E; lia]. lia.
Qed.

(** X1.  [steam:clearViolations] answers with success, empties the log
    whatever it held, leaves the rest of the state alone and persists the
    result; afterwards [steam:getViolations] returns the empty list for
    every limit. *)
Theorem clearViolations_empties (w : World) :
  exists s',
    clearViolations w =
      (Ok (IpcOk {| success := true |}),
       {| state := s'; trace := trace w ++ [EConfigurationUpdate s'] |}) /\
    violations s' = [] /\
    agents s' = agents (state w) /\
    policies s' = policies (state w) /\
    settings s' = settings (state w) /\
    forall limit tr,
      getViolations limit {| state := s'; trace := tr |} =
        (Ok (IpcOk []), {| state := s'; trace := tr |}).
Proof.
  eexists. split; [reflexivity|]. simpl. repeat split.
  intros limit tr. rewrite getViolations_total, slice_from_start. simpl.
  now rewrite firstn_nil.
Qed.

Lemma logged_within_cap (v : Violation.t) (s : State) :
  (length (violations (ViolationRun.logged v s)) <= 100)%nat.
Proof.
  unfold ViolationRun.logged, with_violations. cbn -[firstn].
  apply firstn_le_length.
Qed.

(** X3.  One processed violation brings the log within the cap whatever
    it held before, for instance after [newState] or [onLoad] installed a
    longer one; and the [violation] listener keeps a log within the cap
    within it. *)
Theorem cap_restored (host : Host) (data : ProcessEvent.t) (s : State) (w : World) :
  (length (violations
     (state (snd (bind (newState s) (fun _ => handleViolation host data) w)))) <= 100)%nat /\
  (length (violations (state (snd (handleViolation host data w)))) <= 100)%nat /\
  ((length (violations (state w)) <= 100)%nat ->
   (length (violations (state (snd (on_violation host data w)))) <= 100)%nat).
Proof.
  split; [|split].
  - unfold bind, newState, modify. cbn [fst snd].
    rewrite ViolationEvents.handleViolation_run. apply logged_within_cap.
  - rewrite ViolationEvents.handleViolation_run. apply logged_within_cap.
  - intros Hle. unfold on_violation. destruct (is_steam data); [|exact Hle].
    rewrite ViolationEvents.handleViolation_run. apply logged_within_cap.
Qed.

Lemma firstn_cons_firstn_le {A} (n m : nat) (x : A) (l : list A) :
  (n <= S m)%nat -> firstn n (x :: firstn m l) = firstn n (x :: l).
Proof.
  intros Hle. destruct n as [|n]; [reflexivity|].
  simpl. f_equal. rewrite firstn_firstn. f_equal. lia.
Qed.

(** X15.  The renderer's list stays in step with the plugin's log.  If
    the component shows what [steam:getViolations] with limit 50 returned,
    and a Steam violation is then processed with notify-parent on, on a
    host that offers [sendToRenderer], then exactly one message is sent,
    and the list that the component builds from it is what
    [steam:getViolations] with limit 50 returns now. *)
Theorem view_in_step (host : Host) (data : ProcessEvent.t) (w : World)
    (shown : list Violation.t) :
  has_sendToRenderer host = true ->
  Settings.notifyParent (settings (state w)) = true ->
  is_steam data = true ->
  getViolations (Some 50) w = (Ok (IpcOk shown), w) ->
  exists w' v before after,
    on_violation host data w = (Ok tt, w') /\
    trace w' = trace w ++ before ++ [ESendToRenderer "steamViolation" (MsgViolation v)] ++ after /\
    sent_on "steamViolation" (before ++ after) = 0%nat /\
    getViolations (Some 50) w' = (Ok (IpcOk (view_handleViolation v shown)), w').
Proof.
  intros Hsend Hnotify Hsteam Hshown.
  rewrite getViolations_total in Hshown. injection Hshown as <-.
  unfold on_violation. rewrite Hsteam, ViolationEvents.handleViolation_run.
  unfold ViolationRun.calls. rewrite Hnotify, Hsend. simpl andb. cbv iota.
  eexists. eexists. eexists. eexists. split; [reflexivity|]. simpl trace.
  split; [reflexivity|]. split.
  - rewrite ViolationEvents.sent_on_app.
    destruct (ViolationRun.reads_clock data); destruct (has_logActivity host); reflexivity.
  - rewrite getViolations_total. do 2 f_equal. f_equal.
    unfold view_handleViolation.
    rewrite !(JSArrayFacts.slice_prefix _ 50) by (cbv; discriminate).
    destruct (state w) as [ag ch po vi se ls]. cbn -[firstn].
    rewrite firstn_firstn. change (Nat.min (Z.to_nat 50) 100) with (Z.to_nat 50).
    symmetry. apply firstn_cons_firstn_le. lia.
Qed.

(** X15, at a new plugin that receives [{agentId: "A1",
    processName: "Steam.exe", hostname: "h1"}]. *)
Lemma view_in_step_witness :
  has_sendToRenderer Examples.quiet_host = true /\
  Settings.notifyParent (settings (state initial_world)) = true /\
  is_steam Examples.steam_event = true /\
  getViolations (Some 50) initial_world = (Ok (IpcOk []), initial_world) /\
  exists w' v before after,
    on_violation Examples.quiet_host Examples.steam_event initial_world = (Ok tt, w') /\
    trace w' = trace initial_world ++ before ++
               [ESendToRenderer "steamViolation" (MsgViolation v)] ++ after /\
    sent_on "steamViolation" (before ++ after) = 0%nat /\
    getViolations (Some 50) w' = (Ok (IpcOk (view_handleViolation v [])), w').
Proof.
  split; [reflexivity|]. split; [reflexivity|]. split; [reflexivity|].
  split; [reflexivity|].
  apply (view_in_step Examples.quiet_host Examples.steam_event initial_world []);
    reflexivity.
Defined.

End LogFacts.

(** ** Linking, unlinking and who receives authorization updates *)
Module LinkFacts.
Import Plugin Obs AuthSpec LinkSpec MoreSpec PluginMore.

Lemma keys_set_present {V} (k : string) (v e : V) (o : list (string * V)) :
  JSObj.get k o = Some e -> map fst (JSObj.set k v o) = map fst o.
Proof.
  induction o as [|[k0 v0] o IH]; simpl; [discriminate|].
  destruct (String.eqb k k0) eqn:E; simpl.
  - intros _. apply String.eqb_eq in E. now subst.
  - intros H. now rewrite IH.
Qed.

(** X4.  For an agent that has an entry, [steam:linkAgent] answers with
    success without any call to the agent service: it only persists.  The
    entry gets the new child id and [enabled = true] and keeps every other
    field, among them the [allowed] flag recorded under an earlier
    subject; other entries and the rest of the state stay as they were. *)
Theorem link_known_agent (agentId childId : string) (e : AgentData.t) (w : World) :
  JSObj.get agentId (agents (state w)) = Some e ->
  exists s',
    linkAgent agentId childId w =
      (Ok (IpcOk {| success := true |}),
       {| state := s'; trace := trace w ++ [EConfigurationUpdate s'] |}) /\
    JSObj.get agentId (agents s') = Some (linked_entry childId e) /\
    AgentData.childId (linked_entry childId e) = Some (Some childId) /\
    AgentData.enabled (linked_entry childId e) = Some true /\
    AgentData.allowed (linked_entry childId e) = AgentData.allowed e /\
    AgentData.lastUpdate (linked_entry childId e) = AgentData.lastUpdate e /\
    AgentData.hostname (linked_entry childId e) = AgentData.hostname e /\
    AgentData.platform (linked_entry childId e) = AgentData.platform e /\
    AgentData.lastSeen (linked_entry childId e) = AgentData.lastSeen e /\
    (forall k, k <> agentId -> JSObj.get k (agents s') = JSObj.get k (agents (state w))) /\
    map fst (agents s') = map fst (agents (state w)) /\
    policies s' = policies (state w) /\
    violations s' = violations (state w) /\
    settings s' = settings (state w).
Proof.
  intros He.
  rewrite Handlers.linkAgent_run
    by (rewrite (JSObjFacts.lookup_get_Some _ _ _ He); discriminate).
  rewrite He. cbv zeta. simpl default.
  eexists. split; [reflexivity|]. simpl.
  split; [apply JSObjFacts.get_set_eq|].
  do 7 (split; [reflexivity|]).
  split; [intros k Hk; apply JSObjFacts.get_set_ne; congruence|].
  split; [exact (keys_set_present agentId _ e _ He) | repeat split].
Qed.

(** X4, at the entry of [A1] that an earlier update for [S1] allowed, when
    it is linked to [S2]. *)
Lemma link_known_agent_witness :
  JSObj.get "A1" (agents (state allowed_world)) = Some allowed_entry /\
  exists s',
    linkAgent "A1" "S2" allowed_world =
      (Ok (IpcOk {| success := true |}),
       {| state := s'; trace := trace allowed_world ++ [EConfigurationUpdate s'] |}) /\
    JSObj.get "A1" (agents s') = Some (linked_entry "S2" allowed_entry) /\
    AgentData.childId (linked_entry "S2" allowed_entry) = Some (Some "S2") /\
    AgentData.enabled (linked_entry "S2" allowed_entry) = Some true /\
    AgentData.allowed (linked_entry "S2" allowed_entry) = AgentData.allowed allowed_entry /\
    AgentData.lastUpdate (linked_entry "S2" allowed_entry)
      = AgentData.lastUpdate allowed_entry /\
    AgentData.hostname (linked_entry "S2" allowed_entry)
      = AgentData.hostname allowed_entry /\
    AgentData.platform (linked_entry "S2" allowed_entry)
      = AgentData.platform allowed_entry /\
    AgentData.lastSeen (linked_entry "S2" allowed_entry)
      = AgentData.lastSeen allowed_entry /\
    (forall k, k <> "A1" ->
       JSObj.get k (agents s') = JSObj.get k (agents (state allowed_world))) /\
    map fst (agents s') = map fst (agents (state allowed_world)) /\
    policies s' = policies (state allowed_world) /\
    violations s' = violations (state allowed_world) /\
    settings s' = settings (state allowed_world).
Proof.
  split; [reflexivity|].
  apply (link_known_agent "A1" "S2" allowed_entry allowed_world). reflexivity.
Defined.

Lemma member_field_app {A} (pick : FieldWrite -> option A) (k : string)
    (tr evs : list Event) :
  member_field pick k (tr ++ evs) =
    fold_left
      (fun acc e =>
         match e with
         | EMemberWrite m wr =>
             if String.eqb m k
             then match pick wr with Some v => Some v | None => acc end
             else acc
         | _ => acc
         end)
      evs (member_field pick k tr).
Proof. unfold member_field. apply fold_left_app. Qed.

(** X5.  Links compose as assignments do, for every agent id.  Linking an
    agent to a second child after a first leaves the plugin state that
    linking to the second alone leaves, and [state.agents[agentId]] then
    shows the second child: an agent has one child at most.  After a link
    and an unlink, [state.agents[agentId]] shows [childId = null] and
    [enabled = false].  For an id that had an entry, or for which
    [state.agents[agentId]] was [undefined], that is an entry of the map;
    for an id that had no entry and names a member of [Object.prototype]
    no entry is created: the plugin state is what it was before the two
    calls. *)
Theorem link_then_link_or_unlink (agentId c1 c2 : string) (w : World) :
  let w12 := snd (linkAgent agentId c2 (snd (linkAgent agentId c1 w))) in
  let wu := snd (unlinkAgent agentId (snd (linkAgent agentId c1 w))) in
  state w12 = state (snd (linkAgent agentId c2 w)) /\
  shown_childId w12 agentId = Some (Some c2) /\
  shown_enabled w12 agentId = Some true /\
  shown_childId wu agentId = Some None /\
  shown_enabled wu agentId = Some false /\
  (JSObj.lookup agentId (agents (state w)) <> JSObj.Inherited ->
   exists e,
     JSObj.get agentId (agents (state wu)) = Some e /\
     AgentData.childId e = Some None /\
     AgentData.enabled e = Some false /\
     AgentData.id e =
       AgentData.id (default (AgentData.fresh agentId)
                       (JSObj.get agentId (agents (state w))))) /\
  (JSObj.lookup agentId (agents (state w)) = JSObj.Inherited ->
   state wu = state w /\ JSObj.get agentId (agents (state wu)) = None).
Proof.
  cbv zeta.
  destruct (JSObj.lookup agentId (agents (state w))) as [e0| |] eqn:El.
  2: { (* the id names a member and is no entry *)
    rewrite (Handlers.linkAgent_member agentId c1 w El). cbn [snd].
    rewrite (Handlers.linkAgent_member agentId c2 w El).
    rewrite (Handlers.linkAgent_member agentId c2) by exact El.
    rewrite Handlers.unlinkAgent_run. cbn [snd state trace].
    unfold unlink_writes, unlinked, shown_childId, shown_enabled.
    cbn [state trace]. rewrite El.
    pose proof (proj1 (JSObjFacts.lookup_Inherited _ _) El) as [Hnone _].
    rewrite Hnone, El.
    rewrite !member_field_app.
    do 3 (cbn [app fold_left written_childId written_enabled];
          rewrite ?String.eqb_refl).
    do 5 (split; [reflexivity|]).
    split; [intros Hc; congruence | intros _; split; [reflexivity | exact Hnone]]. }
  all: assert (Hni : JSObj.lookup agentId (agents (state w)) <> JSObj.Inherited)
         by congruence;
    rewrite (Handlers.linkAgent_run agentId c1 w Hni); cbv zeta; cbn [snd];
    rewrite (Handlers.linkAgent_run agentId c2 w Hni); cbv zeta; cbn [snd];
    rewrite (Handlers.linkAgent_run agentId c2)
      by (cbn [state]; unfold with_agents; cbn [agents];
          rewrite JSObjFacts.lookup_set_eq; discriminate);
    rewrite Handlers.unlinkAgent_run; cbv zeta; cbn [snd state trace];
    unfold unlinked, shown_childId, shown_enabled; cbn [state];
    destruct (state w) as [ag ch po vi se ls]; unfold with_agents; cbn [agents];
    rewrite ?JSObjFacts.get_set_eq; cbn [agents default];
    rewrite ?JSObjFacts.lookup_set_eq, ?JSObjFacts.get_set_eq, ?JSObjFacts.set_set_eq;
    (split; [reflexivity|]); (split; [reflexivity|]); (split; [reflexivity|]);
    (split; [reflexivity|]); (split; [reflexivity|]);
    (split; [intros _; eexists; split; [reflexivity|]; repeat split
            | intros Hc; congruence]).
Qed.

End LinkFacts.

(** ** Which agents an authorization update reaches *)
Module ReachFacts.
Import Plugin Obs AuthSpec LinkSpec MoreSpec PluginMore.

Lemma filter_none {A} (f : A -> bool) (l : list A) :
  (forall x, In x l -> f x = false) -> List.filter f l = [].
Proof.
  induction l as [|x l IH]; simpl; intros H; [reflexivity|].
  rewrite (H x) by auto. apply IH. auto.
Qed.

Lemma In_get_unique {V} (k : string) (v : V) (o : list (string * V)) :
  List.NoDup (map fst o) -> In (k, v) o -> JSObj.get k o = Some v.
Proof.
  induction o as [|[k0 v0] o IH]; simpl; [tauto|].
  intros Hnd [Heq|Hin].
  - injection Heq as -> ->. now rewrite String.eqb_refl.
  - inversion Hnd as [|? ? Hnot Hnd']; subst.
    destruct (String.eqb_spec k k0) as [->|Hne].
    + exfalso. apply Hnot. apply in_map_iff. exists (k0, v). auto.
    + auto.
Qed.

(** X6.  When no entry is linked to the subject of an authorization
    update, the listener does nothing at all: no call, no change of state.
    An agent that was discovered but never linked is therefore never
    refreshed. *)
Theorem stateChange_nobody_linked
    (host : Host) (childId : string) (ns : Allow2State.t) (w : World) :
  nobody_linked childId (state w) ->
  on_stateChange host childId ns w = (Ok tt, w).
Proof.
  intros Hnone. unfold on_stateChange, bind, get_state.
  rewrite filter_none; [reflexivity|].
  intros a Ha. apply JSObjFacts.In_values in Ha as [k Hk].
  specialize (Hnone k a Hk). unfold linked_to.
  destruct (AgentData.childId a) as [[c|]|]; auto.
  destruct (String.eqb_spec c childId) as [->|Hne]; [congruence | reflexivity].
Qed.

(** X6, at a plugin whose only agent was discovered and not linked. *)
Lemma stateChange_nobody_linked_witness :
  nobody_linked "S1"
    (state (snd (on_agentDiscovered Examples.quiet_host Examples.pc1 initial_world))) /\
  on_stateChange Examples.responsive_host "S1" Examples.quota_left
    (snd (on_agentDiscovered Examples.quiet_host Examples.pc1 initial_world))
  = (Ok tt, snd (on_agentDiscovered Examples.quiet_host Examples.pc1 initial_world)).
Proof.
  assert (H : nobody_linked "S1"
    (state (snd (on_agentDiscovered Examples.quiet_host Examples.pc1 initial_world)))).
  { intros k a [Heq|[]]. injection Heq as <- <-. discriminate. }
  split; [exact H|].
  exact (stateChange_nobody_linked Examples.responsive_host "S1" Examples.quota_left
           _ H).
Defined.

Section WithHost.
Variable host : Host.
Variable ns : Allow2State.t.
Hypothesis answers : answers_for_id host.

(** A round for another agent neither asks about agent [k] nor touches
    its entry. *)
Lemma refresh_other (k : string) (a : AgentData.t) (w : World) :
  AgentData.id a <> k ->
  exists w' evs,
    refresh host ns a w = (Ok tt, w') /\
    trace w' = trace w ++ evs /\
    Forall (not_about k) evs /\
    JSObj.get k (agents (state w')) = JSObj.get k (agents (state w)).
Proof.
  intros Hne.
  unfold refresh, try_catch, bind, agentService_getAgent, call, console_error, emit, ret.
  simpl. destruct (getAgent host (trace w) (AgentData.id a)) as [[ag|]|e] eqn:Eg.
  - assert (Hid : Agent.id ag = AgentData.id a) by (apply (answers _ _ _ Eg)).
    rewrite Authorization.updateSteamPolicy_run. cbv zeta. simpl.
    destruct (updatePolicy host _ (Agent.id ag) _).
    + destruct (JSObj.lookup (Agent.id ag) (agents (state w))) as [entry| |].
      * do 2 eexists. split; [reflexivity|]. simpl. rewrite <- !app_assoc.
        split; [reflexivity|]. split.
        -- repeat constructor; simpl; congruence.
        -- apply JSObjFacts.get_set_ne. congruence.
      * do 2 eexists. split; [reflexivity|]. simpl. rewrite <- !app_assoc.
        split; [reflexivity|]. split; [|reflexivity].
        repeat constructor; simpl; congruence.
      * do 2 eexists. split; [reflexivity|]. simpl. rewrite <- !app_assoc.
        split; [reflexivity|]. split; [|reflexivity].
        repeat constructor; simpl; congruence.
    + do 2 eexists. split; [reflexivity|]. simpl. rewrite <- !app_assoc.
      split; [reflexivity|]. split; [|reflexivity].
      repeat constructor; simpl; congruence.
  - do 2 eexists. split; [reflexivity|]. split; [reflexivity|].
    split; [|reflexivity]. repeat constructor. exact Hne.
  - do 2 eexists. split; [reflexivity|]. simpl. rewrite <- !app_assoc.
    split; [reflexivity|]. split; [|reflexivity].
    repeat constructor. exact Hne.
Qed.

Lemma refresh_others (k : string) (l : list AgentData.t) (w : World) :
  (forall a, In a l -> AgentData.id a <> k) ->
  exists w' evs,
    for_of l (refresh host ns) w = (Ok tt, w') /\
    trace w' = trace w ++ evs /\
    Forall (not_about k) evs /\
    JSObj.get k (agents (state w')) = JSObj.get k (agents (state w)).
Proof.
  revert w. induction l as [|a l IH]; intros w Hl.
  - exists w, []. rewrite app_nil_r. repeat split; constructor.
  - destruct (refresh_other k a w) as (w1 & evs1 & Hrun1 & Htr1 & Hev1 & Hget1).
    { apply Hl. now left. }
    destruct (IH w1) as (w' & evs & Hrun & Htr & Hev & Hget).
    { intros x Hx. apply Hl. now right. }
    exists w', (evs1 ++ evs). simpl. unfold bind. rewrite Hrun1.
    split; [exact Hrun|]. rewrite Htr, Htr1, app_assoc.
    split; [reflexivity|]. split; [apply Forall_app; auto | congruence].
Qed.

End WithHost.

(** X7.  An authorization update reaches only the agents linked to its
    subject.  Take a state whose entries are stored under their own,
    distinct ids, and an agent service that answers a lookup with the
    agent asked for.  For an agent [k] that is not linked to the subject,
    the listener makes no lookup and no update call and leaves the entry
    as it is.  And after [steam:unlinkAgent] for an agent [j], whatever
    [j] was linked to before, also to the subject of the update, the
    listener makes no lookup and no update call for [j] and leaves its
    entry as the unlink left it. *)
Theorem stateChange_reaches_linked_only
    (host : Host) (childId k j : string) (ns : Allow2State.t) (w : World) :
  answers_for_id host ->
  keyed_by_id (state w) ->
  unique_keys (state w) ->
  ((forall a, JSObj.get k (agents (state w)) = Some a ->
              AgentData.childId a <> Some (Some childId)) ->
   exists w' evs,
     on_stateChange host childId ns w = (Ok tt, w') /\
     trace w' = trace w ++ evs /\
     Forall (not_about k) evs /\
     JSObj.get k (agents (state w')) = JSObj.get k (agents (state w))) /\
  (exists w' evs,
     on_stateChange host childId ns (snd (unlinkAgent j w)) = (Ok tt, w') /\
     trace w' = trace (snd (unlinkAgent j w)) ++ evs /\
     Forall (not_about j) evs /\
     JSObj.get j (agents (state w'))
       = JSObj.get j (agents (state (snd (unlinkAgent j w))))).
Proof.
  intros Hans Hkeyed Huniq.
  assert (Hgen : forall key x,
    keyed_by_id (state x) -> unique_keys (state x) ->
    (forall a, JSObj.get key (agents (state x)) = Some a ->
               AgentData.childId a <> Some (Some childId)) ->
    exists w' evs,
      on_stateChange host childId ns x = (Ok tt, w') /\
      trace w' = trace x ++ evs /\
      Forall (not_about key) evs /\
      JSObj.get key (agents (state w')) = JSObj.get key (agents (state x))).
  { intros key x Hkx Hux Hx. unfold on_stateChange, bind, get_state.
    apply (refresh_others host ns Hans).
    intros a Ha Hid. apply filter_In in Ha as [Ha Hl].
    apply JSObjFacts.In_values in Ha as [k' Hk'].
    assert (k' = key) by (rewrite <- (Hkx k' a Hk'); exact Hid). subst k'.
    apply (Hx a (In_get_unique key a _ Hux Hk')).
    unfold linked_to in Hl. destruct (AgentData.childId a) as [[c|]|]; try discriminate.
    apply String.eqb_eq in Hl. now subst. }
  split; [intros Hk; apply Hgen; assumption|].
  apply Hgen.
  - now apply EntryIds.keyed_by_id_unlinkAgent.
  - rewrite Handlers.unlinkAgent_run. simpl. unfold unique_keys, unlinked.
    destruct (JSObj.get j (agents (state w))) as [a|] eqn:E; [|exact Huniq].
    simpl. now rewrite (LinkFacts.keys_set_present j _ a _ E).
  - rewrite Handlers.unlinkAgent_run. simpl. unfold unlinked.
    destruct (JSObj.get j (agents (state w))) as [a|] eqn:E.
    + simpl. rewrite JSObjFacts.get_set_eq. intros x [= <-]. discriminate.
    + rewrite E. discriminate.
Qed.

(** X7, at a plugin that holds [A1] linked to [S1] and [A2] linked to
    [S2], for an update of [S1]: [A2] is not reached, and [A1] is not
    reached once it is unlinked. *)
Lemma stateChange_reaches_linked_only_witness :
  answers_for_id Examples.responsive_host /\
  keyed_by_id (state two_children_world) /\
  unique_keys (state two_children_world) /\
  ((forall a, JSObj.get "A2" (agents (state two_children_world)) = Some a ->
              AgentData.childId a <> Some (Some "S1")) ->
   exists w' evs,
     on_stateChange Examples.responsive_host "S1" Examples.quota_left
       two_children_world = (Ok tt, w') /\
     trace w' = trace two_children_world ++ evs /\
     Forall (not_about "A2") evs /\
     JSObj.get "A2" (agents (state w'))
       = JSObj.get "A2" (agents (state two_children_world))) /\
  (exists w' evs,
     on_stateChange Examples.responsive_host "S1" Examples.quota_left
       (snd (unlinkAgent "A1" two_children_world)) = (Ok tt, w') /\
     trace w' = trace (snd (unlinkAgent "A1" two_children_world)) ++ evs /\
     Forall (not_about "A1") evs /\
     JSObj.get "A1" (agents (state w'))
       = JSObj.get "A1" (agents (state (snd (unlinkAgent "A1" two_children_world))))).
Proof.
  assert (H1 : answers_for_id Examples.responsive_host).
  { intros tr k ag [= <-]. reflexivity. }
  assert (H2 : keyed_by_id (state two_children_world)).
  { intros k a [Heq|[Heq|[]]]; injection Heq as <- <-; reflexivity. }
  assert (H3 : unique_keys (state two_children_world)).
  { repeat constructor; simpl; intuition discriminate. }
  split; [exact H1|]. split; [exact H2|]. split; [exact H3|].
  exact (stateChange_reaches_linked_only Examples.responsive_host "S1" "A2" "A1"
           Examples.quota_left two_children_world H1 H2 H3).
Defined.

(** The run of the second half: [A1] is linked to [S1], is unlinked, and
    the update for [S1] then makes no call at all, while before the
    unlink it made a lookup and an update for [A1]. *)
Example unlinked_agent_is_out_of_reach :
  updated_for (trace (snd (on_stateChange Examples.responsive_host "S1"
                             Examples.quota_left two_children_world))) = ["A1"] /\
  trace (snd (on_stateChange Examples.responsive_host "S1" Examples.quota_left
                (snd (unlinkAgent "A1" two_children_world))))
    = trace (snd (unlinkAgent "A1" two_children_world)).
Proof. vm_compute. auto. Qed.

End ReachFacts.

(** ** Settings, discovery, detection and the lifecycle *)
Module LifecycleFacts.
Import Plugin Obs PolicySpec AuthSpec FanOutSpec MoreSpec PluginMore.

(** X8.  A process-detected event never changes the plugin state, never
    logs a violation or an activity entry and never calls the agent
    service.  It sends one [steamDetected] message when the process name
    contains "steam" in some letter case and the host offers
    [sendToRenderer], and does nothing otherwise. *)
Theorem processDetected_only_notifies
    (host : Host) (data : ProcessEvent.t) (w : World) :
  exists evs,
    on_processDetected host data w =
      (Ok tt, {| state := state w; trace := trace w ++ evs |}) /\
    sent_on "steamViolation" evs = 0%nat /\
    activity_entries evs = 0%nat /\
    Forall (fun e => to_agent_service e = false) evs /\
    (ViolationRun.names_steam data -> has_sendToRenderer host = true ->
     sent_on "steamDetected" evs = 1%nat) /\
    (~ ViolationRun.names_steam data \/ has_sendToRenderer host = false -> evs = []).
Proof.
  unfold on_processDetected.
  destruct (is_steam data) eqn:Es.
  - destruct (has_sendToRenderer host) eqn:Eh.
    + unfold timestamp_or_now, bind, date_now, call, emit, ret.
      destruct (ProcessEvent.timestamp data) as [v|]; [destruct (v =? 0)|];
        simpl; eexists; (split; [rewrite <- ?app_assoc; reflexivity|]);
        (split; [reflexivity|]); (split; [reflexivity|]);
        (split; [repeat constructor|]);
        (split; [reflexivity|]);
        (intros [Hn|Hf]; [apply ViolationEvents.is_steam_iff in Es; contradiction
                         | discriminate]).
    + exists []. rewrite app_nil_r. destruct w. repeat split; auto. discriminate.
  - exists []. rewrite app_nil_r. destruct w. repeat split; auto.
    intros Hn. apply ViolationEvents.is_steam_iff in Hn. congruence.
Qed.



Section WithHost.
Variable host : Host.

(** The loops of [steam:updateSettings] and of [onSetEnabled(false)]:
    neither touches the state, and each makes update calls with its one
    payload only. *)
Lemma push_interval_events (patch : SettingsPatch.t) (listed : list Agent.t)
    (w : World) :
  exists evs,
    trace (snd (for_of listed (push_interval host patch) w)) = trace w ++ evs /\
    Forall (updates_only (interval_update patch)) evs /\
    state (snd (for_of listed (push_interval host patch) w)) = state w.
Proof.
  apply (PolicyConfiguration.for_of_invariant
           (fun x => exists evs,
              trace x = trace w ++ evs /\
              Forall (updates_only (interval_update patch)) evs /\
              state x = state w)).
  - intros agent x (evs & Htr & Hev & Hst).
    rewrite FanOut.push_interval_sends.
    destruct (has_policy (state x) (Agent.id agent)); simpl.
    + exists (evs ++ [EUpdatePolicy (Agent.id agent) (interval_update patch)]).
      rewrite Htr, <- app_assoc. split; [reflexivity|].
      split; [apply Forall_app; split; [exact Hev | repeat constructor] | exact Hst].
    + exists evs. auto.
  - exists []. rewrite app_nil_r. auto.
Qed.

(** The body of the loop of [onSetEnabled(false)] sends [{enabled: false}]
    to an agent that has a policy and does nothing for another. *)
Lemma disable_policy_sends (agent : Agent.t) (w : World) :
  disable_policy host agent w =
    if has_policy (state w) (Agent.id agent)
    then (updatePolicy host (trace w) (Agent.id agent) disable_update,
          {| state := state w;
             trace := trace w ++ [EUpdatePolicy (Agent.id agent) disable_update] |})
    else (Ok tt, w).
Proof.
  unfold disable_policy, bind, get_state.
  destruct (has_policy (state w) (Agent.id agent)); reflexivity.
Qed.

End WithHost.

(** X13.  [steam:updateSettings] changes the settings and nothing else:
    agent entries, the violation log and the stored policy records stay as
    they were, so a stored record keeps the check interval it was created
    with.  It persists first; what follows are calls to the agent service
    that create no policy and update nothing but the check interval.  For
    a patch without a check interval, or with the interval 0, no call
    follows at all and the answer is success: a changed kill-on-violation
    or notify-parent setting is not sent to any agent. *)
Theorem updateSettings_changes_settings_only
    (host : Host) (patch : SettingsPatch.t) (w : World) :
  exists r w' evs,
    updateSettings host patch w = (Ok r, w') /\
    trace w' = trace w ++ EConfigurationUpdate (state w') :: evs /\
    settings (state w') = merge_settings (settings (state w)) patch /\
    agents (state w') = agents (state w) /\
    policies (state w') = policies (state w) /\
    violations (state w') = violations (state w) /\
    Forall (updates_only (interval_update patch)) evs /\
    (truthy_num (SettingsPatch.checkInterval patch) = false ->
     r = IpcOk {| success := true |} /\ evs = []).
Proof.
  rewrite FanOut.updateSettings_run. cbv zeta.
  destruct (truthy_num (SettingsPatch.checkInterval patch)).
  - destruct (listAgents host _) as [listed|e].
    + match goal with
      | |- context [for_of listed ?body ?w0] =>
          destruct (push_interval_events host patch listed w0) as (evs & Htr & Hev & Hst);
          destruct (for_of listed body w0) as [[[]|e] w'] eqn:Hrun
      end; simpl in Htr, Hst;
        do 3 eexists; (split; [reflexivity|]); rewrite Hst, Htr, <- !app_assoc; simpl;
        (split; [reflexivity|]); (do 4 (split; [reflexivity|]));
        (split; [constructor; [exact I | exact Hev] | discriminate]).
    + do 3 eexists. split; [reflexivity|]. simpl. rewrite <- app_assoc.
      split; [reflexivity|]. do 4 (split; [reflexivity|]).
      split; [repeat constructor | discriminate].
  - do 3 eexists. split; [reflexivity|]. simpl.
    split; [reflexivity|]. do 4 (split; [reflexivity|]).
    split; [constructor | auto].
Qed.

(** Turning kill-on-violation off after both agents got their policies
    reaches no agent: the only outbound call is the persisting one. *)
Example kill_switch_is_not_propagated :
  let w' := snd (updateSettings Examples.half_down_host no_kill Examples.loaded_world) in
  List.filter to_agent_service (trace w')
    = List.filter to_agent_service (trace Examples.loaded_world) /\
  Settings.killOnViolation (settings (state w')) = false /\
  length (trace w') = S (length (trace Examples.loaded_world)).
Proof. vm_compute. auto. Qed.

(** X11.  [onSetEnabled] never fails and never changes the plugin state;
    it ends by reporting the status and persisting.  Enabling makes no
    call to the agent service, so policies that an earlier disabling
    switched off are not switched on again.  Disabling lists the agents
    and sends [{enabled: false}], in listing order, to the listed agents
    for which [state.policies[id]] is truthy.  When the agent service
    accepts every call, every such agent is called and nothing is written
    to the console.  When a call fails, the calls end with that one: the
    agents after it are not called, and one error line is written.  When
    the listing fails, no call is made and one error line is written.  In
    each case the status is then reported as inactive and the state is
    persisted.  Every batch is of one of the two kinds. *)
Theorem onSetEnabled_effects (host : Host) (w : World) :
  (exists now,
     onSetEnabled host true w =
       (Ok tt,
        {| state := state w;
           trace := trace w ++
             [EDateNow; EStatusUpdate "active" "Steam monitoring active" now;
              EConfigurationUpdate (state w)] |})) /\
  (exists w', onSetEnabled host false w = (Ok tt, w') /\ state w' = state w) /\
  (forall e,
     listAgents host (trace w) = Throw e ->
     exists now,
       onSetEnabled host false w =
         (Ok tt,
          {| state := state w;
             trace := trace w ++
               [EListAgents;
                EConsoleError "[Steam Plugin] Error disabling policies:" None;
                EDateNow; EStatusUpdate "inactive" "Steam monitoring paused" now;
                EConfigurationUpdate (state w)] |})) /\
  (forall listed,
     listAgents host (trace w) = Ok listed ->
     let tr1 := trace w ++ [EListAgents] in
     let sent := targets (state w) listed in
     (accepted host disable_update tr1 sent ->
      exists now,
        onSetEnabled host false w =
          (Ok tt,
           {| state := state w;
              trace := tr1 ++ calls disable_update sent ++
                [EDateNow; EStatusUpdate "inactive" "Steam monitoring paused" now;
                 EConfigurationUpdate (state w)] |})) /\
     (forall l1 a e,
        fails_at host disable_update tr1 sent l1 a e ->
        exists now,
          onSetEnabled host false w =
            (Ok tt,
             {| state := state w;
                trace := tr1 ++ calls disable_update (l1 ++ [a]) ++
                  [EConsoleError "[Steam Plugin] Error disabling policies:" None;
                   EDateNow; EStatusUpdate "inactive" "Steam monitoring paused" now;
                   EConfigurationUpdate (state w)] |})) /\
     (accepted host disable_update tr1 sent \/
      exists l1 a e, fails_at host disable_update tr1 sent l1 a e)).
Proof.
  assert (Hthrow : forall e,
            listAgents host (trace w) = Throw e ->
            exists now,
              onSetEnabled host false w =
                (Ok tt,
                 {| state := state w;
                    trace := trace w ++
                      [EListAgents;
                       EConsoleError "[Steam Plugin] Error disabling policies:" None;
                       EDateNow;
                       EStatusUpdate "inactive" "Steam monitoring paused" now;
                       EConfigurationUpdate (state w)] |})).
  { intros e He. eexists.
    unfold onSetEnabled, bind, try_catch, agentService_listAgents, call, date_now,
      console_error, emit, configurationUpdate. simpl. rewrite He. simpl.
    rewrite <- !app_assoc. reflexivity. }
  assert (Hacc : forall listed,
            listAgents host (trace w) = Ok listed ->
            accepted host disable_update (trace w ++ [EListAgents])
              (targets (state w) listed) ->
            exists now,
              onSetEnabled host false w =
                (Ok tt,
                 {| state := state w;
                    trace := (trace w ++ [EListAgents]) ++
                      calls disable_update (targets (state w) listed) ++
                      [EDateNow;
                       EStatusUpdate "inactive" "Steam monitoring paused" now;
                       EConfigurationUpdate (state w)] |})).
  { intros listed Hl Ha. eexists.
    unfold onSetEnabled, bind, try_catch, agentService_listAgents, call, date_now,
      console_error, emit, configurationUpdate. simpl. rewrite Hl.
    rewrite (FanOut.batch_accepted host disable_update (disable_policy host)
               (disable_policy_sends host) listed
               {| state := state w; trace := trace w ++ [EListAgents] |} Ha).
    simpl. rewrite <- !app_assoc. reflexivity. }
  assert (Hfail : forall listed l1 a e,
            listAgents host (trace w) = Ok listed ->
            fails_at host disable_update (trace w ++ [EListAgents])
              (targets (state w) listed) l1 a e ->
            exists now,
              onSetEnabled host false w =
                (Ok tt,
                 {| state := state w;
                    trace := (trace w ++ [EListAgents]) ++
                      calls disable_update (l1 ++ [a]) ++
                      [EConsoleError "[Steam Plugin] Error disabling policies:" None;
                       EDateNow;
                       EStatusUpdate "inactive" "Steam monitoring paused" now;
                       EConfigurationUpdate (state w)] |})).
  { intros listed l1 a e Hl Hf. eexists.
    unfold onSetEnabled, bind, try_catch, agentService_listAgents, call, date_now,
      console_error, emit, configurationUpdate. simpl. rewrite Hl.
    rewrite (FanOut.batch_fails host disable_update (disable_policy host)
               (disable_policy_sends host) listed
               {| state := state w; trace := trace w ++ [EListAgents] |} l1 a e Hf).
    simpl. rewrite <- !app_assoc. reflexivity. }
  split.
  { eexists. unfold onSetEnabled, bind, date_now, call, emit, configurationUpdate.
    simpl. rewrite <- !app_assoc. reflexivity. }
  split.
  { destruct (listAgents host (trace w)) as [listed|e] eqn:El.
    - destruct (FanOut.accepted_or_fails host disable_update
                  (targets (state w) listed) (trace w ++ [EListAgents]))
        as [Ha|(l1 & a & e & Hf)].
      + destruct (Hacc listed eq_refl Ha) as [now ->]. eexists. split; reflexivity.
      + destruct (Hfail listed l1 a e eq_refl Hf) as [now ->].
        eexists. split; reflexivity.
    - destruct (Hthrow e eq_refl) as [now ->]. eexists. split; reflexivity. }
  split; [exact Hthrow|].
  intros listed Hl. cbv zeta. split; [exact (Hacc listed Hl)|].
  split; [intros l1 a e; exact (Hfail listed l1 a e Hl)|].
  apply FanOut.accepted_or_fails.
Qed.

(** X11 where [A1], listed first, rejects every update: the call to [A1]
    is the only one, [A2] is not switched off, one line is written, and
    the status is reported all the same. *)
Example disabling_stops_at_the_failed_call :
  let w' := snd (onSetEnabled Examples.half_down_host false Examples.loaded_world) in
  trace w' = trace Examples.loaded_world ++
    [EListAgents; EUpdatePolicy "A1" disable_update;
     EConsoleError "[Steam Plugin] Error disabling policies:" None;
     EDateNow; EStatusUpdate "inactive" "Steam monitoring paused" 1000;
     EConfigurationUpdate (state Examples.loaded_world)] /\
  state w' = state Examples.loaded_world.
Proof. vm_compute. auto. Qed.

(** X14.  With an agent service at hand, [onLoad] never fails and
    always ends by reporting the status "ready", whatever that service
    answers.  When the listing fails, no
    policy is configured, one error line is written, and the state is the
    persisted one, or the default one when nothing was persisted. *)
Theorem onLoad_always_ready (host : Host) (loadState : option State) (w : World) :
  exists w' evs now,
    onLoad host loadState w = (Ok tt, w') /\
    trace w' = trace w ++ evs ++
      [EDateNow; EStatusUpdate "ready" "Steam monitoring active" now] /\
    settings (state w') = settings (default default_state loadState) /\
    agents (state w') = agents (default default_state loadState) /\
    violations (state w') = violations (default default_state loadState) /\
    forall e,
      listAgents host (trace w) = Throw e ->
      state w' = default default_state loadState /\
      evs = [EListAgents; EConsoleError "[Steam Plugin] Error listing agents:" None].
Proof.
  unfold onLoad, bind, try_catch, modify, agentService_listAgents, call,
    console_error, emit, date_now. simpl.
  destruct (listAgents host (trace w)) as [listed|e]; simpl.
  - pose proof (PolicyConfiguration.for_of_invariant
                  (fun x => exists evs,
                     trace x = (trace w ++ [EListAgents]) ++ evs /\
                     settings (state x) = settings (default default_state loadState) /\
                     agents (state x) = agents (default default_state loadState) /\
                     violations (state x) = violations (default default_state loadState))
                  (configureSteamPolicy host)) as Hinv.
    destruct (Hinv) with (xs := listed)
      (w := {| state := default default_state loadState;
               trace := trace w ++ [EListAgents] |})
      as (evs & Htr & Hse & Hag & Hvi).
    { intros agent x (evs & Htr & Hse & Hag & Hvi).
      destruct (PolicyConfiguration.configure_step host agent x)
        as (r & x' & evs' & Hrun & Htr' & Hse' & Hag' & _).
      rewrite Hrun. simpl. exists (evs ++ evs').
      rewrite Htr', Htr, app_assoc. split; [reflexivity|].
      split; [congruence|]. split; [congruence|].
      destruct (PolicyConfiguration.configure_calls host agent x) as (evs2 & _ & Hv & _).
      rewrite Hrun in Hv. simpl in Hv. congruence. }
    { exists []. rewrite app_nil_r. auto. }
    destruct (for_of listed (configureSteamPolicy host) _) as [[[]|e] w2]; simpl in *.
    + eexists; exists (EListAgents :: evs); eexists. split; [reflexivity|]. simpl.
      rewrite Htr, <- !app_assoc. split; [reflexivity|].
      do 3 (split; [assumption|]). intros e He. discriminate.
    + eexists; exists (EListAgents :: evs ++
                 [EConsoleError "[Steam Plugin] Error listing agents:" None]); eexists.
      split; [reflexivity|]. simpl.
      rewrite Htr, <- !app_assoc. split; [reflexivity|].
      do 3 (split; [assumption|]). intros e0 He. discriminate.
  - eexists; exists [EListAgents; EConsoleError "[Steam Plugin] Error listing agents:" None];
      eexists.
    split; [reflexivity|]. simpl.
    rewrite <- !app_assoc. split; [reflexivity|].
    do 3 (split; [reflexivity|]). intros e0 _. split; reflexivity.
Qed.

End LifecycleFacts.

(** ** The agent list and the status summary *)
Module StatusFacts.
Import Plugin PluginMore MoreSpec StatusSpec LinkSpec.

Lemma count_insert_index {V} (p : V -> bool) n v (l : list (N * V)) :
  length (List.filter p (map snd (JSObj.insert_index n v l)))
    = ((if p v then 1 else 0) + length (List.filter p (map snd l)))%nat.
Proof.
  induction l as [|[m x] l IH]; simpl.
  - destruct (p v); reflexivity.
  - destruct (n <? m)%N; simpl.
    + destruct (p v), (p x); reflexivity.
    + destruct (p x); simpl; rewrite IH; destruct (p v); simpl;
        rewrite <- ?plus_n_Sm; reflexivity.
Qed.

(** Counting over [Object.values] is counting over the entries. *)
Lemma count_values {V} (p : V -> bool) (o : JSObj.t V) :
  length (List.filter p (JSObj.values o))
    = length (List.filter (fun kv => p (snd kv)) o).
Proof.
  unfold JSObj.values. rewrite List.filter_app, length_app.
  induction o as [|[k v] o IH]; simpl.
  - reflexivity.
  - destruct (JSObj.array_index k); simpl.
    + rewrite count_insert_index. destruct (p v); simpl; rewrite <- IH; reflexivity.
    + destruct (p v); simpl; rewrite <- IH, <- ?plus_n_Sm; reflexivity.
Qed.

Lemma filter_ext_in {A} (f g : A -> bool) (l : list A) :
  (forall x, In x l -> f x = g x) -> List.filter f l = List.filter g l.
Proof.
  induction l as [|x l IH]; simpl; intros H.
  - reflexivity.
  - rewrite (H x (or_introl eq_refl)), IH; auto.
Qed.

Lemma linked_after_unlink (k : string) (s : State) :
  unique_keys s ->
  List.filter linked_pair (agents (unlinked k s))
    = List.filter (linked_elsewhere k) (agents s).
Proof.
  assert (Hother : forall (ag : JSObj.t AgentData.t),
             ~ In k (map fst ag) ->
             List.filter linked_pair ag = List.filter (linked_elsewhere k) ag).
  { intros ag Hn. apply filter_ext_in. intros [k2 a2] Hin.
    unfold linked_pair, linked_elsewhere. simpl.
    destruct (String.eqb k2 k) eqn:E2; [|now rewrite andb_true_r].
    apply String.eqb_eq in E2. subst k2. exfalso. apply Hn.
    apply in_map_iff. now exists (k, a2). }
  unfold unique_keys, unlinked. destruct s as [ag ch po vi se ls]. simpl.
  intros Hu. destruct (JSObj.get k ag) as [e|] eqn:E; simpl.
  - clear E. induction ag as [|[k' a] ag IH]; [reflexivity|].
    inversion Hu as [|? ? Hn Hu']; subst.
    cbn -[linked_pair linked_elsewhere].
    destruct (String.eqb k k') eqn:Ek; cbn -[linked_pair linked_elsewhere].
    + apply String.eqb_eq in Ek. subst k'.
      replace (linked_elsewhere k (k, a)) with false
        by (unfold linked_elsewhere; simpl; now rewrite String.eqb_refl, andb_false_r).
      replace (linked_pair (k, unlinked_entry e)) with false by reflexivity.
      now apply Hother.
    + replace (linked_elsewhere k (k', a)) with (linked_pair (k', a))
        by (unfold linked_elsewhere, linked_pair; simpl;
            now rewrite String.eqb_sym, Ek, andb_true_r).
      now rewrite (IH Hu').
  - apply Hother. intros Hin. apply in_map_iff in Hin as [[k2 a2] [Hk Hin]].
    simpl in Hk. subst k2. clear Hu Hother.
    induction ag as [|[k' a] ag IH]; simpl in *; [tauto|].
    destruct (String.eqb k k') eqn:Ek; [discriminate|].
    destruct Hin as [[= -> ->]|Hin]; [now rewrite String.eqb_refl in Ek | auto].
Qed.




(** X10.  [steam:getStatus] after an unlink.  The summary counts the
    entries that are linked to a subject, one per agent and not one per
    subject, so after [steam:unlinkAgent] it counts the linked entries of
    all other agents; it never reports more active agents than agents, and
    its recent violations are the newest ones, at most ten. *)
Theorem getStatus_after_unlink
    (host : Host) (agentId : string) (w : World) (listed : list Agent.t) :
  unique_keys (state w) ->
  listAgents host (trace (snd (unlinkAgent agentId w))) = Ok listed ->
  exists st w2,
    getStatus host (snd (unlinkAgent agentId w)) = (Ok (IpcOk st), w2) /\
    state w2 = state (snd (unlinkAgent agentId w)) /\
    Status.monitoredChildren st
      = length (List.filter (linked_elsewhere agentId) (agents (state w))) /\
    (Status.monitoredChildren st <= length (agents (state w)))%nat /\
    (Status.activeAgents st <= Status.agentCount st)%nat /\
    Status.agentCount st = length listed /\
    Status.recentViolations st = firstn 10 (violations (state w)).
Proof.
  rewrite Handlers.unlinkAgent_run. cbn [snd state trace]. intros Hu Hl.
  unfold getStatus, ipc_handler, try_catch, bind, agentService_listAgents, call,
    get_state, ret. cbn [state trace fst snd]. rewrite Hl.
  do 2 eexists. split; [reflexivity|]. cbn [state Status.monitoredChildren
    Status.activeAgents Status.agentCount Status.recentViolations].
  split; [reflexivity|].
  rewrite count_values.
  change (fun kv : string * AgentData.t => has_child (snd kv)) with linked_pair.
  rewrite (linked_after_unlink agentId (state w) Hu).
  split; [reflexivity|]. split; [apply List.filter_length_le|].
  split; [apply List.filter_length_le|]. split; [reflexivity|].
  rewrite (JSArrayFacts.slice_prefix _ 10) by (cbv; discriminate).
  unfold unlinked. destruct (JSObj.get agentId (agents (state w))); reflexivity.
Qed.

(** Agent [A1] of two agents linked to the same subject is unlinked: one
    monitored child is still reported. *)
Lemma getStatus_after_unlink_witness :
  unique_keys (state shared_child_world) /\
  listAgents Examples.half_down_host
    (trace (snd (unlinkAgent "A1" shared_child_world)))
    = Ok [Examples.pc1; Examples.pc2] /\
  exists st w2,
    getStatus Examples.half_down_host (snd (unlinkAgent "A1" shared_child_world))
      = (Ok (IpcOk st), w2) /\
    state w2 = state (snd (unlinkAgent "A1" shared_child_world)) /\
    Status.monitoredChildren st
      = length (List.filter (linked_elsewhere "A1") (agents (state shared_child_world))) /\
    (Status.monitoredChildren st <= length (agents (state shared_child_world)))%nat /\
    (Status.activeAgents st <= Status.agentCount st)%nat /\
    Status.agentCount st = length [Examples.pc1; Examples.pc2] /\
    Status.recentViolations st = firstn 10 (violations (state shared_child_world)).
Proof.
  split; [|split; [reflexivity|]].
  - repeat constructor; simpl; intuition discriminate.
  - apply (getStatus_after_unlink Examples.half_down_host "A1" shared_child_world
             [Examples.pc1; Examples.pc2]).
    + repeat constructor; simpl; intuition discriminate.
    + reflexivity.
Defined.

(** Two agents linked to one subject are reported as two monitored
    children. *)
Example status_counts_agents_not_subjects :
  exists st w2,
    getStatus Examples.half_down_host shared_child_world = (Ok (IpcOk st), w2) /\
    Status.monitoredChildren st = 2%nat.
Proof. do 2 eexists. split; reflexivity. Qed.

End StatusFacts.

(** ** The parser at its edges: failures, forced reads, cleared entries *)
Module CacheEdges.
Import SteamVDFParser CacheSpec VdfReader ReaderSpec.

Lemma reads_app (a b : list FsEvent) : reads (a ++ b) = reads a ++ reads b.
Proof. unfold reads. now rewrite flat_map_app. Qed.

Lemma parse_errors_app (a b : list FsEvent) :
  parse_errors (a ++ b) = parse_errors a ++ parse_errors b.
Proof. unfold parse_errors. now rewrite flat_map_app. Qed.

(** The [try] block in full: what it returns and what it leaves, by the
    answers of the file system and the decoder. *)
Lemma read_and_parse_run (fs : Fs) (filePath : string) (p : Parser) :
  exists r p' evs,
    read_and_parse fs filePath p = (r, p') /\
    fs_trace p' = fs_trace p ++ EReadFile filePath :: evs /\
    reads evs = [] /\
    match r with
    | Ok obj =>
        ref obj = next_ref p /\ next_ref p' = S (next_ref p) /\
        parse_errors evs = [] /\
        exists m, cache p' = <[filePath := {| data := obj; mtime := m |}]> (cache p)
    | Throw _ =>
        cache p' = cache p /\ parse_errors evs = [filePath] /\
        exists evs0,
          evs = evs0 ++ [EConsoleError "[SteamVDFParser] Error parsing VDF file:" filePath]
    end.
Proof.
  unfold read_and_parse, try_catch, bind, read_file, decode, stat_mtime, cache_set,
    emit, throw, ret. simpl.
  destruct (readFileSync fs (fs_trace p) filePath) as [content|e]; simpl.
  - destruct (vdf_parse fs content) as [v|e]; simpl.
    + destruct (statSync_mtime fs _ filePath) as [m|e]; simpl.
      * do 3 eexists. split; [reflexivity|]. simpl. rewrite <- !app_assoc. simpl.
        split; [reflexivity|]. split; [reflexivity|]. repeat split. now exists m.
      * exists (Throw e). eexists.
        exists [EDecode content; EStat filePath;
                EConsoleError "[SteamVDFParser] Error parsing VDF file:" filePath].
        split; [reflexivity|]. simpl. rewrite <- !app_assoc. simpl.
        repeat split. now exists [EDecode content; EStat filePath].
    + exists (Throw e). eexists.
      exists [EDecode content;
              EConsoleError "[SteamVDFParser] Error parsing VDF file:" filePath].
      split; [reflexivity|]. simpl. rewrite <- !app_assoc. simpl.
      repeat split. now exists [EDecode content].
  - exists (Throw e). eexists.
    exists [EConsoleError "[SteamVDFParser] Error parsing VDF file:" filePath].
    split; [reflexivity|]. simpl. rewrite <- !app_assoc. simpl.
    repeat split. now exists [].
Qed.

Lemma parseFile_uncached (fs : Fs) (filePath : string) (p : Parser) :
  parseFile fs filePath false p = read_and_parse fs filePath p.
Proof. reflexivity. Qed.

Lemma parseFile_absent (fs : Fs) (filePath : string) (p : Parser) :
  cache p !! filePath = None ->
  parseFile fs filePath true p = read_and_parse fs filePath p.
Proof.
  intros H. unfold parseFile, cache_check, bind, cache_get, ret. simpl.
  now rewrite H.
Qed.

(** X16.  A parse that fails leaves the cache as it was.  When the failure
    is the file's status in the cache check, the file is not read and
    nothing is written to the console; every other failure comes after
    the read and is written to the console once, with the path. *)
Theorem failed_parse_keeps_cache
    (fs : Fs) (filePath : string) (useCache : bool) (p p' : Parser) (e : JsError) :
  parseFile fs filePath useCache p = (Throw e, p') ->
  cache p' = cache p /\
  ((useCache = true /\ cache p !! filePath <> None /\
    statSync_mtime fs (fs_trace p) filePath = Throw e /\
    fs_trace p' = fs_trace p ++ [EStat filePath]) \/
   (exists evs,
      fs_trace p' = fs_trace p ++ evs /\
      reads evs = [filePath] /\ parse_errors evs = [filePath])).
Proof.
  assert (Hrp : forall q q', read_and_parse fs filePath q = (Throw e, q') ->
            cache q' = cache q /\
            exists evs, fs_trace q' = fs_trace q ++ EReadFile filePath :: evs /\
                        reads evs = [] /\ parse_errors evs = [filePath]).
  { intros q q' H.
    destruct (read_and_parse_run fs filePath q) as (r & q1 & evs & Hrun & Htr & Hrd & Hr).
    rewrite Hrun in H. injection H as -> ->.
    destruct Hr as (Hc & Hpe & _). split; [exact Hc|]. now exists evs. }
  destruct useCache.
  - unfold parseFile, cache_check, bind, cache_get, stat_mtime, ret. simpl.
    destruct (cache p !! filePath) as [entry|] eqn:Ec.
    + destruct (statSync_mtime fs (fs_trace p) filePath) as [m|e0] eqn:Es; simpl.
      * destruct (mtime entry =? m); simpl; [discriminate|].
        intros H. apply Hrp in H as (Hc & evs & Htr & Hrd & Hpe). simpl in *.
        split; [exact Hc|]. right. exists (EStat filePath :: EReadFile filePath :: evs).
        rewrite Htr, <- app_assoc. simpl. rewrite Hrd. auto.
      * intros [= -> <-]. simpl. split; [reflexivity|]. left. auto.
    + intros H. apply Hrp in H as (Hc & evs & Htr & Hrd & Hpe).
      split; [exact Hc|]. right. exists (EReadFile filePath :: evs).
      simpl. rewrite Hrd. auto.
  - rewrite parseFile_uncached. intros H.
    apply Hrp in H as (Hc & evs & Htr & Hrd & Hpe).
    split; [exact Hc|]. right. exists (EReadFile filePath :: evs).
    simpl. rewrite Hrd. auto.
Qed.

(** After a first parse the file is gone: the second parse fails in the
    cache check, the cached entry stays, nothing is logged. *)
Lemma failed_parse_keeps_cache_witness :
  parseFile vanishing_fs "localconfig.vdf" true parsed_once
    = (Throw (ServiceError "ENOENT"), parsed_then_gone) /\
  cache parsed_then_gone = cache parsed_once /\
  ((true = true /\ cache parsed_once !! "localconfig.vdf" <> None /\
    statSync_mtime vanishing_fs (fs_trace parsed_once) "localconfig.vdf"
      = Throw (ServiceError "ENOENT") /\
    fs_trace parsed_then_gone = fs_trace parsed_once ++ [EStat "localconfig.vdf"]) \/
   (exists evs,
      fs_trace parsed_then_gone = fs_trace parsed_once ++ evs /\
      reads evs = ["localconfig.vdf"] /\ parse_errors evs = ["localconfig.vdf"])).
Proof.
  split; [reflexivity|].
  apply (failed_parse_keeps_cache vanishing_fs "localconfig.vdf" true
           parsed_once parsed_then_gone (ServiceError "ENOENT")).
  reflexivity.
Defined.

(** X17.  A parse that is told not to use the cache reads the file first
    and never asks for its status before that.  When it succeeds, the
    result is a newly decoded object, distinct from every object in the
    cache, and it replaces the cached entry of the path; the entries of
    other paths stay. *)
Theorem uncached_parse_reads_and_stores
    (fs : Fs) (filePath : string) (p : Parser) :
  exists r p' evs,
    parseFile fs filePath false p = (r, p') /\
    fs_trace p' = fs_trace p ++ EReadFile filePath :: evs /\
    reads evs = [] /\
    forall obj,
      r = Ok obj ->
      (exists m, cache p' !! filePath = Some {| data := obj; mtime := m |}) /\
      (forall q, q <> filePath -> cache p' !! q = cache p !! q) /\
      (refs_below p ->
       forall k entry, cache p !! k = Some entry -> ref (data entry) <> ref obj).
Proof.
  rewrite parseFile_uncached.
  destruct (read_and_parse_run fs filePath p) as (r & p' & evs & Hrun & Htr & Hrd & Hr).
  exists r, p', evs. split; [exact Hrun|]. split; [exact Htr|]. split; [exact Hrd|].
  intros obj ->. destruct Hr as (Href & _ & _ & m & Hc). rewrite Hc. split.
  - exists m. apply lookup_insert_eq.
  - split.
    + intros q Hq. now apply lookup_insert_ne.
    + intros Hb k entry Hk. apply Hb in Hk. rewrite Href. lia.
Qed.

(** X18.  Clearing forces a read.  After [clearCacheForFile] the next
    parse of that path goes to the file whatever its modification time,
    exactly as a parse without the cache would; the entries of all other
    paths are kept, and a kept entry whose file is unchanged is still
    answered from the cache.  After [clearCache] this holds for every
    path.  Neither touches the file system. *)
Theorem clearing_forces_a_read (fs : Fs) (filePath : string) (p : Parser) :
  let p1 := snd (clearCacheForFile filePath p) in
  let p0 := snd (clearCache p) in
  parseFile fs filePath true p1 = parseFile fs filePath false p1 /\
  fs_trace p1 = fs_trace p /\
  (forall q entry,
     q <> filePath ->
     cache p !! q = Some entry ->
     statSync_mtime fs (fs_trace p) q = Ok (mtime entry) ->
     fst (parseFile fs q true p1) = Ok (data entry) /\
     reads (fs_trace (snd (parseFile fs q true p1))) = reads (fs_trace p)) /\
  (forall q, parseFile fs q true p0 = parseFile fs q false p0) /\
  fs_trace p0 = fs_trace p.
Proof.
  cbv zeta. unfold clearCacheForFile, clearCache. simpl.
  split.
  { rewrite parseFile_absent by (simpl; apply lookup_delete_eq). reflexivity. }
  split; [reflexivity|]. split.
  { intros q entry Hq Hc Hs.
    unfold parseFile, cache_check, bind, cache_get, stat_mtime, ret.
    cbn [cache fs_trace next_ref fst snd].
    rewrite lookup_delete_ne by congruence. rewrite Hc.
    cbn [cache fs_trace next_ref fst snd]. rewrite Hs. simpl.
    rewrite Z.eqb_refl. simpl. split; [reflexivity|].
    rewrite reads_app. simpl. apply app_nil_r. }
  split; [|reflexivity].
  intros q. rewrite parseFile_absent by (simpl; apply lookup_empty). reflexivity.
Qed.

End CacheEdges.

(** ** The accessors, the manifest scan and the watcher *)
Module ReaderFacts.
Import SteamVDFParser CacheSpec VdfReader ReaderSpec.

Lemma lift_run {A} (c : M Parser A) (r : Reader) :
  lift c r = (fst (c (parser r)), {| parser := snd (c (parser r)); notes := notes r |}).
Proof. unfold lift. now destruct (c (parser r)). Qed.

Lemma or_null_idem (v : option Vdf) : or_null (or_null v) = or_null v.
Proof. unfold or_null. destruct (truthy v) eqn:E; [now rewrite E | reflexivity]. Qed.

Lemma prop_falsy (k : string) (v : option Vdf) : truthy v = false -> prop k v = None.
Proof. destruct v as [[s|o]|]; simpl; [reflexivity | discriminate | reflexivity]. Qed.

Lemma getParentalSettings_run (fs : Fs) (filePath : string) (r : Reader) :
  getParentalSettings fs filePath r =
    match fst (parseFile fs filePath true (parser r)) with
    | Ok config =>
        (Ok (or_null (prop "parental"
                        (prop "UserLocalConfigStore" (Some (tree config))))),
         {| parser := snd (parseFile fs filePath true (parser r)); notes := notes r |})
    | Throw _ =>
        (Ok None,
         {| parser := snd (parseFile fs filePath true (parser r));
            notes := notes r ++
              [NConsoleError "[SteamVDFParser] Error getting parental settings:" None] |})
    end.
Proof.
  unfold getParentalSettings, try_catch, bind. rewrite lift_run.
  destruct (fst (parseFile fs filePath true (parser r))) as [config|e]; [|reflexivity].
  destruct (truthy (prop "UserLocalConfigStore" (Some (tree config)))) eqn:E;
    [reflexivity|].
  cbn [negb]. unfold ret. now rewrite (prop_falsy "parental" _ E).
Qed.

Lemma getPersonaName_run (fs : Fs) (filePath : string) (r : Reader) :
  getPersonaName fs filePath r =
    match fst (parseFile fs filePath true (parser r)) with
    | Ok config =>
        (Ok (or_null (prop "PersonaName"
                        (prop "friends"
                           (prop "UserLocalConfigStore" (Some (tree config)))))),
         {| parser := snd (parseFile fs filePath true (parser r)); notes := notes r |})
    | Throw _ =>
        (Ok None,
         {| parser := snd (parseFile fs filePath true (parser r));
            notes := notes r ++
              [NConsoleError "[SteamVDFParser] Error getting persona name:" None] |})
    end.
Proof.
  unfold getPersonaName, try_catch, bind. rewrite lift_run.
  destruct (fst (parseFile fs filePath true (parser r))) as [config|e]; [|reflexivity].
  destruct (truthy (prop "UserLocalConfigStore" (Some (tree config)))) eqn:E.
  - destruct (truthy (prop "friends" _)) eqn:E2; [reflexivity|].
    cbn [negb orb]. unfold ret. now rewrite (prop_falsy "PersonaName" _ E2).
  - cbn [negb orb]. unfold ret.
    now rewrite (prop_falsy "friends" _ E), (prop_falsy "PersonaName" None eq_refl).
Qed.

(** X20.  The two accessors never throw.  When the file parses, the result
    is the value found by walking [UserLocalConfigStore.parental], or
    [UserLocalConfigStore.friends.PersonaName], where a missing or empty
    step ends the walk, and it is [null] unless that value is truthy: an
    empty string is never returned.  When the parse fails the result is
    [null] and the accessor writes one console line.  Either way the
    parser is left as the parse left it. *)
Theorem accessors_walk_or_null (fs : Fs) (filePath : string) (r : Reader) :
  (exists v r',
     getParentalSettings fs filePath r = (Ok v, r') /\
     parser r' = snd (parseFile fs filePath true (parser r)) /\
     or_null v = v /\
     match fst (parseFile fs filePath true (parser r)) with
     | Ok config =>
         v = or_null (prop "parental"
                        (prop "UserLocalConfigStore" (Some (tree config)))) /\
         notes r' = notes r
     | Throw _ =>
         v = None /\
         notes r' = notes r ++
           [NConsoleError "[SteamVDFParser] Error getting parental settings:" None]
     end) /\
  (exists v r',
     getPersonaName fs filePath r = (Ok v, r') /\
     parser r' = snd (parseFile fs filePath true (parser r)) /\
     or_null v = v /\
     match fst (parseFile fs filePath true (parser r)) with
     | Ok config =>
         v = or_null (prop "PersonaName"
                        (prop "friends"
                           (prop "UserLocalConfigStore" (Some (tree config))))) /\
         notes r' = notes r
     | Throw _ =>
         v = None /\
         notes r' = notes r ++
           [NConsoleError "[SteamVDFParser] Error getting persona name:" None]
     end).
Proof.
  rewrite getParentalSettings_run, getPersonaName_run.
  destruct (fst (parseFile fs filePath true (parser r))) as [config|e]; split;
    do 2 eexists; (split; [reflexivity|]); (split; [reflexivity|]);
    (split; [first [apply or_null_idem | reflexivity] | split; reflexivity]).
Qed.

(** A configuration with an empty persona name and a string where the
    parental settings should be: the name is [null], the string is
    returned as the settings. *)
Example empty_name_and_string_settings :
  let fs := {| readFileSync := fun _ _ => Ok "";
               statSync_mtime := fun _ _ => Ok 5;
               vdf_parse := fun _ =>
                 Ok (VObj [("UserLocalConfigStore",
                            VObj [("friends", VObj [("PersonaName", VStr "")]);
                                  ("parental", VStr "off")])]) |} in
  fst (getPersonaName fs "localconfig.vdf" new_reader) = Ok None /\
  fst (getParentalSettings fs "localconfig.vdf" new_reader) = Ok (Some (VStr "off")).
Proof. split; reflexivity. Qed.

(** X21.  The accessors share the parser's cache: when the parental
    settings were read from a file that parsed and the file has not
    changed since, the persona name is taken from the same decoded object
    and the file is not read again. *)
Theorem accessors_share_one_read
    (fs : Fs) (filePath : string) (r : Reader) (config : ParsedObj) (p1 : Parser) :
  parseFile fs filePath true (parser r) = (Ok config, p1) ->
  (forall m, cache p1 !! filePath = Some {| data := config; mtime := m |} ->
             statSync_mtime fs (fs_trace p1) filePath = Ok m) ->
  exists v r2,
    getPersonaName fs filePath (snd (getParentalSettings fs filePath r)) = (Ok v, r2) /\
    v = or_null (prop "PersonaName"
                   (prop "friends" (prop "UserLocalConfigStore" (Some (tree config))))) /\
    reads (fs_trace (parser r2)) = reads (fs_trace p1) /\
    cache (parser r2) = cache p1 /\
    notes r2 = notes r.
Proof.
  intros Hp Hs.
  destruct (ParserCache.parseFile_caches fs _ _ _ _ _ Hp) as [m Hc].
  specialize (Hs m Hc).
  rewrite getParentalSettings_run, Hp. cbn [fst snd].
  rewrite getPersonaName_run. cbn [parser notes].
  rewrite (ParserCache.parseFile_hit fs filePath _ p1 Hc Hs). cbn [fst snd data].
  do 2 eexists. split; [reflexivity|]. split; [reflexivity|].
  cbn [parser fs_trace cache notes]. rewrite CacheEdges.reads_app. simpl.
  rewrite app_nil_r. auto.
Qed.

Lemma accessors_share_one_read_witness :
  parseFile still_fs "localconfig.vdf" true (parser new_reader)
    = (Ok parsed_old, after_first_parse) /\
  (forall m, cache after_first_parse !! "localconfig.vdf"
               = Some {| data := parsed_old; mtime := m |} ->
             statSync_mtime still_fs (fs_trace after_first_parse) "localconfig.vdf"
               = Ok m) /\
  exists v r2,
    getPersonaName still_fs "localconfig.vdf"
      (snd (getParentalSettings still_fs "localconfig.vdf" new_reader)) = (Ok v, r2) /\
    v = or_null (prop "PersonaName"
                   (prop "friends"
                      (prop "UserLocalConfigStore" (Some (tree parsed_old))))) /\
    reads (fs_trace (parser r2)) = reads (fs_trace after_first_parse) /\
    cache (parser r2) = cache after_first_parse /\
    notes r2 = notes new_reader.
Proof.
  assert (H : forall m, cache after_first_parse !! "localconfig.vdf"
               = Some {| data := parsed_old; mtime := m |} ->
             statSync_mtime still_fs (fs_trace after_first_parse) "localconfig.vdf"
               = Ok m).
  { intros m. vm_compute. intros [= <-]. reflexivity. }
  split; [reflexivity|]. split; [exact H|].
  apply (accessors_share_one_read still_fs "localconfig.vdf" new_reader
           parsed_old after_first_parse); [reflexivity | exact H].
Defined.

(** X19.  The listener that [watchFile] registers never throws.  An event
    other than ['change'] does nothing.  On ['change'] the cached entry is
    dropped and the file is read once, whatever its modification time, and
    no other cache entry changes.  When the parse succeeds, nothing is
    written by [parseFile], the callback gets the newly decoded object,
    which is then the cached one, and the listener writes one console line
    exactly when the callback throws.  When the parse fails, the callback
    is not called, the path is left without a cache entry, also if it had
    one before, and two console lines are written: the one of [parseFile],
    which names the path, and the one of the listener. *)
Theorem watch_event_effects
    (fs : Fs) (env : Env) (filePath eventType : string) (r : Reader) :
  exists r',
    on_watch_event fs env filePath eventType r = (Ok tt, r') /\
    (eventType <> "change" -> r' = r) /\
    (eventType = "change" ->
     exists evs,
       fs_trace (parser r') = fs_trace (parser r) ++ EReadFile filePath :: evs /\
       reads evs = [] /\
       (forall q, q <> filePath -> cache (parser r') !! q = cache (parser r) !! q) /\
       match fst (parseFile fs filePath true
                    (snd (clearCacheForFile filePath (parser r)))) with
       | Ok d =>
           ref d = next_ref (parser r) /\
           (exists m,
              cache (parser r') !! filePath = Some {| data := d; mtime := m |}) /\
           parse_errors evs = [] /\
           notes r' = notes r ++ NCallback d ::
             match callback env d with
             | Ok _ => []
             | Throw _ =>
                 [NConsoleError "[SteamVDFParser] Error in watch callback:" None]
             end
       | Throw _ =>
           cache (parser r') !! filePath = None /\
           parse_errors evs = [filePath] /\
           (exists evs0,
              evs = evs0 ++
                [EConsoleError "[SteamVDFParser] Error parsing VDF file:" filePath]) /\
           notes r' = notes r ++
             [NConsoleError "[SteamVDFParser] Error in watch callback:" None]
       end).
Proof.
  unfold on_watch_event.
  destruct (String.eqb eventType "change") eqn:E.
  - apply String.eqb_eq in E. subst eventType.
    unfold try_catch, bind. rewrite lift_run. cbn [fst snd].
    unfold clearCacheForFile at 1. cbn [fst].
    rewrite lift_run. cbn [parser notes].
    set (p0 := snd (clearCacheForFile filePath (parser r))).
    assert (Hp0 : cache p0 !! filePath = None) by apply lookup_delete_eq.
    rewrite (CacheEdges.parseFile_absent fs filePath p0 Hp0).
    destruct (CacheEdges.read_and_parse_run fs filePath p0)
      as (res & p' & evs & Hrun & Htr & Hrd & Hres).
    rewrite Hrun. cbn [fst snd].
    destruct res as [d|e].
    + destruct Hres as (Href & _ & Hpe & m & Hc).
      unfold call_back, note. cbn [parser notes].
      destruct (callback env d) as [[]|e];
        eexists; (split; [reflexivity|]); (split; [congruence|]); intros _;
        cbn [parser notes]; exists evs; (split; [exact Htr|]);
        (split; [exact Hrd|]);
        (split; [intros q Hq; rewrite Hc, lookup_insert_ne by congruence;
                 apply lookup_delete_ne; congruence|]);
        (split; [exact Href|]);
        (split; [exists m; rewrite Hc; apply lookup_insert_eq|]);
        (split; [exact Hpe|]); rewrite <- ?app_assoc; reflexivity.
    + destruct Hres as (Hc & Hpe & Hlast).
      unfold note. cbn [parser notes].
      eexists. split; [reflexivity|]. split; [congruence|]. intros _.
      cbn [parser notes]. exists evs. split; [exact Htr|]. split; [exact Hrd|].
      split; [intros q Hq; rewrite Hc; apply lookup_delete_ne; congruence|].
      split; [rewrite Hc; exact Hp0|]. split; [exact Hpe|].
      split; [exact Hlast | reflexivity].
  - exists r. split; [reflexivity|]. split; [reflexivity|].
    intros ->. discriminate.
Qed.

(** The watched file is gone when the change is reported: the entry that
    an earlier parse had cached is lost, and the console gets the line of
    [parseFile] and the line of the listener. *)
Example change_of_a_vanished_file :
  let r := {| parser := parsed_once; notes := [] |} in
  let r' := snd (on_watch_event vanishing_fs library_env "localconfig.vdf" "change" r) in
  cache (parser r) !! "localconfig.vdf" = Some {| data := parsed_old; mtime := 5 |} /\
  cache (parser r') !! "localconfig.vdf" = None /\
  delivered (notes r') = [] /\
  parse_errors (fs_trace (parser r)) = [] /\
  parse_errors (fs_trace (parser r')) = ["localconfig.vdf"] /\
  error_notes (notes r')
    = [NConsoleError "[SteamVDFParser] Error in watch callback:" None].
Proof. vm_compute. auto 10. Qed.

Lemma error_notes_app (a b : list Note) :
  error_notes (a ++ b) = error_notes a ++ error_notes b.
Proof. unfold error_notes. apply List.filter_app. Qed.

(** One round of the scan in full, by what [parseFile] answers. *)
Lemma scan_manifest_exact (fs : Fs) (env : Env) (dir file : string)
    (games : list Game) (r : Reader) :
  let run := parseFile fs (path_join env dir file) false (parser r) in
  scan_manifest fs env dir file games r =
    (Ok (games ++ pushed [outcome_of (fst run)]),
     {| parser := snd run;
        notes := notes r ++
          map manifest_line (failed_files [file] [outcome_of (fst run)]) |}).
Proof.
  cbv zeta. unfold scan_manifest, try_catch, bind. rewrite lift_run.
  destruct (fst (parseFile fs (path_join env dir file) false (parser r)))
    as [manifest|e]; cbn [fst snd outcome_of].
  - destruct (truthy (prop "AppState" (Some (tree manifest))));
      unfold ret; cbn [pushed flat_map failed_files map app];
      rewrite ?app_nil_r; reflexivity.
  - unfold note, ret. cbn [pushed flat_map failed_files map app parser notes].
    rewrite ?app_nil_r. reflexivity.
Qed.

(** What a parse without the cache adds to the parser's trace: the read,
    and the line of [parseFile] exactly when it fails. *)
Lemma uncached_parse_trace (fs : Fs) (path : string) (p : Parser) :
  exists new,
    fs_trace (snd (parseFile fs path false p)) = fs_trace p ++ new /\
    reads new = [path] /\
    parse_errors new =
      match fst (parseFile fs path false p) with Ok _ => [] | Throw _ => [path] end.
Proof.
  rewrite CacheEdges.parseFile_uncached.
  destruct (CacheEdges.read_and_parse_run fs path p)
    as (res & p' & evs & Hrun & Htr & Hrd & Hres).
  rewrite Hrun. cbn [fst snd]. exists (EReadFile path :: evs).
  split; [exact Htr|]. split; [simpl; now rewrite Hrd|].
  destruct res as [d|e]; simpl.
  - now destruct Hres as (_ & _ & Hpe & _).
  - now destruct Hres as (_ & Hpe & _).
Qed.

(** The whole scan, by the contributions of the files. *)
Lemma scan_manifests_exact (fs : Fs) (env : Env) (dir : string) (files : list string) :
  forall (games : list Game) (r : Reader),
  exists r' new,
    scan_manifests fs env dir files games r
      = (Ok (games ++ pushed (outcomes fs env dir files (parser r))), r') /\
    notes r' = notes r ++
      map manifest_line
        (failed_files files (outcomes fs env dir files (parser r))) /\
    fs_trace (parser r') = fs_trace (parser r) ++ new /\
    reads new = map (path_join env dir) files /\
    parse_errors new =
      map (path_join env dir)
        (failed_files files (outcomes fs env dir files (parser r))).
Proof.
  induction files as [|file rest IH]; intros games r.
  - exists r, []. simpl. rewrite !app_nil_r. auto.
  - cbn [scan_manifests outcomes]. unfold bind.
    rewrite scan_manifest_exact. cbv zeta.
    set (run := parseFile fs (path_join env dir file) false (parser r)).
    destruct (uncached_parse_trace fs (path_join env dir file) (parser r))
      as (new1 & Htr1 & Hrd1 & Hpe1).
    fold run in Htr1, Hpe1.
    destruct (IH (games ++ pushed [outcome_of (fst run)])
                {| parser := snd run;
                   notes := notes r ++
                     map manifest_line (failed_files [file] [outcome_of (fst run)]) |})
      as (r' & new2 & Hrun & Hn & Htr2 & Hrd2 & Hpe2).
    cbn [parser notes] in Hrun, Hn, Htr2, Hpe2.
    exists r', (new1 ++ new2). rewrite Hrun.
    split.
    { f_equal. f_equal. rewrite <- app_assoc. f_equal.
      unfold pushed. cbn [flat_map]. now rewrite app_nil_r. }
    split.
    { rewrite Hn, <- app_assoc. f_equal. rewrite <- map_app. f_equal.
      cbn [failed_files]. now rewrite app_nil_r. }
    split; [now rewrite Htr2, Htr1, app_assoc|].
    split; [now rewrite CacheEdges.reads_app, Hrd1, Hrd2|].
    rewrite CacheEdges.parse_errors_app, Hpe1, Hpe2. cbn [failed_files].
    rewrite map_app. f_equal.
    unfold outcome_of. destruct (fst run) as [manifest|e]; [|reflexivity].
    now destruct (truthy (prop "AppState" (Some (tree manifest)))).
Qed.

Lemma pushed_and_failed (files : list string) :
  forall os, length os = length files ->
    (length (pushed os) + length (failed_files files os) <= length files)%nat.
Proof.
  induction files as [|f files IH]; intros [|o os] Hlen; try discriminate.
  - simpl. lia.
  - injection Hlen as Hlen. specialize (IH os Hlen).
    unfold pushed in *. cbn [flat_map failed_files]. rewrite !length_app.
    destruct o; simpl; lia.
Qed.

Lemma outcomes_length (fs : Fs) (env : Env) (dir : string) (files : list string) :
  forall p, length (outcomes fs env dir files p) = length files.
Proof. induction files as [|f files IH]; intros p; simpl; [reflexivity | now rewrite IH]. Qed.

(** X22.  [getInstalledGames] never throws.  When the directory cannot be
    listed, the result is empty, one line is written and no file is
    touched.  Otherwise exactly the files named [appmanifest_*.acf] are
    read, each once and in listing order, on every call, whatever the
    cache holds, and what each contributes is decided by its parse alone:
    a manifest that parses and has an [AppState] contributes one game, one
    that parses without an [AppState] contributes nothing, and one that
    fails to parse costs two console lines, the one of [parseFile], which
    names the path, and the one of the scan, which names the file, and
    does not stop the scan.  The result holds the contributed games in
    listing order, the scan's lines name exactly the failed manifests in
    listing order, and games and failed manifests together are at most the
    manifests. *)
Theorem installed_games_scan (fs : Fs) (env : Env) (steamappsPath : string) (r : Reader) :
  exists games r' ns,
    getInstalledGames fs env steamappsPath r = (Ok games, r') /\
    notes r' = notes r ++ NReaddir steamappsPath :: ns /\
    match readdirSync env (fs_trace (parser r)) steamappsPath with
    | Throw _ =>
        games = [] /\ parser r' = parser r /\
        ns = [NConsoleError "[SteamVDFParser] Error getting installed games:" None]
    | Ok files =>
        let manifests := List.filter is_manifest files in
        let os := outcomes fs env steamappsPath manifests (parser r) in
        games = pushed os /\
        ns = map manifest_line (failed_files manifests os) /\
        (exists new,
           fs_trace (parser r') = fs_trace (parser r) ++ new /\
           reads new = map (path_join env steamappsPath) manifests /\
           parse_errors new
             = map (path_join env steamappsPath) (failed_files manifests os)) /\
        (length games + length (error_notes ns) <= length manifests)%nat
    end /\
    (forall file games0 r0,
       let run := parseFile fs (path_join env steamappsPath file) false (parser r0) in
       scan_manifest fs env steamappsPath file games0 r0 =
         match fst run with
         | Ok manifest =>
             (Ok (if truthy (prop "AppState" (Some (tree manifest)))
                  then games0 ++ [game_of manifest] else games0),
              {| parser := snd run; notes := notes r0 |})
         | Throw _ =>
             (Ok games0,
              {| parser := snd run; notes := notes r0 ++ [manifest_line file] |})
         end).
Proof.
  assert (Hround : forall file games0 r0,
            let run := parseFile fs (path_join env steamappsPath file) false
                         (parser r0) in
            scan_manifest fs env steamappsPath file games0 r0 =
              match fst run with
              | Ok manifest =>
                  (Ok (if truthy (prop "AppState" (Some (tree manifest)))
                       then games0 ++ [game_of manifest] else games0),
                   {| parser := snd run; notes := notes r0 |})
              | Throw _ =>
                  (Ok games0,
                   {| parser := snd run; notes := notes r0 ++ [manifest_line file] |})
              end).
  { intros file games0 r0. cbv zeta. rewrite scan_manifest_exact. cbv zeta.
    destruct (fst (parseFile fs (path_join env steamappsPath file) false (parser r0)))
      as [manifest|e]; cbn [outcome_of].
    - destruct (truthy (prop "AppState" (Some (tree manifest))));
        cbn [pushed flat_map failed_files map app]; rewrite ?app_nil_r; reflexivity.
    - cbn [pushed flat_map failed_files map app]. rewrite ?app_nil_r. reflexivity. }
  unfold getInstalledGames, try_catch, bind, readdir. cbn [fst snd].
  destruct (readdirSync env (fs_trace (parser r)) steamappsPath) as [files|e].
  - destruct (scan_manifests_exact fs env steamappsPath (List.filter is_manifest files) []
                {| parser := parser r; notes := notes r ++ [NReaddir steamappsPath] |})
      as (r' & new & Hrun & Hn & Htr & Hrd & Hpe).
    rewrite Hrun. cbn [parser notes] in *.
    do 3 eexists. split; [reflexivity|].
    rewrite Hn, <- app_assoc. split; [reflexivity|].
    split; [|exact Hround]. cbv zeta.
    split; [reflexivity|]. split; [reflexivity|].
    split; [exists new; auto|].
    assert (Hall : forall l, error_notes (map manifest_line l) = map manifest_line l).
    { induction l as [|x l IHl]; simpl; [reflexivity | now rewrite IHl]. }
    rewrite Hall, length_map. cbn [app].
    apply pushed_and_failed, outcomes_length.
  - unfold note. cbn [parser notes]. do 3 eexists. split; [reflexivity|].
    cbn [parser notes]. rewrite <- app_assoc. split; [reflexivity|].
    split; [auto | exact Hround].
Qed.

(** A library with two manifests, one of them broken, and a third file:
    one game, two reads, and the two console lines of the broken
    manifest. *)
Example one_broken_manifest :
  let run := getInstalledGames library_fs library_env "apps" new_reader in
  fst run = Ok [{| appId := Some (VStr "10"); name := Some (VStr "Counter-Strike");
                   installDir := None; lastUpdated := None; sizeOnDisk := None |}] /\
  error_notes (notes (snd run))
    = [NConsoleError "[SteamVDFParser] Error parsing manifest:"
         (Some "appmanifest_20.acf")] /\
  reads (fs_trace (parser (snd run)))
    = ["apps/appmanifest_10.acf"; "apps/appmanifest_20.acf"] /\
  parse_errors (fs_trace (parser (snd run))) = ["apps/appmanifest_20.acf"].
Proof. vm_compute. auto. Qed.

End ReaderFacts.

(** ** SteamMonitor: paths, account directories, process names *)
Module PathFacts.
Import SteamPaths.

Lemma expected_paths_shape (os : Os) (paths : Paths) :
  expected_paths os = Ok paths ->
  paths = no_paths \/ exists base, paths = under os base.
Proof.
  unfold expected_paths.
  destruct (String.eqb (platform os) "win32"); [intros [= <-]; eauto|].
  destruct (String.eqb (platform os) "darwin");
    [destruct (homedir os); [intros [= <-]; eauto | discriminate]|].
  destruct (String.eqb (platform os) "linux");
    [destruct (homedir os); [intros [= <-]; eauto | discriminate]|].
  intros [= <-]. now left.
Qed.

Lemma expected_paths_known (os : Os) :
  Obs.known_platform (platform os) ->
  (platform os = "win32" \/ exists h, homedir os = Ok h) ->
  exists base, expected_paths os = Ok (under os base).
Proof.
  unfold expected_paths. intros Hk Hh.
  destruct (String.eqb (platform os) "win32") eqn:E1; [eauto|].
  assert (Hhome : exists h, homedir os = Ok h).
  { destruct Hh as [Hw|Hh]; [|exact Hh]. rewrite Hw in E1. discriminate. }
  destruct Hhome as [h ->].
  destruct (String.eqb (platform os) "darwin") eqn:E2; [eauto|].
  destruct (String.eqb (platform os) "linux") eqn:E3; [eauto|].
  destruct Hk as [Hp|[Hp|Hp]]; rewrite Hp in *; discriminate.
Qed.

Lemma names_of_numeric (l : list Dirent) :
  map name (List.filter (fun entry => numeric (name entry)) l)
    = List.filter numeric (map name l).
Proof.
  induction l as [|e l IH]; simpl; [reflexivity|].
  destruct (numeric (name e)); simpl; now rewrite IH.
Qed.

(** A listing that succeeds: the numeric directories, in order. *)
Lemma user_directories_listed (steamPaths : Paths) (os : Os) (u : string)
    (entries : list Dirent) :
  userdata steamPaths = Some u -> JSString.truthy u = true ->
  existsSync os u = true -> readdirSync os u = Ok entries ->
  snd (getSteamUserDirectories steamPaths os) = [] /\
  map steamId3 (fst (getSteamUserDirectories steamPaths os))
    = List.filter numeric (map name (List.filter isDirectory entries)).
Proof.
  intros Hu Ht Hx Hr. unfold getSteamUserDirectories. rewrite Hu, Ht, Hx, Hr. simpl.
  split; [reflexivity|]. rewrite map_map. simpl. apply names_of_numeric.
Qed.

(** Steam is not found on a known platform: only the config path is
    withdrawn. *)
Lemma detected_without_steam (os : Os) :
  Obs.known_platform (platform os) ->
  (platform os = "win32" \/ exists h, homedir os = Ok h) ->
  (forall c, existsSync os c = false) ->
  exists base,
    fst (detectSteamPaths os)
      = {| config := None;
           userdata := Some (path_join os [base; "userdata"]);
           steamapps := Some (path_join os [base; "steamapps"]) |}.
Proof.
  intros Hk Hh Hx. destruct (expected_paths_known os Hk Hh) as [base Hb].
  exists base. unfold detectSteamPaths. rewrite Hb. simpl.
  now rewrite Hx, andb_false_r.
Qed.

(** X23.  [detectSteamPaths] never throws and writes one console line.  A
    config path is reported only if it exists.  The userdata and
    steamapps paths are set or missing together, and they do not depend
    on Steam being found: on Windows, and on macOS and Linux when the
    home directory is known, both are set even when the config path is
    withdrawn.  On any other platform all three are missing, with the
    warning of a Steam that was not found. *)
Theorem detected_paths_shape (os : Os) :
  let paths := fst (detectSteamPaths os) in
  let lines := snd (detectSteamPaths os) in
  length lines = 1%nat /\
  (forall c, config paths = Some c -> existsSync os c = true) /\
  (userdata paths = None <-> steamapps paths = None) /\
  (config paths <> None -> userdata paths <> None) /\
  (Obs.known_platform (platform os) ->
   (platform os = "win32" \/ exists h, homedir os = Ok h) ->
   exists base,
     userdata paths = Some (path_join os [base; "userdata"]) /\
     steamapps paths = Some (path_join os [base; "steamapps"]) /\
     (config paths = None \/ config paths = Some (path_join os [base; "config"]))) /\
  (~ Obs.known_platform (platform os) ->
   paths = no_paths /\
   lines = [Warn "[SteamMonitor] Steam installation not found at expected location"]).
Proof.
  cbv zeta. unfold detectSteamPaths.
  destruct (expected_paths os) as [paths|e] eqn:E.
  - assert (Hshape := expected_paths_shape os paths E).
    split.
    { destruct (config paths) as [c|]; [destruct (_ && _)|]; reflexivity. }
    split.
    { intros c. destruct Hshape as [->|[base ->]]; simpl; [discriminate|].
      destruct (_ && existsSync os _) eqn:Ex; simpl; [|discriminate].
      intros [= <-]. apply andb_true_iff in Ex as [_ Ex]. exact Ex. }
    split.
    { destruct Hshape as [->|[base ->]]; simpl;
        [tauto | destruct (_ && _); simpl; split; discriminate]. }
    split.
    { destruct Hshape as [->|[base ->]]; simpl;
        [tauto | destruct (_ && _); simpl; discriminate]. }
    split.
    { intros Hk Hh. destruct (expected_paths_known os Hk Hh) as [base Hb].
      rewrite Hb in E. injection E as <-. exists base. simpl.
      destruct (_ && _); simpl; auto. }
    { intros Hn. assert (paths = no_paths) as ->; [|split; reflexivity].
      revert E. unfold expected_paths.
      destruct (String.eqb (platform os) "win32") eqn:E1;
        [apply String.eqb_eq in E1; exfalso; apply Hn; left; exact E1|].
      destruct (String.eqb (platform os) "darwin") eqn:E2;
        [apply String.eqb_eq in E2; exfalso; apply Hn; right; left; exact E2|].
      destruct (String.eqb (platform os) "linux") eqn:E3;
        [apply String.eqb_eq in E3; exfalso; apply Hn; right; right; exact E3|].
      now intros [= <-]. }
  - simpl. split; [reflexivity|]. split; [discriminate|]. split; [tauto|].
    split; [tauto|]. split.
    + intros Hk Hh. destruct (expected_paths_known os Hk Hh) as [base Hb]. congruence.
    + intros Hn. exfalso. revert E. unfold expected_paths.
      destruct (String.eqb (platform os) "win32"); [discriminate|].
      destruct (String.eqb (platform os) "darwin") eqn:E2;
        [apply String.eqb_eq in E2; elim Hn; right; left; exact E2|].
      destruct (String.eqb (platform os) "linux") eqn:E3;
        [apply String.eqb_eq in E3; elim Hn; right; right; exact E3|].
      discriminate.
Qed.

(** X24.  [getSteamUserDirectories] never throws.  Its result holds, in
    listing order, the directories of the userdata path whose names are
    one or more decimal digits and nothing else, each with the path of
    that entry; files and other names are left out, and nothing is
    written.  Without a userdata path, with an empty one, or when the path
    does not exist, the result is empty and nothing is written.  When the
    path exists and listing it fails, the result is empty and one error
    line is written. *)
Theorem user_directories_are_numeric (steamPaths : Paths) (os : Os) :
  let dirs := fst (getSteamUserDirectories steamPaths os) in
  let lines := snd (getSteamUserDirectories steamPaths os) in
  Forall (fun d =>
            steamId3 d <> EmptyString /\
            Forall (fun c => In c (list_ascii_of_string "0123456789"))
                   (list_ascii_of_string (steamId3 d)) /\
            exists u, userdata steamPaths = Some u /\
                      path d = path_join os [u; steamId3 d]) dirs /\
  (forall u entries,
     userdata steamPaths = Some u -> JSString.truthy u = true ->
     existsSync os u = true -> readdirSync os u = Ok entries ->
     lines = [] /\
     map steamId3 dirs
       = List.filter numeric (map name (List.filter isDirectory entries))) /\
  (forall u, userdata steamPaths = Some u -> existsSync os u = false ->
             dirs = [] /\ lines = []) /\
  (userdata steamPaths = None -> dirs = [] /\ lines = []) /\
  (dirs <> [] -> lines = []) /\
  (forall u e,
     userdata steamPaths = Some u -> JSString.truthy u = true ->
     existsSync os u = true -> readdirSync os u = Throw e ->
     dirs = [] /\
     lines = [Error "[SteamMonitor] Error reading userdata directory:"]) /\
  (forall u, userdata steamPaths = Some u -> JSString.truthy u = false ->
             dirs = [] /\ lines = []).
Proof.
  assert (Hdigit : forall c, is_digit c = true ->
                     In c (list_ascii_of_string "0123456789")).
  { intros c Hc. unfold is_digit in Hc. apply andb_true_iff in Hc as [H1 H2].
    apply Nat.leb_le in H1, H2. rewrite <- (ascii_nat_embedding c).
    remember (nat_of_ascii c) as n eqn:En. clear En c.
    do 48 (destruct n as [|n]; [lia|]).
    do 10 (destruct n as [|n]; [vm_compute; auto 15|]). lia. }
  assert (Hnum : forall s, all_digits s = true ->
                   Forall (fun c => In c (list_ascii_of_string "0123456789"))
                          (list_ascii_of_string s)).
  { induction s as [|c s IH]; [constructor|].
    intros H. simpl in H. apply andb_true_iff in H as [Hc Hs].
    change (list_ascii_of_string (String c s)) with (c :: list_ascii_of_string s).
    constructor; [now apply Hdigit | now apply IH]. }
  cbv zeta. unfold getSteamUserDirectories.
  destruct (userdata steamPaths) as [u|]; simpl.
  - destruct (JSString.truthy u) eqn:Et; simpl.
    + destruct (existsSync os u) eqn:Ex; simpl.
      * destruct (readdirSync os u) as [entries|e] eqn:Er; simpl.
        -- split.
           { apply List.Forall_forall. intros d Hd.
             apply in_map_iff in Hd as (en & <- & Hen).
             apply List.filter_In in Hen as [_ Hn]. simpl.
             unfold numeric in Hn. apply andb_true_iff in Hn as [Hne Hall].
             split; [intros H0; rewrite H0 in Hne; discriminate|].
             split; [now apply Hnum|]. eauto. }
           split.
           { intros u0 en0 [= <-] _ _ Hr. rewrite Er in Hr. injection Hr as <-.
             split; [reflexivity|].
             rewrite map_map. simpl. apply names_of_numeric. }
           split; [intros u0 [= <-] Hf; congruence|].
           split; [discriminate|]. split; [reflexivity|].
           split; [intros u0 e0 [= <-] _ _ Hr; congruence
                  | intros u0 [= <-] Hf; congruence].
        -- split; [constructor|]. split; [intros u0 en0 [= <-] _ _; congruence|].
           split; [intros u0 [= <-] Hf; congruence|].
           split; [discriminate|]. split; [intros H; now elim H|].
           split; [intros u0 e0 [= <-] _ _ _; split; reflexivity
                  | intros u0 [= <-] Hf; congruence].
      * split; [constructor|]. split; [intros u0 en0 [= <-] _; congruence|].
        split; [auto|]. split; [discriminate|]. split; [reflexivity|].
        split; [intros u0 e0 [= <-] _ Hx; congruence
               | intros u0 [= <-] Hf; congruence].
    + split; [constructor|]. split; [intros u0 en0 [= <-]; congruence|].
      split; [auto|]. split; [discriminate|]. split; [reflexivity|].
      split; [intros u0 e0 [= <-] Ht; congruence | auto].
  - split; [constructor|]. split; [discriminate|]. split; [discriminate|].
    split; [auto|]. split; [reflexivity|]. split; discriminate.
Qed.

(** On a machine whose userdata directory exists and cannot be listed:
    no account, and the one error line. *)
Example unreadable_userdata :
  let os := {| platform := "linux"; ProgramFiles_x86 := None;
               homedir := Ok "/home/kim"; existsSync := fun _ => true;
               readdirSync := fun _ => Throw (ServiceError "EACCES");
               path_join := slash_join |} in
  getSteamUserDirectories (fst (detectSteamPaths os)) os
    = ([], [Error "[SteamMonitor] Error reading userdata directory:"]).
Proof. reflexivity. Qed.


(** On the machine with two accounts: the file [777] and the directory
    [ac] are left out. *)
Example two_accounts :
  fst (getSteamUserDirectories (fst (detectSteamPaths steam_linux)) steam_linux)
    = [{| steamId3 := "12345";
          path := "/home/kim/.steam/steam/userdata/12345" |};
       {| steamId3 := "99";
          path := "/home/kim/.steam/steam/userdata/99" |}].
Proof. reflexivity. Qed.

(** X25.  A monitor that was created on a machine without Steam still
    knows where the accounts would be.  The config path is withdrawn,
    the userdata path is not, so [getVDFConfigPath] answers with a path
    for any account, and [getSteamUserDirectories] starts to list the
    accounts once the directory appears, without the paths being
    detected again. *)
Theorem paths_survive_missing_steam (os later : Os) (steamId3 : string) :
  Obs.known_platform (platform os) ->
  (platform os = "win32" \/ exists h, homedir os = Ok h) ->
  (forall parts, JSString.truthy (path_join os parts) = true) ->
  (forall c, existsSync os c = false) ->
  let steamPaths := fst (detectSteamPaths os) in
  config steamPaths = None /\
  (exists u,
     userdata steamPaths = Some u /\
     getVDFConfigPath steamPaths later steamId3
       = Some (path_join later [u; steamId3; "config"; "localconfig.vdf"]) /\
     getSteamUserDirectories steamPaths os = ([], []) /\
     (existsSync later u = true ->
      forall entries, readdirSync later u = Ok entries ->
      map SteamPaths.steamId3 (fst (getSteamUserDirectories steamPaths later))
        = List.filter numeric (map name (List.filter isDirectory entries)))).
Proof.
  intros Hk Hh Hj Hx. cbv zeta.
  destruct (detected_without_steam os Hk Hh Hx) as [base Hd]. rewrite Hd.
  cbn [config userdata]. split; [reflexivity|].
  eexists. split; [reflexivity|].
  split; [unfold getVDFConfigPath; cbn [userdata]; now rewrite Hj|].
  split; [unfold getSteamUserDirectories; cbn [userdata]; now rewrite Hj, Hx|].
  intros Hex entries Hr.
  match goal with
  | |- context [getSteamUserDirectories ?sp later] =>
      now destruct (user_directories_listed sp later
                      (path_join os [base; "userdata"]) entries eq_refl (Hj _) Hex Hr)
  end.
Qed.

Lemma paths_survive_missing_steam_witness :
  Obs.known_platform (platform bare_linux) /\
  (platform bare_linux = "win32" \/ exists h, homedir bare_linux = Ok h) /\
  (forall parts, JSString.truthy (path_join bare_linux parts) = true) /\
  (forall c, existsSync bare_linux c = false) /\
  config (fst (detectSteamPaths bare_linux)) = None /\
  (exists u,
     userdata (fst (detectSteamPaths bare_linux)) = Some u /\
     getVDFConfigPath (fst (detectSteamPaths bare_linux)) steam_linux "12345"
       = Some (path_join steam_linux [u; "12345"; "config"; "localconfig.vdf"]) /\
     getSteamUserDirectories (fst (detectSteamPaths bare_linux)) bare_linux = ([], []) /\
     (existsSync steam_linux u = true ->
      forall entries, readdirSync steam_linux u = Ok entries ->
      map SteamPaths.steamId3
          (fst (getSteamUserDirectories (fst (detectSteamPaths bare_linux)) steam_linux))
        = List.filter numeric (map name (List.filter isDirectory entries)))).
Proof.
  assert (Hk : Obs.known_platform (platform bare_linux)) by (right; right; reflexivity).
  assert (Hh : platform bare_linux = "win32" \/ exists h, homedir bare_linux = Ok h)
    by (right; exists "/home/kim"; reflexivity).
  assert (Hj : forall parts, JSString.truthy (path_join bare_linux parts) = true).
  { intros parts. simpl. unfold slash_join.
    destruct (JSString.truthy (String.concat "/" parts)) eqn:E; [exact E | reflexivity]. }
  assert (Hx : forall c, existsSync bare_linux c = false) by reflexivity.
  split; [exact Hk|]. split; [exact Hh|]. split; [exact Hj|]. split; [exact Hx|].
  exact (paths_survive_missing_steam bare_linux steam_linux "12345" Hk Hh Hj Hx).
Defined.

(** X26.  On the plugin's machine the monitor always has a main process
    name: whatever [os.platform()] returns, [getProcessNames] answers with
    three names whose head is [getMainProcessName], and for a platform
    outside the table these are the Windows names.  The plugin does not ask
    the monitor when it creates a policy: [configureSteamPolicy] reads its
    own table under the agent's platform tag.  The two agree for an agent
    of the machine's own platform when that is one of the three known
    ones: the one create-policy call carries the list and the main name
    that the monitor reports.  For every other tag they differ: the
    monitor of such a platform reports the Windows names, while
    [configureSteamPolicy] throws before any call, or, for a tag that names
    a member of [Object.prototype], issues a call without a process
    name. *)
Theorem monitor_and_policy_names
    (os : Os) (host : Host) (agent : Agent.t) (w : World) :
  let tag := PolicySpec.platform_tag agent in
  (exists n rest,
     SteamMonitor.getProcessNames (platform os) = n :: rest /\
     length rest = 2%nat /\
     SteamMonitor.getMainProcessName (platform os) = Some n) /\
  (~ Obs.known_platform (platform os) ->
   SteamMonitor.getProcessNames (platform os)
     = ["Steam.exe"; "steamwebhelper.exe"; "gameoverlayui.exe"]) /\
  (platform os = tag -> Obs.known_platform tag ->
   exists obj evs,
     fst (Plugin.configureSteamPolicy host agent w) = Ok tt /\
     trace (snd (Plugin.configureSteamPolicy host agent w))
       = trace w ++ ECreatePolicy (Agent.id agent) obj :: evs /\
     Obs.created_for evs = [] /\
     CreatePolicy.processAlternatives obj
       = Names (SteamMonitor.getProcessNames (platform os)) /\
     CreatePolicy.processName obj = SteamMonitor.getMainProcessName (platform os)) /\
  (~ Obs.known_platform tag ->
   match Plugin.process_list tag with
   | None =>
       Plugin.configureSteamPolicy host agent w =
         (Throw (TypeError "Cannot read properties of undefined (reading '0')"), w)
   | Some found =>
       found = Member tag /\
       exists obj evs,
         fst (Plugin.configureSteamPolicy host agent w) = Ok tt /\
         trace (snd (Plugin.configureSteamPolicy host agent w))
           = trace w ++ ECreatePolicy (Agent.id agent) obj :: evs /\
         Obs.created_for evs = [] /\
         CreatePolicy.processAlternatives obj = Member tag /\
         CreatePolicy.processName obj = None
   end).
Proof.
  cbv zeta. split; [|split; [|split]].
  - unfold SteamMonitor.getMainProcessName, SteamMonitor.getProcessNames,
      SteamMonitor.processNames.
    destruct (String.eqb _ "win32"); [simpl; eauto|].
    destruct (String.eqb _ "darwin"); [simpl; eauto|].
    destruct (String.eqb _ "linux"); simpl; eauto.
  - intros Hk. unfold SteamMonitor.getProcessNames.
    destruct (SteamMonitor.processNames (platform os)) as [names|] eqn:E;
      [|reflexivity].
    exfalso. apply Hk, PolicyConfiguration.processNames_known.
    rewrite PolicyConfiguration.processNames_same in E.
    destruct (Plugin.processNames (platform os)) as [found| |];
      [eauto | discriminate | discriminate].
  - intros Hp Hk. rewrite Hp.
    apply PolicyConfiguration.processNames_known in Hk as [names E].
    rewrite (PolicyConfiguration.configure_recognised host agent names w E).
    cbv zeta.
    assert (Hn : SteamMonitor.getProcessNames (PolicySpec.platform_tag agent) = names).
    { unfold SteamMonitor.getProcessNames.
      now rewrite PolicyConfiguration.processNames_same, E. }
    unfold SteamMonitor.getMainProcessName. rewrite Hn.
    destruct (createPolicy host (trace w) (Agent.id agent) _); cbn [fst snd trace];
      do 2 eexists; rewrite <- app_assoc; (split; [reflexivity|]);
      (split; [reflexivity|]); (split; [reflexivity|]); split; reflexivity.
  - intros Hk.
    destruct (Plugin.process_list (PolicySpec.platform_tag agent)) as [found|] eqn:E.
    + assert (Hf : found = Member (PolicySpec.platform_tag agent)).
      { unfold Plugin.process_list in E.
        destruct (Plugin.processNames (PolicySpec.platform_tag agent))
          as [names| |] eqn:En; [|congruence|discriminate].
        exfalso. apply Hk, PolicyConfiguration.processNames_known. eauto. }
      split; [exact Hf|].
      rewrite (PolicyConfiguration.configure_issued host agent found w E).
      cbv zeta. subst found.
      destruct (createPolicy host (trace w) (Agent.id agent) _); cbn [fst snd trace];
        do 2 eexists; rewrite <- app_assoc; (split; [reflexivity|]);
        (split; [reflexivity|]); (split; [reflexivity|]); split; reflexivity.
    + now apply PolicyConfiguration.configure_missing.
Qed.

(** X26 on a Linux machine: the monitor reports the names that the policy
    of the Linux agent [A2] is created with. *)
Example linux_monitor_and_linux_agent :
  SteamMonitor.getMainProcessName (platform bare_linux) = Some "steam" /\
  Obs.created_policies
    (trace (snd (Plugin.configureSteamPolicy Examples.quiet_host Examples.pc2
                   Plugin.initial_world)))
    = [("A2", Plugin.policy_object "linux"
                (Names (SteamMonitor.getProcessNames (platform bare_linux)))
                default_state)].
Proof. vm_compute. auto. Qed.

End PathFacts.

(** ** The status line *)
Module StatusViewFacts.
Import Plugin PluginMore SteamStatus.

Lemma filter_online_none (listed : list Agent.t) :
  length (List.filter Agent.online listed) = 0%nat <->
  Forall (fun a => Agent.online a = false) listed.
Proof.
  induction listed as [|a l IH]; simpl.
  - split; [constructor | reflexivity].
  - destruct (Agent.online a) eqn:E; simpl.
    + split; [discriminate | intros H; inversion H; congruence].
    + rewrite IH. split; [now constructor | intros H; now inversion H].
Qed.

(** X27.  The status line for a summary that [steam:getStatus] returned.
    While the log holds a violation, the line counts the recent ones, at
    most ten however long the log is, with the block icon, and hides how
    many agents are online; the card lists the newest three.  With an
    empty log, the computer icon and the text "No agents online" go
    together, and they appear exactly when no listed agent is online. *)
Theorem status_line_of_summary (host : Host) (w : World) (listed : list Agent.t) :
  listAgents host (trace w) = Ok listed ->
  exists st w',
    getStatus host w = (Ok (IpcOk st), w') /\
    listed_violations st = firstn 3 (violations (state w)) /\
    (violations (state w) <> [] ->
     getStatusIcon (Some st) = BlockIcon /\
     getStatusText (Some st)
       = show_nat (Nat.min 10 (length (violations (state w)))) +:+ " recent violations") /\
    (violations (state w) = [] ->
     (getStatusIcon (Some st) = ComputerIcon <->
      getStatusText (Some st) = "No agents online") /\
     (getStatusIcon (Some st) = ComputerIcon <->
      Forall (fun a => Agent.online a = false) listed)).
Proof.
  intros Hl.
  unfold getStatus, ipc_handler, try_catch, bind, agentService_listAgents, call,
    get_state, ret. cbn [state trace fst snd]. rewrite Hl.
  do 2 eexists. split; [reflexivity|].
  unfold listed_violations, getStatusIcon, getStatusText.
  cbn [Status.recentViolations Status.activeAgents Status.monitoredChildren].
  rewrite (JSArrayFacts.slice_prefix _ 10) by (cbv; discriminate).
  rewrite (JSArrayFacts.slice_prefix _ 3) by (cbv; discriminate).
  change (Z.to_nat 10) with 10%nat. change (Z.to_nat 3) with 3%nat.
  split; [now rewrite firstn_firstn|]. split.
  - intros Hne. rewrite length_firstn.
    destruct (violations (state w)) as [|v vs]; [congruence|].
    cbn [length]. destruct (0 <? Nat.min 10 (S (length vs)))%nat eqn:E.
    + split; reflexivity.
    + apply Nat.ltb_ge in E. lia.
  - intros ->. cbn [firstn length Nat.ltb Nat.leb].
    rewrite <- filter_online_none.
    destruct (length (List.filter Agent.online listed)) as [|n]; cbn.
    + split; split; reflexivity.
    + split; split; try discriminate.
      destruct (length (List.filter has_child _)) as [|[|k]]; cbn; discriminate.
Qed.

Lemma status_line_of_summary_witness :
  listAgents Examples.half_down_host (trace StatusSpec.shared_child_world)
    = Ok [Examples.pc1; Examples.pc2] /\
  exists st w',
    getStatus Examples.half_down_host StatusSpec.shared_child_world = (Ok (IpcOk st), w') /\
    listed_violations st = firstn 3 (violations (state StatusSpec.shared_child_world)) /\
    (violations (state StatusSpec.shared_child_world) <> [] ->
     getStatusIcon (Some st) = BlockIcon /\
     getStatusText (Some st)
       = show_nat (Nat.min 10 (length (violations (state StatusSpec.shared_child_world))))
         +:+ " recent violations") /\
    (violations (state StatusSpec.shared_child_world) = [] ->
     (getStatusIcon (Some st) = ComputerIcon <->
      getStatusText (Some st) = "No agents online") /\
     (getStatusIcon (Some st) = ComputerIcon <->
      Forall (fun a => Agent.online a = false) [Examples.pc1; Examples.pc2])).
Proof.
  split; [reflexivity|].
  apply (status_line_of_summary Examples.half_down_host StatusSpec.shared_child_world
           [Examples.pc1; Examples.pc2]).
  reflexivity.
Defined.

(** Two agents are linked to one subject and online: the line speaks of
    two children. *)
Example status_line_counts_agents :
  exists st w',
    getStatus Examples.half_down_host StatusSpec.shared_child_world = (Ok (IpcOk st), w') /\
    getStatusText (Some st) = "Monitoring 2 children" /\
    getStatusIcon (Some st) = CheckCircleIcon.
Proof. do 2 eexists. repeat split. Qed.

(** X28.  [formatTimestamp] by the age of the timestamp.  A timestamp less
    than a minute old, or one in the future, reads "Just now".  Up to an
    hour the text is a whole number of minutes from 1 to 59, up to a day
    a whole number of hours from 1 to 23, both rounded down; from one day
    on the locale's date is shown. *)
Theorem formatTimestamp_by_age (now : Z) (toLocaleDateString : Z -> string)
    (timestamp : Z) :
  let diff := now - timestamp in
  let text := formatTimestamp now toLocaleDateString timestamp in
  (diff < 60000 /\ text = "Just now") \/
  (exists m, 1 <= m <= 59 /\ 60000 * m <= diff < 60000 * (m + 1) /\
             text = show_Z m +:+ "m ago") \/
  (exists h, 1 <= h <= 23 /\ 3600000 * h <= diff < 3600000 * (h + 1) /\
             text = show_Z h +:+ "h ago") \/
  (86400000 <= diff /\ text = toLocaleDateString timestamp).
Proof.
  cbv zeta. unfold formatTimestamp.
  set (diff := now - timestamp).
  destruct (diff <? 60000) eqn:E1.
  { apply Z.ltb_lt in E1. left. auto. }
  apply Z.ltb_ge in E1. right.
  destruct (diff <? 3600000) eqn:E2.
  { apply Z.ltb_lt in E2. left. exists (diff / 60000).
    pose proof (Z.mul_div_le diff 60000 eq_refl) as H1.
    pose proof (Z.mul_succ_div_gt diff 60000 eq_refl) as H2.
    unfold Z.succ in H2.
    assert (1 <= diff / 60000) by (apply Z.div_le_lower_bound; lia).
    assert (diff / 60000 < 60) by (apply Z.div_lt_upper_bound; lia).
    repeat split; lia. }
  apply Z.ltb_ge in E2. right.
  destruct (diff <? 86400000) eqn:E3.
  { apply Z.ltb_lt in E3. left. exists (diff / 3600000).
    pose proof (Z.mul_div_le diff 3600000 eq_refl) as H1.
    pose proof (Z.mul_succ_div_gt diff 3600000 eq_refl) as H2.
    unfold Z.succ in H2.
    assert (1 <= diff / 3600000) by (apply Z.div_le_lower_bound; lia).
    assert (diff / 3600000 < 24) by (apply Z.div_lt_upper_bound; lia).
    repeat split; lia. }
  apply Z.ltb_ge in E3. right. auto.
Qed.

(** One second short of an hour still reads as 59 minutes, and a
    timestamp ahead of the clock reads as just now. *)
Example nearly_an_hour :
  formatTimestamp 3600000 (fun _ => "1/1/1970") 1000 = "59m ago" /\
  formatTimestamp 1000 (fun _ => "1/1/1970") 5000 = "Just now" /\
  formatTimestamp 90000000 (fun _ => "1/1/1970") 1000 = "1/1/1970".
Proof. repeat split. Qed.

End StatusViewFacts.
